(** * InspectorDOMAgent: identity maps, tree mirroring and search

    A shallow embedding of [WebCore/inspector/InspectorDOMAgent.cpp].

    The agent is modelled as a record of its data members, its member
    functions as computations in a state monad over that record.  The
    document tree, which the agent only observes, is a finite tree of
    nodes that carry the address the agent uses as a map key.  Calls
    on the remote front end and on the CSS store are appended to logs
    held in the agent state. *)

From Stdlib Require Import ZArith String Ascii List Bool Lia.
From stdpp Require Import gmap list strings.

Set Warnings "-register-all".
Local Open Scope Z_scope.

(** ** Machine integers

    Identifiers and the counter [m_lastNodeId] have the C type [long]
    (64 bits on the LP64 targets).  [m_lastNodeId++] is modelled with
    the two's-complement wrap-around of the machine. *)

Definition LONG_MAX : Z := 2 ^ 63 - 1.
Definition LONG_MIN : Z := - 2 ^ 63.

Definition long_wrap (z : Z) : Z := (z + 2 ^ 63) mod 2 ^ 64 - 2 ^ 63.

(** ** The document tree *)

(** A non-null [Node*]; a nullable pointer is an [option Node]. *)
Abbreviation Node := positive.

(** [Node::NodeType], with the numbering of the DOM. *)
Inductive NodeType : Set :=
| ELEMENT_NODE
| ATTRIBUTE_NODE
| TEXT_NODE
| CDATA_SECTION_NODE
| ENTITY_REFERENCE_NODE
| ENTITY_NODE
| PROCESSING_INSTRUCTION_NODE
| COMMENT_NODE
| DOCUMENT_NODE
| DOCUMENT_TYPE_NODE
| DOCUMENT_FRAGMENT_NODE
| NOTATION_NODE
| XPATH_NAMESPACE_NODE.

Definition nodeTypeCode (t : NodeType) : Z :=
  match t with
  | ELEMENT_NODE => 1
  | ATTRIBUTE_NODE => 2
  | TEXT_NODE => 3
  | CDATA_SECTION_NODE => 4
  | ENTITY_REFERENCE_NODE => 5
  | ENTITY_NODE => 6
  | PROCESSING_INSTRUCTION_NODE => 7
  | COMMENT_NODE => 8
  | DOCUMENT_NODE => 9
  | DOCUMENT_TYPE_NODE => 10
  | DOCUMENT_FRAGMENT_NODE => 11
  | NOTATION_NODE => 12
  | XPATH_NAMESPACE_NODE => 13
  end.

Definition NodeType_eqb (s t : NodeType) : bool := nodeTypeCode s =? nodeTypeCode t.

(** What the agent reads off one node, apart from its links. *)
Record NodeInfo : Type := mkNodeInfo {
  nodeType : NodeType;
  nodeName : string;
  localName : string;
  nodeValue : string;
  (** [Element::attributes(true)]: [None] is the null map. *)
  attributes : option (list (string * string));
  isHTMLElement : bool;
  isFrameOwnerElement : bool;
  (** [Document::url()], [None] when it is null. *)
  url : option string;
  publicId : string;
  systemId : string;
  internalSubset : string
}.

(** A node with the subtree below it.  [ptr] is the node's address,
    [childNodes] its children from [firstChild()] along
    [nextSibling()], and [contentDocument] the nested document of a
    frame owner element ([None] is the null pointer). *)
Inductive DomNode : Type :=
  mkDomNode (ptr : Node) (info : NodeInfo)
            (contentDocument : option DomNode) (childNodes : list DomNode).

Definition ptr (n : DomNode) : Node := match n with mkDomNode p _ _ _ => p end.
Definition info (n : DomNode) : NodeInfo := match n with mkDomNode _ i _ _ => i end.
Definition contentDocument (n : DomNode) : option DomNode :=
  match n with mkDomNode _ _ c _ => c end.
Definition childNodes (n : DomNode) : list DomNode :=
  match n with mkDomNode _ _ _ l => l end.

Definition firstChild (n : DomNode) : option DomNode := head (childNodes n).

Definition hasType (n : DomNode) (t : NodeType) : bool :=
  NodeType_eqb (nodeType (info n)) t.

(** Modelled from the spec: [String::stripWhiteSpace] belongs to the
    string library, which is not part of these sources; the spec calls
    a text node insignificant when its content is entirely whitespace.
    Leading and trailing blanks (space, tab, line feed, vertical tab,
    form feed, carriage return) are removed. *)
Definition isSpaceOrNewline (c : ascii) : bool :=
  let n := Z.of_nat (nat_of_ascii c) in
  (n =? 32) || ((9 <=? n) && (n <=? 13)).

Fixpoint stripLeading (l : list ascii) : list ascii :=
  match l with
  | [] => []
  | c :: l' => if isSpaceOrNewline c then stripLeading l' else l
  end.

Definition stripWhiteSpace (s : string) : string :=
  string_of_list_ascii
    (rev (stripLeading (rev (stripLeading (list_ascii_of_string s))))).

(** [InspectorDOMAgent::isWhitespace] on a non-null node. *)
Definition isWhitespace (node : DomNode) : bool :=
  hasType node TEXT_NODE
  && (Z.of_nat (String.length (stripWhiteSpace (nodeValue (info node)))) =? 0).


(** ** Navigation in the tree

    The whole DOM is the list of its connected trees: the documents
    that are not nested in a frame, and the roots of detached
    subtrees.  The upward links of a node ([parentNode()],
    [previousSibling()], [nextSibling()], [Document::ownerElement()])
    are read off the position at which its address is found. *)

Abbreviation Dom := (list DomNode).

(** One step up from a node: it is a child of [parent], between the
    siblings [before] (nearest first) and [after]; or it is the content
    document of the frame owner [owner]. *)
Inductive Step : Type :=
| ChildOf (parent : DomNode) (before after : list DomNode)
| ContentOf (owner : DomNode).

(** A located node: itself and the steps up to the root of its tree. *)
Record Loc : Type := mkLoc { loc_node : DomNode; loc_up : list Step }.

Fixpoint locateIn (p : Node) (up : list Step) (n : DomNode) : option Loc :=
  if Pos.eqb (ptr n) p then Some (mkLoc n up)
  else
    let inChildren :=
      (fix scan (before after : list DomNode) : option Loc :=
         match after with
         | [] => None
         | c :: after' =>
             match locateIn p (ChildOf n before after' :: up) c with
             | Some l => Some l
             | None => scan (c :: before) after'
             end
         end) [] (childNodes n) in
    match inChildren with
    | Some l => Some l
    | None =>
        match contentDocument n with
        | Some doc => locateIn p (ContentOf n :: up) doc
        | None => None
        end
    end.

Fixpoint locate (d : Dom) (p : Node) : option Loc :=
  match d with
  | [] => None
  | root :: d' =>
      match locateIn p [] root with
      | Some l => Some l
      | None => locate d' p
      end
  end.

(** Following a [Node*] into the tree. *)
Definition deref (d : Dom) (p : Node) : option DomNode :=
  option_map loc_node (locate d p).

Definition stepsOf (d : Dom) (node : DomNode) : list Step :=
  match locate d (ptr node) with
  | Some l => loc_up l
  | None => []
  end.

Definition parentNode (d : Dom) (node : DomNode) : option DomNode :=
  match stepsOf d node with
  | ChildOf parent _ _ :: _ => Some parent
  | _ => None
  end.

Definition previousSiblings (d : Dom) (node : DomNode) : list DomNode :=
  match stepsOf d node with
  | ChildOf _ before _ :: _ => before
  | _ => []
  end.

Definition nextSiblings (d : Dom) (node : DomNode) : list DomNode :=
  match stepsOf d node with
  | ChildOf _ _ after :: _ => after
  | _ => []
  end.

Definition previousSibling (d : Dom) (node : DomNode) : option DomNode :=
  head (previousSiblings d node).

Definition nextSibling (d : Dom) (node : DomNode) : option DomNode :=
  head (nextSiblings d node).

(** [Document::ownerElement()]. *)
Definition ownerElement (d : Dom) (doc : DomNode) : option DomNode :=
  match stepsOf d doc with
  | ContentOf owner :: _ => Some owner
  | _ => None
  end.

(** The first node of a sibling chain that is not whitespace:
    [while (isWhitespace(node)) node = node->nextSibling();] (or
    [previousSibling()], on the chain of preceding siblings). *)
Fixpoint skipWhitespace (chain : list DomNode) : option DomNode :=
  match chain with
  | [] => None
  | node :: chain' => if isWhitespace node then skipWhitespace chain' else Some node
  end.

(** [InspectorDOMAgent::innerNextSibling]. *)
Definition innerNextSibling (d : Dom) (node : DomNode) : option DomNode :=
  skipWhitespace (nextSiblings d node).

(** [InspectorDOMAgent::innerPreviousSibling]. *)
Definition innerPreviousSibling (d : Dom) (node : DomNode) : option DomNode :=
  skipWhitespace (previousSiblings d node).

(** [InspectorDOMAgent::innerParentNode]. *)
Definition innerParentNode (d : Dom) (node : DomNode) : option DomNode :=
  match parentNode d node with
  | Some parent =>
      if hasType parent DOCUMENT_NODE then ownerElement d parent else Some parent
  | None => None
  end.

(** ** Values handed to the front end *)

(** The [InspectorObject] built by [buildObjectForNode]; an absent key
    is [None]. *)
Inductive InspectorObject : Type :=
  mkInspectorObject
    (o_id : Z) (o_nodeType : Z)
    (o_nodeName o_localName o_nodeValue : string)
    (o_childNodeCount : option Z)
    (o_children : option (list InspectorObject))
    (o_attributes : option (list string))
    (o_documentURL : option string)
    (o_publicId o_systemId o_internalSubset : option string).

Definition o_id (v : InspectorObject) : Z :=
  match v with mkInspectorObject i _ _ _ _ _ _ _ _ _ _ _ => i end.
Definition o_nodeType (v : InspectorObject) : Z :=
  match v with mkInspectorObject _ t _ _ _ _ _ _ _ _ _ _ => t end.
Definition o_childNodeCount (v : InspectorObject) : option Z :=
  match v with mkInspectorObject _ _ _ _ _ c _ _ _ _ _ _ => c end.
Definition o_children (v : InspectorObject) : option (list InspectorObject) :=
  match v with mkInspectorObject _ _ _ _ _ _ c _ _ _ _ _ => c end.

(** The calls the agent makes on [RemoteInspectorFrontend]. *)
Module Frontend.
Inductive Call : Type :=
| setDocument (root : option InspectorObject)
| setDetachedRoot (root : InspectorObject)
| setChildNodes (parentId : Z) (nodes : list InspectorObject)
| childNodeCountUpdated (id : Z) (newValue : Z)
| childNodeInserted (parentId prevId : Z) (node : InspectorObject)
| childNodeRemoved (parentId id : Z)
| attributesUpdated (id : Z) (attributes : list string)
| addNodesToSearchResult (nodeIds : list Z)
| didGetChildNodes (callId : Z)
| didSetOuterHTML (callId : Z) (nodeId : Z)
| didChangeTagName (callId : Z) (nodeId : Z)
| didPushNodeByPathToFrontend (callId : Z) (nodeId : Z).
End Frontend.

(** The calls the agent makes on [InspectorCSSStore]. *)
Module CSSStore.
Inductive Call : Type :=
| removeDocument (doc : option Node).
End CSSStore.

(** ** Search jobs *)

Inductive MatchJobClass : Set :=
| MatchExactIdJob
| MatchExactClassNamesJob
| MatchExactTagNamesJob
| MatchQuerySelectorAllJob
| MatchXPathJob
| MatchPlainTextJob.

Record MatchJob : Type := mkMatchJob {
  job_class : MatchJobClass;
  m_document : Node;
  m_query : string
}.

(** The one-shot timer [m_matchJobsTimer]: either idle or armed with
    the delay given to [startOneShot]. *)
Inductive OneShot : Set :=
| delay_0
| delay_0_025.

(** ** The agent *)

(** The [NodeToIdMap] a [NodeToIdMap*] points to: the member
    [m_documentNodeToIdMap], or an element of
    [m_danglingNodeToIdMaps]. *)
Inductive MapRef : Set :=
| DocumentMap
| DanglingMap (index : nat).

Global Instance MapRef_eq_dec : EqDecision MapRef.
Proof. solve_decision. Defined.

Record Agent : Type := mkAgent {
  cssStore_calls : list CSSStore.Call;
  frontend_calls : list Frontend.Call;
  m_lastNodeId : Z;
  m_documents : list Node;
  m_documentNodeToIdMap : gmap Node Z;
  m_danglingNodeToIdMaps : list (gmap Node Z);
  m_idToNode : gmap Z Node;
  m_idToNodesMap : gmap Z MapRef;
  m_childrenRequested : gset Z;
  m_inspectedNodes : list Z;
  m_pendingMatchJobs : list MatchJob;
  m_searchResults : list Node;
  m_matchJobsTimer : option OneShot
}.

(** [InspectorDOMAgent::InspectorDOMAgent]: [m_lastNodeId(1)], every
    container empty, the timer idle. *)
Definition InspectorDOMAgent : Agent :=
  {| cssStore_calls := [];
     frontend_calls := [];
     m_lastNodeId := 1;
     m_documents := [];
     m_documentNodeToIdMap := ∅;
     m_danglingNodeToIdMaps := [];
     m_idToNode := ∅;
     m_idToNodesMap := ∅;
     m_childrenRequested := ∅;
     m_inspectedNodes := [];
     m_pendingMatchJobs := [];
     m_searchResults := [];
     m_matchJobsTimer := None |}.

(** *** The state monad of the member functions *)

Definition M (A : Type) : Type := Agent -> A * Agent.

Definition ret {A : Type} (x : A) : M A := fun a => (x, a).

Definition bindM {A B : Type} (c : M A) (k : A -> M B) : M B :=
  fun a => let (x, a') := c a in k x a'.

Declare Scope agent_scope.
Delimit Scope agent_scope with agent.
Notation "x <- c ;; k" := (bindM c (fun x => k))
  (at level 100, c at next level, right associativity) : agent_scope.
Notation "c ;; k" := (bindM c (fun _ => k))
  (at level 100, right associativity) : agent_scope.
Local Open Scope agent_scope.

(** Reading and updating one member. *)
Definition gets {A : Type} (f : Agent -> A) : M A := fun a => (f a, a).
Definition modify (f : Agent -> Agent) : M unit := fun a => (tt, f a).

(** The state a computation ends in, and its result. *)
Definition stateAfter {A : Type} (c : M A) (a : Agent) : Agent := snd (c a).
Definition resultOf {A : Type} (c : M A) (a : Agent) : A := fst (c a).

(** Assignment to one member; the others are kept. *)
Definition set_cssStore_calls (v : list CSSStore.Call) (a : Agent) : Agent :=
  mkAgent
    v (frontend_calls a) (m_lastNodeId a) (m_documents a)
    (m_documentNodeToIdMap a) (m_danglingNodeToIdMaps a) (m_idToNode a)
    (m_idToNodesMap a) (m_childrenRequested a) (m_inspectedNodes a)
    (m_pendingMatchJobs a) (m_searchResults a) (m_matchJobsTimer a).
Definition set_frontend_calls (v : list Frontend.Call) (a : Agent) : Agent :=
  mkAgent
    (cssStore_calls a) v (m_lastNodeId a) (m_documents a)
    (m_documentNodeToIdMap a) (m_danglingNodeToIdMaps a) (m_idToNode a)
    (m_idToNodesMap a) (m_childrenRequested a) (m_inspectedNodes a)
    (m_pendingMatchJobs a) (m_searchResults a) (m_matchJobsTimer a).
Definition set_m_lastNodeId (v : Z) (a : Agent) : Agent :=
  mkAgent
    (cssStore_calls a) (frontend_calls a) v (m_documents a)
    (m_documentNodeToIdMap a) (m_danglingNodeToIdMaps a) (m_idToNode a)
    (m_idToNodesMap a) (m_childrenRequested a) (m_inspectedNodes a)
    (m_pendingMatchJobs a) (m_searchResults a) (m_matchJobsTimer a).
Definition set_m_documents (v : list Node) (a : Agent) : Agent :=
  mkAgent
    (cssStore_calls a) (frontend_calls a) (m_lastNodeId a) v
    (m_documentNodeToIdMap a) (m_danglingNodeToIdMaps a) (m_idToNode a)
    (m_idToNodesMap a) (m_childrenRequested a) (m_inspectedNodes a)
    (m_pendingMatchJobs a) (m_searchResults a) (m_matchJobsTimer a).
Definition set_m_documentNodeToIdMap (v : gmap Node Z) (a : Agent) : Agent :=
  mkAgent
    (cssStore_calls a) (frontend_calls a) (m_lastNodeId a) (m_documents a) v
    (m_danglingNodeToIdMaps a) (m_idToNode a) (m_idToNodesMap a)
    (m_childrenRequested a) (m_inspectedNodes a) (m_pendingMatchJobs a)
    (m_searchResults a) (m_matchJobsTimer a).
Definition set_m_danglingNodeToIdMaps (v : list (gmap Node Z)) (a : Agent) : Agent :=
  mkAgent
    (cssStore_calls a) (frontend_calls a) (m_lastNodeId a) (m_documents a)
    (m_documentNodeToIdMap a) v (m_idToNode a) (m_idToNodesMap a)
    (m_childrenRequested a) (m_inspectedNodes a) (m_pendingMatchJobs a)
    (m_searchResults a) (m_matchJobsTimer a).
Definition set_m_idToNode (v : gmap Z Node) (a : Agent) : Agent :=
  mkAgent
    (cssStore_calls a) (frontend_calls a) (m_lastNodeId a) (m_documents a)
    (m_documentNodeToIdMap a) (m_danglingNodeToIdMaps a) v (m_idToNodesMap a)
    (m_childrenRequested a) (m_inspectedNodes a) (m_pendingMatchJobs a)
    (m_searchResults a) (m_matchJobsTimer a).
Definition set_m_idToNodesMap (v : gmap Z MapRef) (a : Agent) : Agent :=
  mkAgent
    (cssStore_calls a) (frontend_calls a) (m_lastNodeId a) (m_documents a)
    (m_documentNodeToIdMap a) (m_danglingNodeToIdMaps a) (m_idToNode a) v
    (m_childrenRequested a) (m_inspectedNodes a) (m_pendingMatchJobs a)
    (m_searchResults a) (m_matchJobsTimer a).
Definition set_m_childrenRequested (v : gset Z) (a : Agent) : Agent :=
  mkAgent
    (cssStore_calls a) (frontend_calls a) (m_lastNodeId a) (m_documents a)
    (m_documentNodeToIdMap a) (m_danglingNodeToIdMaps a) (m_idToNode a)
    (m_idToNodesMap a) v (m_inspectedNodes a) (m_pendingMatchJobs a)
    (m_searchResults a) (m_matchJobsTimer a).
Definition set_m_inspectedNodes (v : list Z) (a : Agent) : Agent :=
  mkAgent
    (cssStore_calls a) (frontend_calls a) (m_lastNodeId a) (m_documents a)
    (m_documentNodeToIdMap a) (m_danglingNodeToIdMaps a) (m_idToNode a)
    (m_idToNodesMap a) (m_childrenRequested a) v (m_pendingMatchJobs a)
    (m_searchResults a) (m_matchJobsTimer a).
Definition set_m_pendingMatchJobs (v : list MatchJob) (a : Agent) : Agent :=
  mkAgent
    (cssStore_calls a) (frontend_calls a) (m_lastNodeId a) (m_documents a)
    (m_documentNodeToIdMap a) (m_danglingNodeToIdMaps a) (m_idToNode a)
    (m_idToNodesMap a) (m_childrenRequested a) (m_inspectedNodes a) v
    (m_searchResults a) (m_matchJobsTimer a).
Definition set_m_searchResults (v : list Node) (a : Agent) : Agent :=
  mkAgent
    (cssStore_calls a) (frontend_calls a) (m_lastNodeId a) (m_documents a)
    (m_documentNodeToIdMap a) (m_danglingNodeToIdMaps a) (m_idToNode a)
    (m_idToNodesMap a) (m_childrenRequested a) (m_inspectedNodes a)
    (m_pendingMatchJobs a) v (m_matchJobsTimer a).
Definition set_m_matchJobsTimer (v : option OneShot) (a : Agent) : Agent :=
  mkAgent
    (cssStore_calls a) (frontend_calls a) (m_lastNodeId a) (m_documents a)
    (m_documentNodeToIdMap a) (m_danglingNodeToIdMaps a) (m_idToNode a)
    (m_idToNodesMap a) (m_childrenRequested a) (m_inspectedNodes a)
    (m_pendingMatchJobs a) (m_searchResults a) v.

(** A call on the front end, and one on the CSS store. *)
Definition frontend (c : Frontend.Call) : M unit :=
  modify (fun a => set_frontend_calls (frontend_calls a ++ [c]) a).

Definition cssStore (c : CSSStore.Call) : M unit :=
  modify (fun a => set_cssStore_calls (cssStore_calls a ++ [c]) a).

(** *** The identity maps

    A [NodeToIdMap] is a [HashMap<Node*, long>]: [get] answers 0 for a
    key that is absent (the null pointer is never a key).  A
    [NodeToIdMap*] that points to no map of the agent cannot be
    followed in the program; in the model reading it finds nothing
    and writing it does nothing. *)

Definition nodesMapAt (a : Agent) (nodesMap : MapRef) : option (gmap Node Z) :=
  match nodesMap with
  | DocumentMap => Some (m_documentNodeToIdMap a)
  | DanglingMap i => m_danglingNodeToIdMaps a !! i
  end.

(** [nodesMap->get(node)] in state [a]. *)
Definition idOf (a : Agent) (nodesMap : MapRef) (node : Node) : Z :=
  match nodesMapAt a nodesMap with
  | Some m => default 0 (m !! node)
  | None => 0
  end.

Definition updateNodesMap (nodesMap : MapRef) (f : gmap Node Z -> gmap Node Z)
    (a : Agent) : Agent :=
  match nodesMap with
  | DocumentMap => set_m_documentNodeToIdMap (f (m_documentNodeToIdMap a)) a
  | DanglingMap i =>
      set_m_danglingNodeToIdMaps (alter f i (m_danglingNodeToIdMaps a)) a
  end.

Definition NodeToIdMap_get (nodesMap : MapRef) (node : Node) : M Z :=
  gets (fun a => idOf a nodesMap node).

(** [get] on a nullable pointer. *)
Definition NodeToIdMap_get_opt (nodesMap : MapRef) (node : option DomNode) : M Z :=
  match node with
  | Some n => NodeToIdMap_get nodesMap (ptr n)
  | None => ret 0
  end.

Definition NodeToIdMap_set (nodesMap : MapRef) (node : Node) (id : Z) : M unit :=
  modify (updateNodesMap nodesMap (<[node := id]>)).

Definition NodeToIdMap_remove (nodesMap : MapRef) (node : Node) : M unit :=
  modify (updateNodesMap nodesMap (delete node)).

(** [InspectorDOMAgent::bind]. *)
Definition bind (node : Node) (nodesMap : MapRef) : M Z :=
  id <- NodeToIdMap_get nodesMap node ;;
  if negb (id =? 0) then ret id
  else
    id <- gets m_lastNodeId ;;
    modify (set_m_lastNodeId (long_wrap (id + 1))) ;;
    NodeToIdMap_set nodesMap node id ;;
    modify (fun a => set_m_idToNode (<[id := node]> (m_idToNode a)) a) ;;
    modify (fun a => set_m_idToNodesMap (<[id := nodesMap]> (m_idToNodesMap a)) a) ;;
    ret id.

(** [InspectorDOMAgent::nodeForId]. *)
Definition nodeForId (id : Z) : M (option Node) :=
  if id =? 0 then ret None
  else gets (fun a => m_idToNode a !! id).

(** [InspectorDOMAgent::inspectedNode]; [num] is an [unsigned long]. *)
Definition inspectedNode (num : N) : M Z :=
  size <- gets (fun a => N.of_nat (length (m_inspectedNodes a))) ;;
  if (num <? size)%N
  then gets (fun a => default 0 (m_inspectedNodes a !! N.to_nat num))
  else ret 0.

(** [InspectorDOMAgent::addInspectedNode]: the vector is cut back to
    its five most recent entries. *)
Definition addInspectedNode (nodeId : Z) : M unit :=
  modify (fun a => set_m_inspectedNodes (take 5 (nodeId :: m_inspectedNodes a)) a).

(** [InspectorDOMAgent::startListening] and [stopListening].
    [m_documents] is a [ListHashSet]: insertion-ordered, without
    repetition.  The event listeners the two functions register on the
    document are on exactly the members of [m_documents]. *)
Definition startListening (doc : Node) : M unit :=
  contains <- gets (fun a => bool_decide (doc ∈ m_documents a)) ;;
  if contains then ret tt
  else modify (fun a => set_m_documents (m_documents a ++ [doc]) a).

Definition stopListening (doc : option Node) : M unit :=
  match doc with
  | None => ret tt
  | Some doc =>
      contains <- gets (fun a => bool_decide (doc ∈ m_documents a)) ;;
      if negb contains then ret tt
      else modify (fun a =>
             set_m_documents (filter (fun x => x ≠ doc) (m_documents a)) a)
  end.

(** [InspectorDOMAgent::mainFrameDocument]. *)
Definition mainFrameDocument : M (option Node) :=
  gets (fun a => head (m_documents a)).

(** *** The traversal view

    The loops of the agent over the children of a node all have the
    shape [for (child = innerFirstChild(node); child; child =
    innerNextSibling(child))].  On the tree they are recursions along
    the list of children: [innerNextSibling] steps over whitespace
    text nodes, and [innerFirstChild] starts either at the first child
    of the nested document of a frame owner, which it starts listening
    to, or at the first child that is not whitespace. *)

(** The nested document [innerFirstChild] descends into:
    [node->isFrameOwnerElement()] holds and [contentDocument()] is
    not null. *)
Definition frameDocument (node : DomNode) : option DomNode :=
  match contentDocument node with
  | Some doc => if isFrameOwnerElement (info node) then Some doc else None
  | None => None
  end.

(** [if (node->isFrameOwnerElement()) { doc = contentDocument(); if
    (doc) onDoc(doc) } otherwise]. *)
Definition ifFrameDocument {A : Type} (node : DomNode) (onDoc : DomNode -> A)
    (otherwise : A) : A :=
  match contentDocument node with
  | Some doc => if isFrameOwnerElement (info node) then onDoc doc else otherwise
  | None => otherwise
  end.

(** [body] on the first node of the chain that is not whitespace. *)
Fixpoint onFirstVisible {A : Type} (body : DomNode -> M A) (chain : list DomNode)
    : M (option A) :=
  match chain with
  | [] => ret None
  | c :: chain' =>
      if isWhitespace c then onFirstVisible body chain'
      else (x <- body c ;; ret (Some x))
  end.

(** [child = innerFirstChild(node); if (child) body(child)]. *)
Definition withInnerFirstChild {A : Type} (body : DomNode -> M A) (node : DomNode)
    : M (option A) :=
  ifFrameDocument node
    (fun doc =>
       startListening (ptr doc) ;;
       match childNodes doc with
       | [] => ret None
       | c :: _ => x <- body c ;; ret (Some x)
       end)
    (onFirstVisible body (childNodes node)).

(** [InspectorDOMAgent::innerFirstChild]. *)
Definition innerFirstChild (node : DomNode) : M (option DomNode) :=
  withInnerFirstChild ret node.

(** [body] on every node of the chain that is not whitespace: the
    loop from [innerNextSibling] of the node before the chain. *)
Fixpoint forInnerSiblings {A : Type} (body : DomNode -> M A) (chain : list DomNode)
    : M (list A) :=
  match chain with
  | [] => ret []
  | c :: chain' =>
      if isWhitespace c then forInnerSiblings body chain'
      else (x <- body c ;; xs <- forInnerSiblings body chain' ;; ret (x :: xs))
  end.

(** [for (child = innerFirstChild(node); child; child =
    innerNextSibling(child)) body(child)], with the results in order. *)
Definition forInnerChildren {A : Type} (body : DomNode -> M A) (node : DomNode)
    : M (list A) :=
  ifFrameDocument node
    (fun doc =>
       startListening (ptr doc) ;;
       match childNodes doc with
       | [] => ret []
       | c :: chain =>
           x <- body c ;; xs <- forInnerSiblings body chain ;; ret (x :: xs)
       end)
    (forInnerSiblings body (childNodes node)).

(** [InspectorDOMAgent::innerChildNodeCount]: [count++] once for each
    child the loop visits. *)
Definition innerChildNodeCount (node : DomNode) : M Z :=
  visited <- forInnerChildren (fun _ => ret tt) node ;;
  ret (Z.of_nat (length visited)).

(** [InspectorDOMAgent::unbind]. *)
Fixpoint unbind (node : DomNode) (nodesMap : MapRef) : M unit :=
  (if isFrameOwnerElement (info node)
   then
     stopListening (option_map ptr (contentDocument node)) ;;
     cssStore (CSSStore.removeDocument (option_map ptr (contentDocument node)))
   else ret tt) ;;
  id <- NodeToIdMap_get nodesMap (ptr node) ;;
  if id =? 0 then ret tt
  else
    modify (fun a => set_m_idToNode (delete id (m_idToNode a)) a) ;;
    NodeToIdMap_remove nodesMap (ptr node) ;;
    childrenRequested <- gets (fun a => bool_decide (id ∈ m_childrenRequested a)) ;;
    if childrenRequested
    then
      modify (fun a => set_m_childrenRequested (m_childrenRequested a ∖ {[id]}) a) ;;
      _ <- forInnerChildren (fun child => unbind child nodesMap) node ;;
      ret tt
    else ret tt.

(** [InspectorDOMAgent::documentURLString]. *)
Definition documentURLString (document : option DomNode) : string :=
  match document with
  | None => EmptyString
  | Some doc => default EmptyString (url (info doc))
  end.

(** [InspectorDOMAgent::buildArrayForElementAttributes]. *)
Definition buildArrayForElementAttributes (element : DomNode) : list string :=
  match attributes (info element) with
  | None => []
  | Some attrMap => concat (map (fun nv => [fst nv; snd nv]) attrMap)
  end.

Definition isContainerType (node : DomNode) : bool :=
  hasType node ELEMENT_NODE || hasType node DOCUMENT_NODE
  || hasType node DOCUMENT_FRAGMENT_NODE.

(** [InspectorDOMAgent::buildArrayForContainerChildren], over the
    function it is mutually recursive with. *)
Definition buildArrayForContainerChildren_with
    (buildObjectForNode : DomNode -> Z -> MapRef -> M InspectorObject)
    (container : DomNode) (depth : Z) (nodesMap : MapRef)
    : M (list InspectorObject) :=
  if depth =? 0
  then
    count <- innerChildNodeCount container ;;
    if count =? 1
    then
      child <- withInnerFirstChild
                 (fun child =>
                    if hasType child TEXT_NODE
                    then (v <- buildObjectForNode child 0 nodesMap ;; ret [v])
                    else ret [])
                 container ;;
      ret (default [] child)
    else ret []
  else
    let depth := if 0 <? depth then depth - 1 else depth in
    forInnerChildren (fun child => buildObjectForNode child depth nodesMap) container.

(** [InspectorDOMAgent::buildObjectForNode]. *)
Fixpoint buildObjectForNode (node : DomNode) (depth : Z) (nodesMap : MapRef)
    : M InspectorObject :=
  id <- bind (ptr node) nodesMap ;;
  let '(nodeName, localName, nodeValue) :=
    match nodeType (info node) with
    | TEXT_NODE | COMMENT_NODE => (EmptyString, EmptyString, nodeValue (info node))
    | ATTRIBUTE_NODE => (EmptyString, localName (info node), EmptyString)
    | DOCUMENT_FRAGMENT_NODE => (EmptyString, EmptyString, EmptyString)
    | _ => (nodeName (info node), localName (info node), EmptyString)
    end in
  if isContainerType node
  then
    nodeCount <- innerChildNodeCount node ;;
    children <- buildArrayForContainerChildren_with buildObjectForNode
                  node depth nodesMap ;;
    let children := if 0 <? Z.of_nat (length children) then Some children else None in
    ret (mkInspectorObject id (nodeTypeCode (nodeType (info node)))
           nodeName localName nodeValue (Some nodeCount) children
           (if hasType node ELEMENT_NODE
            then Some (buildArrayForElementAttributes node) else None)
           (if hasType node ELEMENT_NODE
            then (if isFrameOwnerElement (info node)
                  then Some (documentURLString (contentDocument node)) else None)
            else (if hasType node DOCUMENT_NODE
                  then Some (documentURLString (Some node)) else None))
           None None None)
  else
    ret (mkInspectorObject id (nodeTypeCode (nodeType (info node)))
           nodeName localName nodeValue None None None None
           (if hasType node DOCUMENT_TYPE_NODE then Some (publicId (info node)) else None)
           (if hasType node DOCUMENT_TYPE_NODE then Some (systemId (info node)) else None)
           (if hasType node DOCUMENT_TYPE_NODE
            then Some (internalSubset (info node)) else None)).

Definition buildArrayForContainerChildren
    (container : DomNode) (depth : Z) (nodesMap : MapRef) : M (list InspectorObject) :=
  buildArrayForContainerChildren_with buildObjectForNode container depth nodesMap.

(** *** Resetting *)

(** [InspectorDOMAgent::releaseDanglingNodes]. *)
Definition releaseDanglingNodes : M unit :=
  modify (set_m_danglingNodeToIdMaps []).

(** [InspectorDOMAgent::discardBindings]. *)
Definition discardBindings : M unit :=
  modify (set_m_documentNodeToIdMap ∅) ;;
  modify (set_m_idToNode ∅) ;;
  releaseDanglingNodes ;;
  modify (set_m_childrenRequested ∅) ;;
  modify (set_m_inspectedNodes []).

(** [InspectorDOMAgent::searchCanceled]. *)
Definition searchCanceled : M unit :=
  isActive <- gets (fun a => bool_decide (is_Some (m_matchJobsTimer a))) ;;
  (if isActive then modify (set_m_matchJobsTimer None) else ret tt) ;;
  modify (set_m_pendingMatchJobs []) ;;
  modify (set_m_searchResults []).

(** A loop over the elements of a container, in its order. *)
Fixpoint forEach {A : Type} (body : A -> M unit) (l : list A) : M unit :=
  match l with
  | [] => ret tt
  | x :: l' => body x ;; forEach body l'
  end.

(** [InspectorDOMAgent::reset]. *)
Definition reset : M unit :=
  searchCanceled ;;
  discardBindings ;;
  copy <- gets m_documents ;;
  forEach (fun doc => stopListening (Some doc)) copy.

(** *** Pushing nodes to the front end

    A [Node*] held by the agent is followed into the tree [d] with
    [deref].  An address that is not the address of a node of [d] is
    a stale pointer, which the program cannot follow; the model then
    takes the branch of the null pointer. *)

(** [InspectorDOMAgent::pushDocumentToFrontend]. *)
Definition pushDocumentToFrontend (d : Dom) : M bool :=
  document <- mainFrameDocument ;;
  match document with
  | None => ret false
  | Some document =>
      contains <- gets (fun a =>
                    bool_decide (is_Some (m_documentNodeToIdMap a !! document))) ;;
      (if negb contains
       then
         match deref d document with
         | Some doc =>
             root <- buildObjectForNode doc 2 DocumentMap ;;
             frontend (Frontend.setDocument (Some root))
         | None => ret tt
         end
       else ret tt) ;;
      ret true
  end.

(** [InspectorDOMAgent::pushChildNodesToFrontend]. *)
Definition pushChildNodesToFrontend (d : Dom) (nodeId : Z) : M unit :=
  node <- nodeForId nodeId ;;
  match node ≫= deref d with
  | None => ret tt
  | Some node =>
      if negb (isContainerType node) then ret tt
      else
        requested <- gets (fun a => bool_decide (nodeId ∈ m_childrenRequested a)) ;;
        if requested then ret tt
        else
          nodeMap <- gets (fun a => m_idToNodesMap a !! nodeId) ;;
          match nodeMap with
          | None => ret tt
          | Some nodeMap =>
              children <- buildArrayForContainerChildren node 1 nodeMap ;;
              modify (fun a =>
                set_m_childrenRequested ({[nodeId]} ∪ m_childrenRequested a) a) ;;
              frontend (Frontend.setChildNodes nodeId children)
          end
  end.

(** [InspectorDOMAgent::getChildNodes]. *)
Definition getChildNodes (d : Dom) (callId nodeId : Z) : M unit :=
  pushChildNodesToFrontend d nodeId ;;
  frontend (Frontend.didGetChildNodes callId).

(** The nodes that repeated calls of [innerParentNode] visit, read off
    the steps from a node up to the root of its tree: a parent that is
    a document is replaced by its owner element, and the walk ends
    where there is no parent or no owner. *)
Fixpoint innerParentsOf (up : list Step) : list DomNode :=
  match up with
  | ChildOf parent _ _ :: up' =>
      if hasType parent DOCUMENT_NODE
      then
        match up' with
        | ContentOf owner :: up'' => owner :: innerParentsOf up''
        | _ => []
        end
      else parent :: innerParentsOf up'
  | _ => []
  end.

Definition innerParents (d : Dom) (node : DomNode) : list DomNode :=
  innerParentsOf (stepsOf d node).

(** [danglingMap = new NodeToIdMap();
    m_danglingNodeToIdMaps.append(danglingMap);]. *)
Definition newDanglingMap : M MapRef :=
  index <- gets (fun a => length (m_danglingNodeToIdMaps a)) ;;
  modify (fun a => set_m_danglingNodeToIdMaps (m_danglingNodeToIdMaps a ++ [∅]) a) ;;
  ret (DanglingMap index).

(** The [while (true)] loop of [pushNodePathToFrontend]: [parents]
    are the inner parents of [node], nearest first. *)
Fixpoint pushNodePath_loop (node : DomNode) (parents : list DomNode)
    (path : list DomNode) : M (list DomNode * option MapRef) :=
  match parents with
  | [] =>
      danglingMap <- newDanglingMap ;;
      root <- buildObjectForNode node 0 danglingMap ;;
      frontend (Frontend.setDetachedRoot root) ;;
      ret (path, Some danglingMap)
  | parent :: parents' =>
      let path := path ++ [parent] in
      id <- NodeToIdMap_get DocumentMap (ptr parent) ;;
      if negb (id =? 0) then ret (path, None)
      else pushNodePath_loop parent parents' path
  end.

(** [InspectorDOMAgent::pushNodePathToFrontend]. *)
Definition pushNodePathToFrontend (d : Dom) (nodeToPush : DomNode) : M Z :=
  pushed <- pushDocumentToFrontend d ;;
  if negb pushed then ret 0
  else
    result <- NodeToIdMap_get DocumentMap (ptr nodeToPush) ;;
    if negb (result =? 0) then ret result
    else
      walked <- pushNodePath_loop nodeToPush (innerParents d nodeToPush) [] ;;
      let (path, danglingMap) := walked in
      let map := default DocumentMap danglingMap in
      forEach (fun node =>
                 nodeId <- NodeToIdMap_get map (ptr node) ;;
                 pushChildNodesToFrontend d nodeId)
              (rev path) ;;
      NodeToIdMap_get map (ptr nodeToPush).

(** *** Mutation notifications *)

(** [InspectorDOMAgent::didInsertDOMNode].  [node->parentNode()] is
    read in the tree [d] as it is when the function is called; [get]
    on a null parent answers 0, so that the branch of a null parent
    below is never taken. *)
Definition didInsertDOMNode (d : Dom) (node : DomNode) : M unit :=
  if isWhitespace node then ret tt
  else
    unbind node DocumentMap ;;
    let parent := parentNode d node in
    parentId <- NodeToIdMap_get_opt DocumentMap parent ;;
    if parentId =? 0 then ret tt
    else
      match parent with
      | None => ret tt
      | Some parent =>
          requested <- gets (fun a => bool_decide (parentId ∈ m_childrenRequested a)) ;;
          if negb requested
          then
            count <- innerChildNodeCount parent ;;
            frontend (Frontend.childNodeCountUpdated parentId count)
          else
            let prevSibling := innerPreviousSibling d node in
            prevId <- NodeToIdMap_get_opt DocumentMap prevSibling ;;
            value <- buildObjectForNode node 0 DocumentMap ;;
            frontend (Frontend.childNodeInserted parentId prevId value)
      end.

(** [InspectorDOMAgent::didRemoveDOMNode]. *)
Definition didRemoveDOMNode (d : Dom) (node : DomNode) : M unit :=
  if isWhitespace node then ret tt
  else
    let parent := parentNode d node in
    parentId <- NodeToIdMap_get_opt DocumentMap parent ;;
    if parentId =? 0 then ret tt
    else
      match parent with
      | None => ret tt
      | Some parent =>
          requested <- gets (fun a => bool_decide (parentId ∈ m_childrenRequested a)) ;;
          (if negb requested
           then
             count <- innerChildNodeCount parent ;;
             if count =? 1
             then frontend (Frontend.childNodeCountUpdated parentId 0)
             else ret tt
           else
             id <- NodeToIdMap_get DocumentMap (ptr node) ;;
             frontend (Frontend.childNodeRemoved parentId id)) ;;
          unbind node DocumentMap
      end.

(** [InspectorDOMAgent::didModifyDOMAttr]. *)
Definition didModifyDOMAttr (element : DomNode) : M unit :=
  id <- NodeToIdMap_get DocumentMap (ptr element) ;;
  if id =? 0 then ret tt
  else frontend (Frontend.attributesUpdated id (buildArrayForElementAttributes element)).

(** The events the agent listens to. *)
Inductive EventType : Set :=
| DOMContentLoadedEvent
| loadEvent.

(** [InspectorDOMAgent::handleEvent]; [node] is the target of the
    event. *)
Definition handleEvent (d : Dom) (type : EventType) (node : DomNode) : M unit :=
  match type with
  | DOMContentLoadedEvent =>
      discardBindings ;;
      _ <- pushDocumentToFrontend d ;;
      ret tt
  | loadEvent =>
      frameOwnerId <- NodeToIdMap_get DocumentMap (ptr node) ;;
      if frameOwnerId =? 0 then ret tt
      else
        requested <- gets (fun a => bool_decide (frameOwnerId ∈ m_childrenRequested a)) ;;
        if negb requested
        then
          count <- innerChildNodeCount node ;;
          frontend (Frontend.childNodeCountUpdated frameOwnerId count)
        else
          parentId <- NodeToIdMap_get_opt DocumentMap (innerParentNode d node) ;;
          frontend (Frontend.childNodeRemoved parentId frameOwnerId) ;;
          value <- buildObjectForNode node 0 DocumentMap ;;
          let previousSibling := innerPreviousSibling d node in
          prevId <- NodeToIdMap_get_opt DocumentMap previousSibling ;;
          frontend (Frontend.childNodeInserted parentId prevId value) ;;
          modify (fun a =>
            set_m_childrenRequested (m_childrenRequested a ∖ {[frameOwnerId]}) a)
  end.

(** [Document::documentElement()]: the first child that is an
    element. *)
Definition documentElement (doc : DomNode) : option DomNode :=
  find (fun c => hasType c ELEMENT_NODE) (childNodes doc).

(** [InspectorDOMAgent::setDocument]. *)
Definition setDocument (d : Dom) (doc : option Node) : M unit :=
  main <- mainFrameDocument ;;
  if bool_decide (doc = main) then ret tt
  else
    reset ;;
    match doc with
    | Some doc =>
        startListening doc ;;
        match deref d doc ≫= documentElement with
        | Some _ => _ <- pushDocumentToFrontend d ;; ret tt
        | None => ret tt
        end
    | None => frontend (Frontend.setDocument None)
    end.

(** *** Search *)

(** [int ExceptionCode]; 0 is success. *)
Abbreviation ExceptionCode := Z (only parsing).

(** The queries on a document that the match jobs run, the name
    check, and the documents of the frame tree in the order of
    [traverseNext()] ([None]: a frame without a document).  They are
    services of the DOM; the agent is defined over any of them. *)
Record DocumentQueries : Type := mkDocumentQueries {
  isValidName : string -> bool;
  getElementById : Dom -> Node -> string -> option DomNode;
  getElementsByClassName : Dom -> Node -> string -> list DomNode;
  getElementsByName : Dom -> Node -> string -> list DomNode;
  querySelectorAll : Dom -> Node -> string -> ExceptionCode * list DomNode;
  (** [Document::evaluate] with an ordered node snapshot: [None] when
      it raises or gives no result. *)
  evaluate : Dom -> Node -> string -> option (list DomNode);
  frameDocuments : Dom -> list (option Node)
}.

(** [ListHashSet<Node*>::add]. *)
Definition collector_add (node : DomNode) (resultCollector : list DomNode)
    : list DomNode :=
  if bool_decide (ptr node ∈ ptr <$> resultCollector) then resultCollector
  else resultCollector ++ [node].

(** [MatchJob::addNodesToResults]. *)
Definition addNodesToResults (nodes : list DomNode) (resultCollector : list DomNode)
    : list DomNode :=
  fold_left (fun acc node => collector_add node acc) nodes resultCollector.

Definition isEmpty (s : string) : bool := Z.of_nat (String.length s) =? 0.

(** [MatchJob::match] of each class of job. *)
Definition MatchJob_match (q : DocumentQueries) (d : Dom) (job : MatchJob)
    (resultCollector : list DomNode) : list DomNode :=
  let doc := m_document job in
  let query := m_query job in
  match job_class job with
  | MatchExactIdJob =>
      if isEmpty query then resultCollector
      else
        match getElementById q d doc query with
        | Some element => collector_add element resultCollector
        | None => resultCollector
        end
  | MatchExactClassNamesJob =>
      if negb (isEmpty query)
      then addNodesToResults (getElementsByClassName q d doc query) resultCollector
      else resultCollector
  | MatchExactTagNamesJob =>
      if negb (isEmpty query)
      then addNodesToResults (getElementsByName q d doc query) resultCollector
      else resultCollector
  | MatchQuerySelectorAllJob =>
      if isEmpty query then resultCollector
      else
        let (ec, list) := querySelectorAll q d doc query in
        if ec =? 0 then addNodesToResults list resultCollector else resultCollector
  | MatchXPathJob | MatchPlainTextJob =>
      if isEmpty query then resultCollector
      else
        match evaluate q d doc query with
        | Some snapshot => addNodesToResults snapshot resultCollector
        | None => resultCollector
        end
  end.

(** The loop of [reportNodesAsSearchResults]. *)
Fixpoint reportNodes_loop (d : Dom) (resultCollector : list DomNode) : M (list Z) :=
  match resultCollector with
  | [] => ret []
  | node :: rest =>
      contains <- gets (fun a => bool_decide (ptr node ∈ m_searchResults a)) ;;
      if contains then reportNodes_loop d rest
      else
        modify (fun a => set_m_searchResults (m_searchResults a ++ [ptr node]) a) ;;
        id <- pushNodePathToFrontend d node ;;
        ids <- reportNodes_loop d rest ;;
        ret (id :: ids)
  end.

(** [InspectorDOMAgent::reportNodesAsSearchResults]. *)
Definition reportNodesAsSearchResults (d : Dom) (resultCollector : list DomNode)
    : M unit :=
  nodeIds <- reportNodes_loop d resultCollector ;;
  frontend (Frontend.addNodesToSearchResult nodeIds).

(** [InspectorDOMAgent::onMatchJobsTimer].  The timer is a one-shot
    timer: it is idle again when its function runs. *)
Definition onMatchJobsTimer (q : DocumentQueries) (d : Dom) : M unit :=
  modify (set_m_matchJobsTimer None) ;;
  pending <- gets m_pendingMatchJobs ;;
  match pending with
  | [] => searchCanceled
  | job :: pending' =>
      modify (set_m_pendingMatchJobs pending') ;;
      reportNodesAsSearchResults d (MatchJob_match q d job []) ;;
      modify (set_m_matchJobsTimer (Some delay_0_025))
  end.

(** Modelled from the spec: the operations of the string class
    ([find], [reverseFind], [substring], [replace]) are not part of
    these sources; they are modelled by their contract: [find] and
    [reverseFind] answer the index of the first and the last
    occurrence or -1, [substring(pos, len)] takes at most [len]
    characters from index [pos] ([len] is unsigned), and [replace]
    rewrites every occurrence. *)
Fixpoint String_find (c : ascii) (s : string) : Z :=
  match s with
  | EmptyString => -1
  | String c' s' =>
      if Ascii.eqb c' c then 0
      else let r := String_find c s' in if r =? -1 then -1 else r + 1
  end.

Fixpoint String_reverseFind (c : ascii) (s : string) : Z :=
  match s with
  | EmptyString => -1
  | String c' s' =>
      let r := String_reverseFind c s' in
      if negb (r =? -1) then r + 1
      else if Ascii.eqb c' c then 0 else -1
  end.

Definition String_substring (pos len : Z) (s : string) : string :=
  let len := Z.min (len mod 2 ^ 32) (Z.of_nat (String.length s)) in
  substring (Z.to_nat pos) (Z.to_nat len) s.

Definition quoteChar : ascii := ascii_of_nat 39.
Definition backslashChar : ascii := ascii_of_nat 92.

(** [s.replace("'", "\\'")]. *)
Fixpoint escapeQuotes (s : string) : string :=
  match s with
  | EmptyString => EmptyString
  | String c s' =>
      if Ascii.eqb c quoteChar
      then String backslashChar (String quoteChar (escapeQuotes s'))
      else String c (escapeQuotes s')
  end.

(** The constructor of [MatchPlainTextJob] rewrites the query. *)
Definition newMatchPlainTextJob (document : Node) (query : string) : MatchJob :=
  mkMatchJob MatchPlainTextJob document
    ("//text()[contains(., '" ++ query ++ "')] | //comment()[contains(., '"
       ++ query ++ "')]")%string.

(** The jobs [performSearch] appends for one document. *)
Definition jobsForDocument (q : DocumentQueries) (whitespaceTrimmedQuery : string)
    (document : Node) : list MatchJob :=
  let queryLength := Z.of_nat (String.length whitespaceTrimmedQuery) in
  let startTagFound := String_find "<"%char whitespaceTrimmedQuery =? 0 in
  let endTagFound :=
    String_reverseFind ">"%char whitespaceTrimmedQuery + 1 =? queryLength in
  let tagNameQuery :=
    if startTagFound || endTagFound
    then String_substring (if startTagFound then 1 else 0)
           (if endTagFound then queryLength - 1 else queryLength)
           whitespaceTrimmedQuery
    else whitespaceTrimmedQuery in
  let tagNameQuery := if isValidName q tagNameQuery then tagNameQuery else EmptyString in
  let attributeNameQuery :=
    if isValidName q whitespaceTrimmedQuery then whitespaceTrimmedQuery
    else EmptyString in
  let escapedQuery := escapeQuotes whitespaceTrimmedQuery in
  let escapedTagNameQuery := escapeQuotes tagNameQuery in
  if negb (isEmpty tagNameQuery) && startTagFound && endTagFound
  then [ mkMatchJob MatchExactTagNamesJob document tagNameQuery;
         newMatchPlainTextJob document escapedQuery ]
  else if negb (isEmpty tagNameQuery) && startTagFound
  then [ mkMatchJob MatchXPathJob document
           ("//*[starts-with(name(), '" ++ escapedTagNameQuery ++ "')]")%string;
         newMatchPlainTextJob document escapedQuery ]
  else if negb (isEmpty tagNameQuery) && endTagFound
  then [ mkMatchJob MatchXPathJob document
           ("//*[contains(name(), '" ++ escapedTagNameQuery ++ "')]")%string;
         newMatchPlainTextJob document escapedQuery ]
  else if String.eqb whitespaceTrimmedQuery "//*"%string
          || String.eqb whitespaceTrimmedQuery "*"%string
  then [ mkMatchJob MatchXPathJob document
           ("//*[contains(@*, '" ++ escapedQuery ++ "')]")%string;
         newMatchPlainTextJob document escapedQuery ]
  else
    [ mkMatchJob MatchExactIdJob document whitespaceTrimmedQuery;
      mkMatchJob MatchExactClassNamesJob document whitespaceTrimmedQuery;
      mkMatchJob MatchExactTagNamesJob document tagNameQuery;
      mkMatchJob MatchQuerySelectorAllJob document ("[" ++ attributeNameQuery ++ "]")%string;
      mkMatchJob MatchQuerySelectorAllJob document whitespaceTrimmedQuery;
      mkMatchJob MatchXPathJob document ("//*[contains(@*, '" ++ escapedQuery ++ "')]")%string ]
    ++ (if negb (isEmpty tagNameQuery)
        then [ mkMatchJob MatchXPathJob document
                 ("//*[contains(name(), '" ++ escapedTagNameQuery ++ "')]")%string ]
        else [])
    ++ [ newMatchPlainTextJob document escapedQuery;
         mkMatchJob MatchXPathJob document whitespaceTrimmedQuery ].

(** [InspectorDOMAgent::performSearch]. *)
Definition performSearch (q : DocumentQueries) (d : Dom)
    (whitespaceTrimmedQuery : string) (runSynchronously : bool) : M unit :=
  searchCanceled ;;
  forEach (fun document =>
             match document with
             | None => ret tt
             | Some document =>
                 modify (fun a =>
                   set_m_pendingMatchJobs
                     (m_pendingMatchJobs a
                        ++ jobsForDocument q whitespaceTrimmedQuery document) a)
             end)
          (frameDocuments q d) ;;
  if runSynchronously
  then
    pending <- gets m_pendingMatchJobs ;;
    reportNodesAsSearchResults d
      (fold_left (fun resultCollector job => MatchJob_match q d job resultCollector)
                 pending []) ;;
    searchCanceled
  else modify (set_m_matchJobsTimer (Some delay_0)).

(** *** Editing *)

(** [InspectorDOMAgent::setOuterHTML].  [HTMLElement_setOuterHTML] is
    the markup replacement of the DOM: it answers an exception code
    and the tree after the call, and, as it notifies the agent of the
    nodes it removes and inserts, may change the agent.  The result is
    the tree after the call, or [None] where the function follows a
    null pointer ([parentNode->firstChild()] without a parent, or the
    push of a null [newNode]). *)
Definition setOuterHTML
    (HTMLElement_setOuterHTML : Dom -> DomNode -> string -> M (ExceptionCode * Dom))
    (d : Dom) (callId nodeId : Z) (outerHTML : string) : M (option Dom) :=
  node <- nodeForId nodeId ;;
  match node ≫= deref d with
  | None => frontend (Frontend.didSetOuterHTML callId 0) ;; ret (Some d)
  | Some node =>
      if negb (isHTMLElement (info node))
      then frontend (Frontend.didSetOuterHTML callId 0) ;; ret (Some d)
      else
        childrenRequested <- gets (fun a => bool_decide (nodeId ∈ m_childrenRequested a)) ;;
        let previousSibling := previousSibling d node in
        let parentNode := parentNode d node in
        outcome <- HTMLElement_setOuterHTML d node outerHTML ;;
        let (ec, d') := outcome in
        (if negb (ec =? 0) then frontend (Frontend.didSetOuterHTML callId 0) else ret tt) ;;
        let newNode :=
          match previousSibling with
          | Some previousSibling => Some (nextSibling d' previousSibling)
          | None =>
              match parentNode with
              | Some parentNode => Some (deref d' (ptr parentNode) ≫= firstChild)
              | None => None
              end
          end in
        match newNode with
        | Some (Some newNode) =>
            newId <- pushNodePathToFrontend d' newNode ;;
            (if childrenRequested then pushChildNodesToFrontend d' newId else ret tt) ;;
            frontend (Frontend.didSetOuterHTML callId newId) ;;
            ret (Some d')
        | _ => ret None
        end
  end.

(** ** Sessions

    Every change of the identity maps in the agent is made by one of
    four steps: [bind], [unbind], [discardBindings] and the
    allocation of a map for a detached subtree.  A session is a
    sequence of them, in any order; it yields the identifiers its
    calls of [bind] return, in the order of the calls. *)

Inductive IdentityStep : Type :=
| StepBind (node : Node) (nodesMap : MapRef)
| StepUnbind (node : DomNode) (nodesMap : MapRef)
| StepDiscardBindings
| StepNewDanglingMap.

Definition runStep (s : IdentityStep) : M (list (Node * MapRef * Z)) :=
  match s with
  | StepBind node nodesMap => id <- bind node nodesMap ;; ret [(node, nodesMap, id)]
  | StepUnbind node nodesMap => unbind node nodesMap ;; ret []
  | StepDiscardBindings => discardBindings ;; ret []
  | StepNewDanglingMap => _ <- newDanglingMap ;; ret []
  end.

Fixpoint session (steps : list IdentityStep) : M (list (Node * MapRef * Z)) :=
  match steps with
  | [] => ret []
  | s :: steps' =>
      bound <- runStep s ;;
      bound' <- session steps' ;;
      ret (bound ++ bound')
  end.

(** ** Notions used to state the properties *)

(** All the nodes of the tree below a node, itself included, whether
    the traversal view shows them or not. *)
Fixpoint nodesOf (n : DomNode) : list DomNode :=
  n :: (childNodes n ≫= nodesOf)
    ++ match contentDocument n with
       | Some doc => nodesOf doc
       | None => []
       end.

Definition visible (n : DomNode) : bool := negb (isWhitespace n).

(** The children of a node in the traversal view: what the loop from
    [innerFirstChild] along [innerNextSibling] visits. *)
Definition innerChildren (node : DomNode) : list DomNode :=
  match frameDocument node with
  | Some doc =>
      match childNodes doc with
      | [] => []
      | c :: chain => c :: filter (fun x => visible x = true) chain
      end
  | None => filter (fun x => visible x = true) (childNodes node)
  end.

(** The nodes [unbind(P, nodesMap)] reaches in state [a]: [P], and
    the visible children of every node it reaches that is bound in
    [nodesMap] and has its children disclosed. *)
Inductive unbindReaches (a : Agent) (nodesMap : MapRef) (P : DomNode)
    : DomNode -> Prop :=
| reaches_root : unbindReaches a nodesMap P P
| reaches_child (x c : DomNode) :
    unbindReaches a nodesMap P x ->
    idOf a nodesMap (ptr x) ≠ 0 ->
    idOf a nodesMap (ptr x) ∈ m_childrenRequested a ->
    c ∈ innerChildren x ->
    unbindReaches a nodesMap P c.

(** Distinct nodes of a tree have distinct addresses. *)
Definition distinctAddresses (n : DomNode) : Prop :=
  NoDup (ptr <$> nodesOf n).

(** No two nodes of a tree share an identifier in [nodesMap]. *)
Definition distinctIds (a : Agent) (nodesMap : MapRef) (n : DomNode) : Prop :=
  forall x y, x ∈ nodesOf n -> y ∈ nodesOf n ->
    idOf a nodesMap (ptr x) ≠ 0 ->
    idOf a nodesMap (ptr x) = idOf a nodesMap (ptr y) -> ptr x = ptr y.




(** The nodes strictly below a node. *)
Definition descendants (n : DomNode) : list DomNode :=
  (childNodes n ≫= nodesOf)
    ++ match contentDocument n with
       | Some doc => nodesOf doc
       | None => []
       end.

(** A computation keeps [I] when [I] holds after it wherever it held
    before. *)
Definition keeps (I : Agent -> Prop) {A : Type} (c : M A) : Prop :=
  forall a, I a -> I (stateAfter c a).

(** What [unbind(_, nodesMap)] may change: it removes entries of
    [nodesMap], of [m_idToNode] and of [m_childrenRequested], and it
    may stop or start listening to documents and call the CSS store. *)
Record unbindRel (nodesMap : MapRef) (a a' : Agent) : Prop := {
  ur_frontend : frontend_calls a' = frontend_calls a;
  ur_lastNodeId : m_lastNodeId a' = m_lastNodeId a;
  ur_idToNodesMap : m_idToNodesMap a' = m_idToNodesMap a;
  ur_inspected : m_inspectedNodes a' = m_inspectedNodes a;
  ur_pending : m_pendingMatchJobs a' = m_pendingMatchJobs a;
  ur_results : m_searchResults a' = m_searchResults a;
  ur_timer : m_matchJobsTimer a' = m_matchJobsTimer a;
  ur_valid : forall M, is_Some (nodesMapAt a' M) <-> is_Some (nodesMapAt a M);
  ur_idOf : forall M p,
      idOf a' M p = idOf a M p \/ (M = nodesMap /\ idOf a' M p = 0);
  ur_idToNode : forall i, m_idToNode a' !! i = m_idToNode a !! i
                          \/ m_idToNode a' !! i = None;
  ur_requested : m_childrenRequested a' ⊆ m_childrenRequested a
}.

(** The invariant of a session after at most [k] steps, with the
    identifiers [bound] its calls of [bind] have returned. *)
Record idInv (k : Z) (a : Agent) (bound : list (Node * MapRef * Z)) : Prop := {
  inv_counter : 1 <= m_lastNodeId a <= 1 + k;
  inv_range : forall M p, idOf a M p ≠ 0 -> 1 <= idOf a M p < m_lastNodeId a;
  inv_inj : forall M1 p1 M2 p2,
      idOf a M1 p1 ≠ 0 -> idOf a M1 p1 = idOf a M2 p2 -> M1 = M2 /\ p1 = p2;
  inv_bound_range : forall n M i, (n, M, i) ∈ bound -> 1 <= i < m_lastNodeId a;
  inv_bound_owner : forall n M i M' p',
      (n, M, i) ∈ bound -> idOf a M' p' = i -> M' = M /\ p' = n;
  inv_bound_fun : forall n1 M1 n2 M2 i,
      (n1, M1, i) ∈ bound -> (n2, M2, i) ∈ bound -> n1 = n2 /\ M1 = M2
}.


(** ** A small document for the examples

    [<html><div> <span>x</span> </div><iframe/></html>], where the
    frame holds a document of its own, and a text node of blanks that
    is attached to nothing. *)

Definition exampleInfo (t : NodeType) (name value : string) (frameOwner : bool)
    : NodeInfo :=
  mkNodeInfo t name name value
    (if NodeType_eqb t ELEMENT_NODE then Some [] else None)
    (NodeType_eqb t ELEMENT_NODE) frameOwner None
    EmptyString EmptyString EmptyString.

Definition exampleText (p : Node) (value : string) : DomNode :=
  mkDomNode p (exampleInfo TEXT_NODE "#text" value false) None [].

Definition exampleElement (p : Node) (name : string) (children : list DomNode)
    : DomNode :=
  mkDomNode p (exampleInfo ELEMENT_NODE name EmptyString false) None children.

Definition exampleDocument (p : Node) (children : list DomNode) : DomNode :=
  mkDomNode p (exampleInfo DOCUMENT_NODE "#document" EmptyString false) None children.

Definition exampleFrame (p : Node) (doc : DomNode) : DomNode :=
  mkDomNode p (exampleInfo ELEMENT_NODE "IFRAME" EmptyString true) (Some doc) [].

Definition exSpan : DomNode := exampleElement 4 "SPAN" [exampleText 5 "x"].
Definition exDiv : DomNode :=
  exampleElement 3 "DIV" [exampleText 6 "  "; exSpan; exampleText 7 " "].
Definition exInnerDocument : DomNode :=
  exampleDocument 11 [exampleElement 12 "HTML" []].
Definition exFrame : DomNode := exampleFrame 10 exInnerDocument.
Definition exHtml : DomNode := exampleElement 2 "HTML" [exDiv; exFrame].
Definition exDocument : DomNode := exampleDocument 1 [exHtml].
Definition exBlank : DomNode := exampleText 9 "   ".
Definition exDom : Dom := [exDocument; exBlank].

(** The agent of the examples listens to both documents. *)
Definition exListening : Agent :=
  stateAfter (startListening 1 ;; startListening 11) InspectorDOMAgent.

(** The agent of the examples after the main document was set. *)
Definition exPushed : Agent :=
  stateAfter (setDocument exDom (Some 1%positive)) InspectorDOMAgent.

(** The tree of the example after the span was removed from the div:
    the span is the root of a tree of its own. *)
Definition exDomAfterRemoval : Dom :=
  [exampleDocument 1
     [exampleElement 2 "HTML"
        [exampleElement 3 "DIV" [exampleText 6 "  "; exampleText 7 " "]; exFrame]];
   exBlank; exSpan].

(** A markup replacement that refuses the edit: it raises
    [SYNTAX_ERR] and leaves the tree and the agent as they are. *)
Definition rejectingSetOuterHTML (d : Dom) (node : DomNode) (outerHTML : string)
    : M (Z * Dom) :=
  ret (12, d).

(** The state after [innerFirstChild(node)]: the agent listens to the
    nested document of a frame owner. *)
Definition listenTo (node : DomNode) (a : Agent) : Agent :=
  match frameDocument node with
  | Some doc => stateAfter (startListening (ptr doc)) a
  | None => a
  end.

(** ** The parts of [unbind]

    Names for the intermediate states of [unbind] and for what it
    reaches, removes and leaves alone. *)

(** The state after the first statement of [unbind]. *)
Definition afterFrame (node : DomNode) (a : Agent) : Agent :=
  stateAfter
    (if isFrameOwnerElement (info node)
     then
       stopListening (option_map ptr (contentDocument node)) ;;
       cssStore (CSSStore.removeDocument (option_map ptr (contentDocument node)))
     else ret tt) a.

(** The state after [unbind] has removed a bound node's own entries,
    before it turns to the children. *)
Definition removeOwn (node : DomNode) (nodesMap : MapRef) (a : Agent) : Agent :=
  let a0 := afterFrame node a in
  let id := idOf a nodesMap (ptr node) in
  let a1 := updateNodesMap nodesMap (delete (ptr node))
              (set_m_idToNode (delete id (m_idToNode a0)) a0) in
  if bool_decide (id ∈ m_childrenRequested a)
  then set_m_childrenRequested (m_childrenRequested a1 ∖ {[id]}) a1
  else a1.

(** The loop over the children, along the chain of siblings it
    starts at: [forced] tells that the head of the chain is visited
    whether it is whitespace or not, as the first child of a nested
    document is. *)
Fixpoint forChain {A : Type} (body : DomNode -> M A) (forced : bool)
    (chain : list DomNode) : M (list A) :=
  match chain with
  | [] => ret []
  | c :: rest =>
      if negb forced && isWhitespace c then forChain body false rest
      else (x <- body c ;; xs <- forChain body false rest ;; ret (x :: xs))
  end.

(** The nodes [forChain] visits. *)
Fixpoint visitedOf (forced : bool) (chain : list DomNode) : list DomNode :=
  match chain with
  | [] => []
  | c :: rest =>
      if negb forced && isWhitespace c then visitedOf false rest
      else c :: visitedOf false rest
  end.

(** The chain [forInnerChildren] walks, with its [forced] flag. *)
Definition innerChain (node : DomNode) : bool * list DomNode :=
  match frameDocument node with
  | Some doc => (true, childNodes doc)
  | None => (false, childNodes node)
  end.

(** The nodes of the tree below [P] have the same identifiers, with
    the same disclosure flags, in [s] as in [a]. *)
Definition agreeBelow (M : MapRef) (P : DomNode) (a s : Agent) : Prop :=
  forall y, y ∈ nodesOf P ->
    idOf s M (ptr y) = idOf a M (ptr y)
    /\ (idOf a M (ptr y) ≠ 0 ->
        (idOf a M (ptr y) ∈ m_childrenRequested s
         <-> idOf a M (ptr y) ∈ m_childrenRequested a)).

(** Outside the addresses [Ep] and the identifiers [Ei], the state
    [a'] has the entries of [a]. *)
Definition untouched (Ep : Node -> Prop) (Ei : Z -> Prop) (M : MapRef)
    (a a' : Agent) : Prop :=
  (forall p, ~ Ep p -> idOf a' M p = idOf a M p)
  /\ (forall i, ~ Ei i ->
        m_idToNode a' !! i = m_idToNode a !! i
        /\ (i ∈ m_childrenRequested a' <-> i ∈ m_childrenRequested a)).

(** The addresses and the identifiers of the nodes [unbind] reaches. *)
Definition reachedAddress (a : Agent) (M : MapRef) (P : DomNode) (p : Node) : Prop :=
  exists x, unbindReaches a M P x /\ ptr x = p.

Definition reachedId (a : Agent) (M : MapRef) (P : DomNode) (i : Z) : Prop :=
  exists x, unbindReaches a M P x /\ idOf a M (ptr x) = i /\ i ≠ 0.

(** The node [x] has no identifier in [a'], and the identifier it had
    in [a] is neither resolved nor flagged as disclosed in [a']. *)
Definition removedFrom (M : MapRef) (a a' : Agent) (x : DomNode) : Prop :=
  idOf a' M (ptr x) = 0
  /\ (idOf a M (ptr x) ≠ 0 ->
      m_idToNode a' !! idOf a M (ptr x) = None
      /\ idOf a M (ptr x) ∉ m_childrenRequested a').

(** [distinctIds], over a list of nodes. *)
Definition distinctIdsIn (a : Agent) (M : MapRef) (L : list DomNode) : Prop :=
  forall x y, x ∈ L -> y ∈ L ->
    idOf a M (ptr x) ≠ 0 -> idOf a M (ptr x) = idOf a M (ptr y) -> ptr x = ptr y.

(** The example after the children of [html] and of [div] have been
    asked for. *)
Definition exDisclosed : Agent :=
  stateAfter (pushChildNodesToFrontend exDom 2 ;; pushChildNodesToFrontend exDom 3)
    exPushed.

(** A decision procedure for [distinctIdsIn]. *)
(** [distinctIds], over a list of nodes. *)
Definition distinctIdsIn_check (a : Agent) (M : MapRef) (L : list DomNode) : bool :=
  forallb (fun x => forallb (fun y =>
    (idOf a M (ptr x) =? 0) || negb (idOf a M (ptr x) =? idOf a M (ptr y))
    || bool_decide (ptr x = ptr y)) L) L.

(** The nodes of the tree of [node] are apart from [other]: none has
    its address, and none has its identifier in [M]. *)
Definition apartFrom (a : Agent) (M : MapRef) (node other : DomNode) : Prop :=
  forall x, x ∈ nodesOf node ->
    ptr x ≠ ptr other
    /\ (idOf a M (ptr other) ≠ 0 -> idOf a M (ptr x) ≠ idOf a M (ptr other)).

(** The nodes of a collector that are not among the results [seen],
    each once, in the order of the collector. *)
Fixpoint unseen (seen : list Node) (resultCollector : list DomNode) : list DomNode :=
  match resultCollector with
  | [] => []
  | node :: rest =>
      if bool_decide (ptr node ∈ seen) then unseen seen rest
      else node :: unseen (seen ++ [ptr node]) rest
  end.

(** Reporting every node of a list: the node joins the results and
    its path is pushed. *)
Fixpoint reportEach (d : Dom) (nodes : list DomNode) : M (list Z) :=
  match nodes with
  | [] => ret []
  | node :: rest =>
      modify (fun a => set_m_searchResults (m_searchResults a ++ [ptr node]) a) ;;
      id <- pushNodePathToFrontend d node ;;
      ids <- reportEach d rest ;;
      ret (id :: ids)
  end.

(** No search is going on. *)
Definition idle (a : Agent) : Prop :=
  m_matchJobsTimer a = None /\ m_pendingMatchJobs a = [] /\ m_searchResults a = [].

(** The nodes a description of [node] may describe: [node], and the
    children in the traversal view of every node it describes. *)
Inductive shown : DomNode -> DomNode -> Prop :=
| shown_self node : shown node node
| shown_below node c x : c ∈ innerChildren node -> shown c x -> shown node x.





(** Every identifier a map holds resolves to its node, and
    [m_idToNodesMap] names the map. *)
Definition resolves (a : Agent) : Prop :=
  forall M p, idOf a M p ≠ 0 ->
    m_idToNode a !! idOf a M p = Some p /\ m_idToNodesMap a !! idOf a M p = Some M.

(** Every entry of [m_idToNode] is the identifier of its node in
    some map. *)
Definition noOrphans (a : Agent) : Prop :=
  forall i p, m_idToNode a !! i = Some p -> i ≠ 0 /\ exists M, idOf a M p = i.

(** The identifiers removed from the maps between [a] and [s] are
    removed from [m_idToNode] too. *)
Definition removedTogether (a s : Agent) : Prop :=
  forall M p, idOf a M p ≠ 0 -> idOf s M p = 0 -> m_idToNode s !! idOf a M p = None.

(** The calls of [bind] in a session from [a] are on maps that exist
    when they are made. *)
Fixpoint bindsInLiveMaps (steps : list IdentityStep) (a : Agent) : Prop :=
  match steps with
  | [] => True
  | s :: steps' =>
      match s with
      | StepBind _ nodesMap => is_Some (nodesMapAt a nodesMap)
      | _ => True
      end
      /\ bindsInLiveMaps steps' (stateAfter (runStep s) a)
  end.

(** The answer of the DOM to the query of a job: what [match] hands
    to the collector. *)
Definition answerOf (q : DocumentQueries) (d : Dom) (job : MatchJob) : list DomNode :=
  if isEmpty (m_query job) then []
  else
    match job_class job with
    | MatchExactIdJob =>
        match getElementById q d (m_document job) (m_query job) with
        | Some element => [element]
        | None => []
        end
    | MatchExactClassNamesJob => getElementsByClassName q d (m_document job) (m_query job)
    | MatchExactTagNamesJob => getElementsByName q d (m_document job) (m_query job)
    | MatchQuerySelectorAllJob =>
        if fst (querySelectorAll q d (m_document job) (m_query job)) =? 0
        then snd (querySelectorAll q d (m_document job) (m_query job))
        else []
    | MatchXPathJob | MatchPlainTextJob =>
        default [] (evaluate q d (m_document job) (m_query job))
    end.

(** [n] timer events in a row. *)
Fixpoint timerEvents (q : DocumentQueries) (d : Dom) (n : nat) : M unit :=
  match n with
  | O => ret tt
  | S n' => onMatchJobsTimer q d ;; timerEvents q d n'
  end.

(** The calls of [addNodesToSearchResult] in a log of the front end. *)
Definition isSearchReport (c : Frontend.Call) : bool :=
  match c with
  | Frontend.addNodesToSearchResult _ => true
  | _ => false
  end.

Fixpoint searchReports (log : list Frontend.Call) : nat :=
  match log with
  | [] => 0
  | c :: log' => (if isSearchReport c then 1 else 0) + searchReports log'
  end.


(** *** Paths *)

(** The services of the string class that [nodeForPath] uses:
    [split(",", false, tokens)], and [toUInt(&success)], which is
    [None] when it reports no success. *)
Record PathStrings : Type := mkPathStrings {
  String_split : string -> list string;
  String_toUInt : string -> option N
}.

(** [child = innerFirstChild(node); for (j = 0; child && j <
    childNumber; ++j) child = innerNextSibling(child);]: the child at
    [childNumber] in the traversal view. *)
Definition innerChildAt (childNumber : N) (node : DomNode) : M (option DomNode) :=
  children <- forInnerChildren ret node ;;
  ret (children !! N.to_nat childNumber).

(** The loop of [nodeForPath]: [for (i = 0; i < pathTokens.size() - 1;
    i += 2)], on the tokens from index [i] on. *)
Fixpoint nodeForPath_loop (S : PathStrings) (node : DomNode) (pathTokens : list string)
    : M (option DomNode) :=
  match pathTokens with
  | number :: childName :: rest =>
      match String_toUInt S number with
      | None => ret None
      | Some childNumber =>
          count <- innerChildNodeCount node ;;
          if count <=? Z.of_N childNumber then ret None
          else
            child <- innerChildAt childNumber node ;;
            match child with
            | Some child =>
                if negb (String.eqb (nodeName (info child)) childName) then ret None
                else nodeForPath_loop S child rest
            | None => ret None
            end
      end
  | _ => ret (Some node)
  end.

(** [InspectorDOMAgent::nodeForPath]. *)
Definition nodeForPath (S : PathStrings) (d : Dom) (path : string)
    : M (option DomNode) :=
  node <- mainFrameDocument ;;
  match node ≫= deref d with
  | None => ret None
  | Some node =>
      let pathTokens := String_split S path in
      if Z.of_nat (length pathTokens) =? 0 then ret None
      else nodeForPath_loop S node pathTokens
  end.

(** [InspectorDOMAgent::pushNodeByPathToFrontend], with a front end. *)
Definition pushNodeByPathToFrontend (S : PathStrings) (d : Dom) (callId : Z)
    (path : string) : M unit :=
  node <- nodeForPath S d path ;;
  id <- match node with
        | Some node => pushNodePathToFrontend d node
        | None => ret 0
        end ;;
  frontend (Frontend.didPushNodeByPathToFrontend callId id).

(** The tokens lead from [node] to [n]: each pair of a number and a
    name names the child at that number in the traversal view, which
    has that name. *)
Inductive pathLeads (S : PathStrings) : DomNode -> list string -> DomNode -> Prop :=
| leads_here node pathTokens :
    (length pathTokens < 2)%nat -> pathLeads S node pathTokens node
| leads_down node number childName rest childNumber child n :
    String_toUInt S number = Some childNumber ->
    innerChildren node !! N.to_nat childNumber = Some child ->
    nodeName (info child) = childName ->
    pathLeads S child rest n ->
    pathLeads S node (number :: childName :: rest) n.

(** What a walk along the traversal view may change: the documents
    listened to. *)
Definition onlyListening (a s : Agent) : Prop :=
  set_m_documents (m_documents a) s = a
  /\ m_documents a `prefix_of` m_documents s.

(** The calls sent since [a] hold no answer to a push by path. *)
Definition pushes_quietly (a s : Agent) : Prop :=
  exists sent,
    frontend_calls s = frontend_calls a ++ sent
    /\ Forall (fun c => forall callId id,
                 c <> Frontend.didPushNodeByPathToFrontend callId id) sent.

(** *** Styles *)

(** The members of a [CSSStyleDeclaration] that the agent reads:
    [item(i)] for [i < length()] as the list [style_items], and the
    getters by property name. *)
Record CSSStyleDeclaration : Type := mkCSSStyleDeclaration {
  style_items : list string;
  getPropertyValue : string -> string;
  getPropertyPriority : string -> string;
  getPropertyShorthand : string -> string;
  isPropertyImplicit : string -> bool
}.

(** The loop of [longhandProperties], on the items from index [i] on. *)
Fixpoint longhandProperties_loop (style : CSSStyleDeclaration)
    (shorthandProperty : string) (items : list string)
    (properties : list string) (foundProperties : gset string) : list string :=
  match items with
  | [] => properties
  | individualProperty :: items =>
      if bool_decide (individualProperty ∈ foundProperties)
         || negb (String.eqb (getPropertyShorthand style individualProperty)
                             shorthandProperty)
      then longhandProperties_loop style shorthandProperty items
             properties foundProperties
      else longhandProperties_loop style shorthandProperty items
             (properties ++ [individualProperty])
             ({[individualProperty]} ∪ foundProperties)
  end.

(** [InspectorDOMAgent::longhandProperties]. *)
Definition longhandProperties (style : CSSStyleDeclaration)
    (shorthandProperty : string) : list string :=
  longhandProperties_loop style shorthandProperty (style_items style) [] ∅.

(** The loop of [shorthandValue]. *)
Fixpoint shorthandValue_loop (style : CSSStyleDeclaration)
    (shorthandProperty : string) (items : list string) (value : string) : string :=
  match items with
  | [] => value
  | individualProperty :: items =>
      if negb (String.eqb (getPropertyShorthand style individualProperty)
                          shorthandProperty)
      then shorthandValue_loop style shorthandProperty items value
      else if isPropertyImplicit style individualProperty
      then shorthandValue_loop style shorthandProperty items value
      else
        let individualValue := getPropertyValue style individualProperty in
        if String.eqb individualValue "initial"
        then shorthandValue_loop style shorthandProperty items value
        else
          let value := if negb (Z.of_nat (String.length value) =? 0)
                       then (value ++ " ")%string else value in
          shorthandValue_loop style shorthandProperty items
            (value ++ individualValue)%string
  end.

(** [InspectorDOMAgent::shorthandValue]. *)
Definition shorthandValue (style : CSSStyleDeclaration)
    (shorthandProperty : string) : string :=
  let value := getPropertyValue style shorthandProperty in
  if isEmpty value
  then shorthandValue_loop style shorthandProperty (style_items style) value
  else value.

(** The loop of [shorthandPriority], which ends at its [break]. *)
Fixpoint shorthandPriority_loop (style : CSSStyleDeclaration)
    (shorthandProperty : string) (items : list string) (priority : string) : string :=
  match items with
  | [] => priority
  | individualProperty :: items =>
      if negb (String.eqb (getPropertyShorthand style individualProperty)
                          shorthandProperty)
      then shorthandPriority_loop style shorthandProperty items priority
      else getPropertyPriority style individualProperty
  end.

(** [InspectorDOMAgent::shorthandPriority]. *)
Definition shorthandPriority (style : CSSStyleDeclaration)
    (shorthandProperty : string) : string :=
  let priority := getPropertyPriority style shorthandProperty in
  if isEmpty priority
  then shorthandPriority_loop style shorthandProperty (style_items style) priority
  else priority.

(** An entry of the [properties] array of a style. *)
Record StyleProperty : Type := mkStyleProperty {
  p_name : string;
  p_priority : string;
  p_implicit : bool;
  p_shorthand : string;
  p_value : string
}.

(** The loop of [populateObjectWithStyleProperties]. *)
Fixpoint populate_loop (style : CSSStyleDeclaration) (items : list string)
    (properties : list StyleProperty) (shorthandValues : gmap string string)
    (foundShorthands : gset string) : list StyleProperty * gmap string string :=
  match items with
  | [] => (properties, shorthandValues)
  | name :: items =>
      let shorthand := getPropertyShorthand style name in
      let property :=
        mkStyleProperty name (getPropertyPriority style name)
          (isPropertyImplicit style name) shorthand (getPropertyValue style name) in
      if negb (isEmpty shorthand) && negb (bool_decide (shorthand ∈ foundShorthands))
      then populate_loop style items (properties ++ [property])
             (<[shorthand := shorthandValue style shorthand]> shorthandValues)
             ({[shorthand]} ∪ foundShorthands)
      else populate_loop style items (properties ++ [property])
             shorthandValues foundShorthands
  end.

(** [InspectorDOMAgent::populateObjectWithStyleProperties]: the values
    it sets at the keys [properties] and [shorthandValues]. *)
Definition populateObjectWithStyleProperties (style : CSSStyleDeclaration)
    : list StyleProperty * gmap string string :=
  populate_loop style (style_items style) [] ∅ ∅.

(** The items of a style that belong to a shorthand. *)
Definition belongsTo (style : CSSStyleDeclaration) (shorthandProperty : string)
    (individualProperty : string) : Prop :=
  getPropertyShorthand style individualProperty = shorthandProperty.

(** The items whose value enters the computed value of a shorthand. *)
Definition contributes (style : CSSStyleDeclaration) (shorthandProperty : string)
    (individualProperty : string) : bool :=
  String.eqb (getPropertyShorthand style individualProperty) shorthandProperty
  && negb (isPropertyImplicit style individualProperty)
  && negb (String.eqb (getPropertyValue style individualProperty) "initial").

(** The values from the first one that is not empty. *)
Fixpoint skipEmpty (values : list string) : list string :=
  match values with
  | [] => []
  | value :: rest => if isEmpty value then skipEmpty rest else values
  end.

(** What the loop adds to a value that is not empty. *)
Fixpoint spaced (values : list string) : string :=
  match values with
  | [] => ""
  | value :: rest => (" " ++ value ++ spaced rest)%string
  end.

(** The scan of [locateIn] over the children [after] of [n], which
    follow the children [before] (nearest first). *)
Definition scanChildren (p : Node) (n : DomNode) (up : list Step)
    : list DomNode -> list DomNode -> option Loc :=
  fix scan (before after : list DomNode) : option Loc :=
    match after with
    | [] => None
    | c :: after' =>
        match locateIn p (ChildOf n before after' :: up) c with
        | Some l => Some l
        | None => scan (c :: before) after'
        end
    end.

(** The node [x] lies in the tree of [n] and [upx] are the steps from
    it up to the root, where [up] are those of [n]. *)
Inductive locatedIn : DomNode -> list Step -> DomNode -> list Step -> Prop :=
| located_here n up : locatedIn n up n up
| located_child n up before c after x upx :
    childNodes n = rev before ++ c :: after ->
    locatedIn c (ChildOf n before after :: up) x upx ->
    locatedIn n up x upx
| located_document n up doc x upx :
    contentDocument n = Some doc ->
    locatedIn doc (ContentOf n :: up) x upx ->
    locatedIn n up x upx.

(** No two nodes of the trees of [d] share an address, and [node] is
    the node found at its address. *)
Definition inDom (d : Dom) (node : DomNode) : Prop :=
  NoDup (ptr <$> (d ≫= nodesOf)) /\ deref d (ptr node) = Some node.

(** The identifier a description carries is the one the node is bound
    to in [M], unless it is the absent identifier. *)
Definition boundAsTold (M : MapRef) (c : DomNode) (v : InspectorObject) (s : Agent)
    : Prop :=
  o_id v ≠ 0 -> idOf s M (ptr c) = o_id v.

(** Reading an attribute array back: names at the even places, values
    at the odd ones. *)
Fixpoint attributePairs (attributesValue : list string) : list (string * string) :=
  match attributesValue with
  | name :: value :: rest => (name, value) :: attributePairs rest
  | _ => []
  end.

(** * Properties *)

(** ** The monad and the integers *)

Ltac unfoldM :=
  unfold bindM, gets, modify, ret, stateAfter, resultOf in *.

Lemma stateAfter_bind {A B} (c : M A) (k : A -> M B) a :
  stateAfter (bindM c k) a = stateAfter (k (resultOf c a)) (stateAfter c a).
Proof. unfoldM. by destruct (c a). Qed.

Lemma resultOf_bind {A B} (c : M A) (k : A -> M B) a :
  resultOf (bindM c k) a = resultOf (k (resultOf c a)) (stateAfter c a).
Proof. unfoldM. by destruct (c a). Qed.

Lemma run_eq {A} (c : M A) a : c a = (resultOf c a, stateAfter c a).
Proof. unfoldM. by destruct (c a). Qed.

Lemma long_wrap_small z : LONG_MIN <= z <= LONG_MAX -> long_wrap z = z.
Proof.
  unfold long_wrap, LONG_MIN, LONG_MAX. intros H.
  rewrite Z.mod_small by lia. lia.
Qed.

(** ** Induction on the tree *)

Lemma DomNode_tree_ind (P : DomNode -> Prop) :
  (forall p i c l,
      (forall doc, c = Some doc -> P doc) -> Forall P l -> P (mkDomNode p i c l)) ->
  forall n, P n.
Proof.
  intros step. fix IH 1. intros [p i c l]. apply step.
  - destruct c as [doc0|]; intros doc Hdoc; [|discriminate].
    assert (P doc0) as Hdoc0 by apply IH.
    injection Hdoc as <-. exact Hdoc0.
  - induction l as [|x l IHl]; constructor; [apply IH | apply IHl].
Qed.

(** ** Invariants of the loops *)

Section Invariant.
Context (I : Agent -> Prop).

Lemma keeps_ret {A} (x : A) : keeps I (ret x).
Proof. by intros a. Qed.

Lemma keeps_gets {A} (f : Agent -> A) : keeps I (gets f).
Proof. by intros a. Qed.

Lemma keeps_bind {A B} (c : M A) (k : A -> M B) :
  keeps I c -> (forall x, keeps I (k x)) -> keeps I (bindM c k).
Proof. intros Hc Hk a Ha. rewrite stateAfter_bind. by apply Hk, Hc. Qed.

Lemma keeps_forEach {A} (body : A -> M unit) l :
  (forall x, x ∈ l -> keeps I (body x)) -> keeps I (forEach body l).
Proof.
  induction l as [|x l IH]; intros H; simpl; [apply keeps_ret|].
  apply keeps_bind; [apply H; by left|]. intros _. apply IH.
  intros y Hy. apply H. by right.
Qed.

Lemma keeps_onFirstVisible {A} (body : DomNode -> M A) chain :
  (forall c, c ∈ chain -> visible c = true -> keeps I (body c)) ->
  keeps I (onFirstVisible body chain).
Proof.
  induction chain as [|c chain IH]; intros H; simpl; [apply keeps_ret|].
  destruct (isWhitespace c) eqn:Hc.
  - apply IH. intros c' Hc'. apply H. by right.
  - apply keeps_bind; [|intros; apply keeps_ret].
    apply H; [by left|]. unfold visible. by rewrite Hc.
Qed.

Lemma keeps_forInnerSiblings {A} (body : DomNode -> M A) chain :
  (forall c, c ∈ chain -> visible c = true -> keeps I (body c)) ->
  keeps I (forInnerSiblings body chain).
Proof.
  induction chain as [|c chain IH]; intros H; simpl; [apply keeps_ret|].
  destruct (isWhitespace c) eqn:Hc.
  - apply IH. intros c' Hc'. apply H. by right.
  - apply keeps_bind.
    + apply H; [by left|]. unfold visible. by rewrite Hc.
    + intros x. apply keeps_bind; [|intros; apply keeps_ret].
      apply IH. intros c' Hc'. apply H. by right.
Qed.

Lemma keeps_forInnerChildren {A} (body : DomNode -> M A) node :
  (forall doc, keeps I (startListening doc)) ->
  (forall c, c ∈ innerChildren node -> keeps I (body c)) ->
  keeps I (forInnerChildren body node).
Proof.
  intros Hl H.
  unfold forInnerChildren, innerChildren, frameDocument, ifFrameDocument in *.
  destruct (contentDocument node) as [doc|].
  - destruct (isFrameOwnerElement (info node)).
    + apply keeps_bind; [apply Hl|]. intros _.
      destruct (childNodes doc) as [|c chain]; [apply keeps_ret|].
      apply keeps_bind; [apply H; by left|]. intros x.
      apply keeps_bind; [|intros; apply keeps_ret].
      apply keeps_forInnerSiblings. intros c' Hc' Hv. apply H. right.
      by apply list_elem_of_filter.
    + apply keeps_forInnerSiblings. intros c' Hc' Hv. apply H.
      by apply list_elem_of_filter.
  - apply keeps_forInnerSiblings. intros c' Hc' Hv. apply H.
    by apply list_elem_of_filter.
Qed.

Lemma keeps_withInnerFirstChild {A} (body : DomNode -> M A) node :
  (forall doc, keeps I (startListening doc)) ->
  (forall c, c ∈ innerChildren node -> keeps I (body c)) ->
  keeps I (withInnerFirstChild body node).
Proof.
  intros Hl H.
  unfold withInnerFirstChild, innerChildren, frameDocument, ifFrameDocument in *.
  destruct (contentDocument node) as [doc|].
  - destruct (isFrameOwnerElement (info node)).
    + apply keeps_bind; [apply Hl|]. intros _.
      destruct (childNodes doc) as [|c chain]; [apply keeps_ret|].
      apply keeps_bind; [apply H; by left|]. intros x. apply keeps_ret.
    + apply keeps_onFirstVisible. intros c' Hc' Hv. apply H.
      by apply list_elem_of_filter.
  - apply keeps_onFirstVisible. intros c' Hc' Hv. apply H.
    by apply list_elem_of_filter.
Qed.

Lemma keeps_innerChildNodeCount node :
  (forall doc, keeps I (startListening doc)) -> keeps I (innerChildNodeCount node).
Proof.
  intros Hl. unfold innerChildNodeCount.
  apply keeps_bind; [|intros; apply keeps_ret].
  apply keeps_forInnerChildren; [done|]. intros. apply keeps_ret.
Qed.
End Invariant.

(** ** Reading the identity maps *)

Lemma idOf_updateNodesMap a M f M' node' :
  idOf (updateNodesMap M f a) M' node'
  = if decide (M = M')
    then match nodesMapAt a M with
         | Some m => default 0 (f m !! node')
         | None => 0
         end
    else idOf a M' node'.
Proof.
  destruct (decide (M = M')) as [<-|Hne].
  - unfold idOf, updateNodesMap, nodesMapAt. destruct M as [|i]; simpl; [done|].
    rewrite list_lookup_alter_eq.
    by destruct (m_danglingNodeToIdMaps a !! i).
  - unfold idOf, updateNodesMap, nodesMapAt.
    destruct M as [|i], M' as [|j]; simpl; try done.
    rewrite list_lookup_alter_ne; [done | congruence].
Qed.

Lemma idOf_insert a M node id M' node' :
  is_Some (nodesMapAt a M) ->
  idOf (updateNodesMap M (<[node := id]>) a) M' node'
  = if decide (M = M' /\ node = node') then id else idOf a M' node'.
Proof.
  intros [m Hm]. rewrite idOf_updateNodesMap.
  destruct (decide (M = M')) as [->|Hne].
  - rewrite Hm. unfold idOf.
    destruct (decide (node = node')) as [->|Hn].
    + rewrite lookup_insert_eq. by rewrite decide_True.
    + rewrite lookup_insert_ne; [|done]. rewrite decide_False; [|by intros [_ ?]].
      by rewrite Hm.
  - rewrite decide_False; [done | by intros [? _]].
Qed.

Lemma idOf_delete a M node M' node' :
  idOf (updateNodesMap M (delete node) a) M' node'
  = if decide (M = M' /\ node = node') then 0 else idOf a M' node'.
Proof.
  rewrite idOf_updateNodesMap.
  destruct (decide (M = M')) as [->|Hne].
  - unfold idOf. destruct (nodesMapAt a M') as [m|] eqn:Hm.
    + destruct (decide (node = node')) as [->|Hn].
      * rewrite lookup_delete_eq. by rewrite decide_True.
      * rewrite lookup_delete_ne; [|done]. by rewrite decide_False; [|by intros [_ ?]].
    + by destruct (decide _).
  - by rewrite decide_False; [|by intros [? _]].
Qed.

Lemma bind_bound node M a :
  idOf a M node ≠ 0 -> bind node M a = (idOf a M node, a).
Proof.
  intros H. unfold bind. unfoldM. simpl.
  by destruct (Z.eqb_spec (idOf a M node) 0).
Qed.

(** ** The nodes of a tree *)

Lemma nodesOf_eq n : nodesOf n = n :: descendants n.
Proof. by destruct n. Qed.

Lemma nodesOf_self n : n ∈ nodesOf n.
Proof. rewrite nodesOf_eq. by left. Qed.

Lemma descendants_child n c : c ∈ childNodes n -> nodesOf c ⊆ descendants n.
Proof.
  intros Hc x Hx. unfold descendants. apply elem_of_app. left.
  apply list_elem_of_bind. eauto.
Qed.

Lemma descendants_doc n doc :
  contentDocument n = Some doc -> nodesOf doc ⊆ descendants n.
Proof.
  intros Hc x Hx. unfold descendants. apply elem_of_app. right. by rewrite Hc.
Qed.

Lemma DomNode_strong_ind (P : DomNode -> Prop) :
  (forall n, (forall x, x ∈ descendants n -> P x) -> P n) -> forall n, P n.
Proof.
  intros step n. cut (forall x, x ∈ nodesOf n -> P x).
  { intros H. apply H, nodesOf_self. }
  induction n as [p i c l IHc IHl] using DomNode_tree_ind.
  assert (forall x, x ∈ descendants (mkDomNode p i c l) -> P x) as Hd.
  { intros x. unfold descendants. simpl. rewrite elem_of_app, list_elem_of_bind.
    intros [(y & Hx & Hy)|Hx].
    - rewrite Forall_forall in IHl. by apply (IHl y).
    - destruct c as [doc|]; [by apply (IHc doc)|]. by apply elem_of_nil in Hx. }
  intros x. rewrite nodesOf_eq, elem_of_cons.
  intros [->|Hx]; [by apply step | by apply Hd].
Qed.

Lemma nodesOf_trans n c x : c ∈ nodesOf n -> x ∈ nodesOf c -> x ∈ nodesOf n.
Proof.
  revert c x. induction n as [n IH] using DomNode_strong_ind. intros c x.
  rewrite (nodesOf_eq n), !elem_of_cons. intros [->|Hc] Hx.
  - rewrite nodesOf_eq in Hx. by apply elem_of_cons in Hx.
  - right. revert Hc. unfold descendants. rewrite !elem_of_app, !list_elem_of_bind.
    intros [(y & Hc & Hy)|Hc].
    + left. exists y. split; [|done]. apply (IH y) with c; [|done..].
      by apply (descendants_child n y), nodesOf_self.
    + right.
      destruct (contentDocument n) as [doc|] eqn:Hdoc; [|by apply elem_of_nil in Hc].
      apply (IH doc) with c; [|done..].
      by apply (descendants_doc n doc), nodesOf_self.
Qed.

Lemma innerChildren_descendants n c : c ∈ innerChildren n -> c ∈ descendants n.
Proof.
  unfold innerChildren, frameDocument.
  destruct (contentDocument n) as [doc|] eqn:Hdoc.
  - destruct (isFrameOwnerElement (info n)).
    + intros Hc. apply (descendants_doc n doc Hdoc).
      rewrite nodesOf_eq. right.
      destruct (childNodes doc) as [|c0 chain] eqn:Hch; [by apply elem_of_nil in Hc|].
      apply (descendants_child doc c); [|apply nodesOf_self].
      rewrite Hch. apply elem_of_cons in Hc as [->|Hc]; [by left|right].
      by apply list_elem_of_filter in Hc as [_ ?].
    + intros [_ ?]%list_elem_of_filter.
      by apply (descendants_child n c), nodesOf_self.
  - intros [_ ?]%list_elem_of_filter.
    by apply (descendants_child n c), nodesOf_self.
Qed.

(** ** What [unbind] may change *)

Lemma unbind_unfold node nodesMap :
  unbind node nodesMap =
  ((if isFrameOwnerElement (info node)
    then
      stopListening (option_map ptr (contentDocument node)) ;;
      cssStore (CSSStore.removeDocument (option_map ptr (contentDocument node)))
    else ret tt) ;;
   id <- NodeToIdMap_get nodesMap (ptr node) ;;
   if id =? 0 then ret tt
   else
     modify (fun a => set_m_idToNode (delete id (m_idToNode a)) a) ;;
     NodeToIdMap_remove nodesMap (ptr node) ;;
     childrenRequested <- gets (fun a => bool_decide (id ∈ m_childrenRequested a)) ;;
     if childrenRequested
     then
       modify (fun a => set_m_childrenRequested (m_childrenRequested a ∖ {[id]}) a) ;;
       _ <- forInnerChildren (fun child => unbind child nodesMap) node ;;
       ret tt
     else ret tt).
Proof. by destruct node. Qed.

Lemma unbindRel_refl M a : unbindRel M a a.
Proof. split; auto. Qed.

Lemma unbindRel_trans M a b c :
  unbindRel M a b -> unbindRel M b c -> unbindRel M a c.
Proof.
  intros Hab Hbc. split.
  1-7: etrans; [apply Hbc | apply Hab].
  - intros M0. rewrite (ur_valid _ _ _ Hbc). apply Hab.
  - intros M0 p. destruct (ur_idOf _ _ _ Hbc M0 p) as [->|?]; [apply Hab | by right].
  - intros i. destruct (ur_idToNode _ _ _ Hbc i) as [->|?]; [apply Hab | by right].
  - etrans; [apply Hbc | apply Hab].
Qed.

Lemma keeps_step (R : Agent -> Agent -> Prop) a0 {A} (c : M A) :
  (forall a b c, R a b -> R b c -> R a c) ->
  (forall a, R a (stateAfter c a)) -> keeps (R a0) c.
Proof. intros Htrans H a Ha. eapply Htrans; [exact Ha | apply H]. Qed.

Lemma nodesMapAt_updateNodesMap a M f M' :
  is_Some (nodesMapAt (updateNodesMap M f a) M') <-> is_Some (nodesMapAt a M').
Proof.
  unfold nodesMapAt, updateNodesMap. destruct M as [|i], M' as [|j]; simpl; try done.
  rewrite !lookup_lt_is_Some. by rewrite length_alter.
Qed.

Lemma unbindRel_startListening M doc a :
  unbindRel M a (stateAfter (startListening doc) a).
Proof.
  unfold startListening. unfoldM. simpl.
  destruct (bool_decide _); simpl; split; auto.
Qed.

Lemma unbindRel_stopListening M doc a :
  unbindRel M a (stateAfter (stopListening doc) a).
Proof.
  unfold stopListening. destruct doc as [doc|]; [|apply unbindRel_refl].
  unfoldM. simpl. destruct (bool_decide _); simpl; split; auto.
Qed.

Lemma unbindRel_cssStore M c a : unbindRel M a (stateAfter (cssStore c) a).
Proof. unfold cssStore. unfoldM. simpl. split; auto. Qed.

Lemma unbindRel_deleteId M id a :
  unbindRel M a
    (stateAfter (modify (fun a => set_m_idToNode (delete id (m_idToNode a)) a)) a).
Proof.
  unfoldM. simpl. split; auto. intros i. simpl.
  destruct (decide (i = id)) as [->|];
    [right; apply lookup_delete_eq | left; by apply lookup_delete_ne].
Qed.

Lemma unbindRel_removeNode M node a :
  unbindRel M a (stateAfter (NodeToIdMap_remove M node) a).
Proof.
  unfold NodeToIdMap_remove. unfoldM. simpl. split.
  1-7: by destruct M.
  - intros M0. rewrite nodesMapAt_updateNodesMap. by destruct M0.
  - intros M0 p. rewrite idOf_delete. destruct (decide _) as [[-> ->]|]; [by right|].
    by left.
  - intros i. left. by destruct M.
  - by destruct M.
Qed.

Lemma unbindRel_undisclose M id a :
  unbindRel M a
    (stateAfter (modify (fun a =>
       set_m_childrenRequested (m_childrenRequested a ∖ {[id]}) a)) a).
Proof.
  unfoldM. simpl. split; auto. simpl. apply subseteq_difference_l. done.
Qed.

Lemma keeps_unbindRel_unbind node M a0 : keeps (unbindRel M a0) (unbind node M).
Proof.
  induction node as [node IH] using DomNode_strong_ind.
  rewrite unbind_unfold.
  pose proof (unbindRel_trans M) as Htrans.
  apply keeps_bind.
  { destruct (isFrameOwnerElement (info node)); [|apply keeps_ret].
    apply keeps_bind; [|intros _].
    - apply keeps_step; [done|]. apply unbindRel_stopListening.
    - apply keeps_step; [done|]. apply unbindRel_cssStore. }
  intros _. apply keeps_bind; [apply keeps_gets|]. intros id.
  destruct (id =? 0); [apply keeps_ret|].
  apply keeps_bind; [apply keeps_step; [done|]; apply unbindRel_deleteId|]. intros _.
  apply keeps_bind; [apply keeps_step; [done|]; apply unbindRel_removeNode|]. intros _.
  apply keeps_bind; [apply keeps_gets|]. intros [|]; [|apply keeps_ret].
  apply keeps_bind; [apply keeps_step; [done|]; apply unbindRel_undisclose|]. intros _.
  apply keeps_bind; [|intros; apply keeps_ret].
  apply keeps_forInnerChildren.
  - intros doc. apply keeps_step; [done|]. apply unbindRel_startListening.
  - intros c Hc. by apply IH, innerChildren_descendants.
Qed.

Lemma unbindRel_unbind node M a : unbindRel M a (stateAfter (unbind node M) a).
Proof. apply keeps_unbindRel_unbind, unbindRel_refl. Qed.

(** ** [bind] and the sessions *)

Lemma bind_fresh node M a :
  idOf a M node = 0 ->
  resultOf (bind node M) a = m_lastNodeId a
  /\ m_lastNodeId (stateAfter (bind node M) a) = long_wrap (m_lastNodeId a + 1)
  /\ forall M' node',
       idOf (stateAfter (bind node M) a) M' node'
       = if decide (is_Some (nodesMapAt a M) /\ M = M' /\ node = node')
         then m_lastNodeId a else idOf a M' node'.
Proof.
  intros H. unfold bind. unfoldM. simpl. rewrite H. simpl.
  split; [done|]. split; [by destruct M|].
  intros M' node'.
  transitivity (idOf (updateNodesMap M (<[node := m_lastNodeId a]>) a) M' node').
  { by destruct M. }
  destruct (decide (is_Some (nodesMapAt a M))) as [Hv|Hv].
  - rewrite idOf_insert by done.
    destruct (decide (M = M' /\ node = node')) as [[-> ->]|Hne].
    + by rewrite decide_True.
    + rewrite decide_False; [done|]. intros (_ & ? & ?). by apply Hne.
  - rewrite decide_False; [|by intros [? _]].
    rewrite idOf_updateNodesMap. destruct (decide (M = M')) as [<-|]; [|done].
    apply eq_None_not_Some in Hv. rewrite Hv. unfold idOf. by rewrite Hv.
Qed.


Lemma idOf_newDanglingMap a M p :
  idOf (stateAfter newDanglingMap a) M p = idOf a M p.
Proof.
  unfold newDanglingMap. unfoldM. simpl. unfold idOf, nodesMapAt. simpl.
  destruct M as [|i]; [done|].
  destruct (decide (i < length (m_danglingNodeToIdMaps a))%nat) as [Hi|Hi].
  - by rewrite lookup_app_l.
  - rewrite (lookup_ge_None_2 (m_danglingNodeToIdMaps a)) by lia.
    destruct (decide (i = length (m_danglingNodeToIdMaps a))) as [->|Hne].
    + rewrite lookup_app_r by lia. by rewrite Nat.sub_diag.
    + rewrite lookup_ge_None_2; [done|]. rewrite length_app. simpl. lia.
Qed.

Lemma idOf_discardBindings a M p :
  idOf (stateAfter discardBindings a) M p = 0.
Proof.
  unfold discardBindings, releaseDanglingNodes. unfoldM. simpl.
  unfold idOf, nodesMapAt. simpl. by destruct M.
Qed.

Lemma stateAfter_runStep s a :
  stateAfter (runStep s) a
  = match s with
    | StepBind node M => stateAfter (bind node M) a
    | StepUnbind node M => stateAfter (unbind node M) a
    | StepDiscardBindings => stateAfter discardBindings a
    | StepNewDanglingMap => stateAfter newDanglingMap a
    end.
Proof.
  destruct s as [node M|node M| |]; unfold runStep; rewrite stateAfter_bind; done.
Qed.

Lemma resultOf_runStep s a :
  resultOf (runStep s) a
  = match s with
    | StepBind node M => [(node, M, resultOf (bind node M) a)]
    | _ => []
    end.
Proof.
  destruct s as [node M|node M| |]; unfold runStep; rewrite resultOf_bind; done.
Qed.

Lemma stateAfter_session_cons s steps a :
  stateAfter (session (s :: steps)) a
  = stateAfter (session steps) (stateAfter (runStep s) a).
Proof.
  change (session (s :: steps))
    with (bound <- runStep s ;; bound' <- session steps ;; ret (bound ++ bound')).
  by rewrite !stateAfter_bind.
Qed.

Lemma resultOf_session_cons s steps a :
  resultOf (session (s :: steps)) a
  = resultOf (runStep s) a ++ resultOf (session steps) (stateAfter (runStep s) a).
Proof.
  change (session (s :: steps))
    with (bound <- runStep s ;; bound' <- session steps ;; ret (bound ++ bound')).
  by rewrite !resultOf_bind.
Qed.


Lemma idInv_init : idInv 0 InspectorDOMAgent [].
Proof.
  split; simpl; try done.
  - intros M p. unfold idOf, nodesMapAt. destruct M; simpl; done.
  - intros M1 p1 M2 p2. unfold idOf, nodesMapAt. destruct M1; simpl; done.
  - intros ??? H. by apply elem_of_nil in H.
  - intros ????? H. by apply elem_of_nil in H.
  - intros ????? H. by apply elem_of_nil in H.
Qed.

(** A state whose identifiers are those of [a], or removed. *)
Lemma idInv_removal k a a' bound :
  idInv k a bound ->
  m_lastNodeId a' = m_lastNodeId a ->
  (forall M p, idOf a' M p = idOf a M p \/ idOf a' M p = 0) ->
  idInv (k + 1) a' bound.
Proof.
  intros [Hc Hr Hi Hbr Hbo Hbf] Hcnt Hids. split.
  - rewrite Hcnt. lia.
  - intros M p Hp. rewrite Hcnt. destruct (Hids M p) as [E|E]; [|done].
    rewrite E in *. by apply Hr.
  - intros M1 p1 M2 p2 H1 H12.
    destruct (Hids M1 p1) as [E1|E1]; [|done].
    destruct (Hids M2 p2) as [E2|E2]; [|congruence].
    apply Hi; congruence.
  - intros n M i Hb. rewrite Hcnt. by apply (Hbr n M).
  - intros n M i M' p' Hb Hid.
    destruct (Hids M' p') as [E|E].
    + apply (Hbo n M i); [done | congruence].
    + specialize (Hbr n M i Hb). lia.
  - done.
Qed.

Lemma idInv_step k a bound s :
  idInv k a bound -> 1 + k < LONG_MAX ->
  idInv (k + 1) (stateAfter (runStep s) a) (bound ++ resultOf (runStep s) a).
Proof.
  intros Hinv Hk. rewrite stateAfter_runStep, resultOf_runStep.
  destruct s as [node M|node M| |].
  - destruct (decide (idOf a M node = 0)) as [H0|H0].
    + destruct (bind_fresh node M a H0) as (Hid & Hcnt & Hids).
      destruct Hinv as [Hc Hr Hi Hbr Hbo Hbf].
      rewrite long_wrap_small in Hcnt by (unfold LONG_MIN, LONG_MAX in *; lia).
      rewrite Hid. set (a' := stateAfter (bind node M) a) in *.
      assert (forall M' p', idOf a' M' p' ≠ 0 ->
                idOf a' M' p' = idOf a M' p' /\ idOf a M' p' ≠ 0
                \/ idOf a' M' p' = m_lastNodeId a /\ M' = M /\ p' = node) as Hcase.
      { intros M' p'. rewrite Hids. destruct (decide _) as [(_ & -> & ->)|]; auto. }
      split.
      * lia.
      * intros M' p' Hp. destruct (Hcase M' p' Hp) as [[-> Hp']|[-> _]]; [|lia].
        specialize (Hr M' p' Hp'). lia.
      * intros M1 p1 M2 p2 H1 H12.
        assert (idOf a' M2 p2 ≠ 0) as H2 by congruence.
        destruct (Hcase M1 p1 H1) as [[E1 N1]|(E1 & -> & ->)],
                 (Hcase M2 p2 H2) as [[E2 N2]|(E2 & -> & ->)]; try done.
        -- apply Hi; congruence.
        -- specialize (Hr M1 p1 N1). lia.
        -- specialize (Hr M2 p2 N2). lia.
      * intros n M0 i. rewrite elem_of_app, list_elem_of_singleton.
        intros [Hb|Heq]; [|simplify_eq; lia]. specialize (Hbr n M0 i Hb). lia.
      * intros n M0 i M' p'. rewrite elem_of_app, list_elem_of_singleton.
        intros [Hb|Heq] Hid'.
        -- specialize (Hbr n M0 i Hb).
           destruct (Hcase M' p') as [[E N]|(E & _)]; [lia| |lia].
           apply (Hbo n M0 i); [done | congruence].
        -- injection Heq as -> -> ->.
           destruct (Hcase M' p') as [[E N]|(E & -> & ->)]; [lia| |done].
           specialize (Hr M' p' N). lia.
      * intros n1 M1 n2 M2 i. rewrite !elem_of_app, !list_elem_of_singleton.
        intros [H1|Heq1] [H2|Heq2].
        -- by apply (Hbf n1 M1 n2 M2 i).
        -- injection Heq2 as -> -> ->. specialize (Hbr _ _ _ H1). lia.
        -- injection Heq1 as -> -> ->. specialize (Hbr _ _ _ H2). lia.
        -- by simplify_eq.
    + unfold stateAfter, resultOf. rewrite bind_bound by done. simpl.
      destruct Hinv as [Hc Hr Hi Hbr Hbo Hbf]. split; try done.
      * lia.
      * intros n M0 i. rewrite elem_of_app, list_elem_of_singleton.
        intros [Hb|Heq]; [by apply (Hbr n M0) |].
        injection Heq as -> -> ->. by apply Hr.
      * intros n M0 i M' p'. rewrite elem_of_app, list_elem_of_singleton.
        intros [Hb|Heq] Hid'; [by apply (Hbo n M0 i)|].
        injection Heq as -> -> ->.
        symmetry in Hid'. destruct (Hi M node M' p' H0 Hid') as [-> ->]. done.
      * intros n1 M1 n2 M2 i. rewrite !elem_of_app, !list_elem_of_singleton.
        intros [H1|Heq1] [H2|Heq2].
        -- by apply (Hbf n1 M1 n2 M2 i).
        -- injection Heq2 as -> -> ->.
           destruct (Hbo n1 M1 _ M node H1 eq_refl) as [-> ->]. done.
        -- injection Heq1 as -> -> ->.
           destruct (Hbo n2 M2 _ M node H2 eq_refl) as [-> ->]. done.
        -- by simplify_eq.
  - rewrite app_nil_r.
    pose proof (unbindRel_unbind node M a) as Hrel.
    apply (idInv_removal k a); [done | apply Hrel |].
    intros M' p. destruct (ur_idOf _ _ _ Hrel M' p) as [?|[_ ?]]; auto.
  - rewrite app_nil_r.
    apply (idInv_removal k a); [done | done |].
    intros M' p. right. apply idOf_discardBindings.
  - rewrite app_nil_r.
    apply (idInv_removal k a); [done | done |].
    intros M' p. left. apply idOf_newDanglingMap.
Qed.

Lemma idInv_session steps : forall k a bound,
  idInv k a bound -> k + Z.of_nat (length steps) < LONG_MAX ->
  idInv (k + Z.of_nat (length steps)) (stateAfter (session steps) a)
        (bound ++ resultOf (session steps) a).
Proof.
  induction steps as [|s steps IH]; intros k a bound Hinv Hk.
  - simpl. unfold ret, stateAfter, resultOf. simpl. rewrite app_nil_r, Z.add_0_r. done.
  - rewrite stateAfter_session_cons, resultOf_session_cons, app_assoc.
    replace (k + Z.of_nat (length (s :: steps)))
      with ((k + 1) + Z.of_nat (length steps)) by (simpl length; lia).
    simpl length in Hk.
    apply IH; [|lia]. apply idInv_step; [done | lia].
Qed.

(** ** Binding is idempotent *)




(** ** Identifiers are unique and not zero *)

(** The invariant holds after every session from the constructor's
    state that is too short for the counter to overflow. *)
Lemma idInv_from_constructor (steps : list IdentityStep) :
  Z.of_nat (length steps) < LONG_MAX ->
  idInv (Z.of_nat (length steps)) (stateAfter (session steps) InspectorDOMAgent)
        (resultOf (session steps) InspectorDOMAgent).
Proof.
  intros Hlen.
  pose proof (idInv_session steps 0 InspectorDOMAgent [] idInv_init) as Hinv.
  rewrite Z.add_0_l in Hinv. by apply Hinv.
Qed.

(** C2: in a session that starts from the constructor's state and is
    short enough for the counter not to overflow, any two calls of
    [bind] for distinct (node, map) pairs return distinct identifiers,
    whichever maps the pairs live in; every identifier returned is
    positive and below the counter, which has only grown. *)
Theorem global_identifier_uniqueness (steps : list IdentityStep) :
  Z.of_nat (length steps) < LONG_MAX ->
  let bound := resultOf (session steps) InspectorDOMAgent in
  let a := stateAfter (session steps) InspectorDOMAgent in
  (forall n1 M1 i1 n2 M2 i2,
     (n1, M1, i1) ∈ bound -> (n2, M2, i2) ∈ bound ->
     (n1, M1) ≠ (n2, M2) -> i1 ≠ i2)
  /\ (forall n M i, (n, M, i) ∈ bound -> 1 <= i < m_lastNodeId a)
  /\ m_lastNodeId InspectorDOMAgent <= m_lastNodeId a.
Proof.
  intros Hlen bound a.
  destruct (idInv_from_constructor steps Hlen) as [Hc _ _ Hbr _ Hbf].
  split; [|split].
  - intros n1 M1 i1 n2 M2 i2 H1 H2 Hne ->.
    destruct (Hbf n1 M1 n2 M2 i2 H1 H2) as [-> ->]. done.
  - done.
  - change (m_lastNodeId InspectorDOMAgent) with 1. apply Hc.
Qed.

Lemma global_identifier_uniqueness_witness :
  resultOf (session [StepBind 4 DocumentMap; StepNewDanglingMap;
                     StepBind 4 (DanglingMap 0); StepBind 5 DocumentMap;
                     StepBind 4 DocumentMap]) InspectorDOMAgent
  = [(4%positive, DocumentMap, 1); (4%positive, DanglingMap 0, 2);
     (5%positive, DocumentMap, 3); (4%positive, DocumentMap, 1)]
  /\ (1 : Z) ≠ 2.
Proof.
  split; [vm_compute; reflexivity|].
  assert (Z.of_nat (length [StepBind 4 DocumentMap; StepNewDanglingMap;
                     StepBind 4 (DanglingMap 0); StepBind 5 DocumentMap;
                     StepBind 4 DocumentMap]) < LONG_MAX) as Hlen by (vm_compute; reflexivity).
  destruct (global_identifier_uniqueness _ Hlen) as (H & _ & _).
  apply (H 4%positive DocumentMap 1 4%positive (DanglingMap 0) 2).
  - vm_compute. apply list_elem_of_here.
  - vm_compute. apply list_elem_of_further, list_elem_of_here.
  - intros [=].
Defined.

(** C10: the constructor starts the counter at 1; in a session from
    that state no call of [bind] returns 0; [nodeForId(0)] answers
    null whatever [m_idToNode] holds, without reading it; and
    [inspectedNode] answers 0 for an index past the end of
    [m_inspectedNodes]. *)
Theorem zero_is_the_absent_identifier :
  m_lastNodeId InspectorDOMAgent = 1
  /\ (forall steps n M i,
        Z.of_nat (length steps) < LONG_MAX ->
        (n, M, i) ∈ resultOf (session steps) InspectorDOMAgent -> i ≠ 0)
  /\ (forall a, nodeForId 0 a = (None, a))
  /\ (forall a num,
        (N.of_nat (length (m_inspectedNodes a)) <= num)%N ->
        inspectedNode num a = (0, a)).
Proof.
  split; [done|]. split; [|split].
  - intros steps n M i Hlen Hin.
    pose proof (inv_bound_range _ _ _ (idInv_from_constructor steps Hlen) n M i Hin).
    lia.
  - done.
  - intros a num Hnum. unfold inspectedNode. unfoldM. simpl.
    destruct (N.ltb_spec num (N.of_nat (length (m_inspectedNodes a)))); [lia|done].
Qed.

(** ** [unbind] on a node that is not bound *)

Lemma filter_other_not_elem_of (p : Node) (l : list Node) :
  p ∉ l -> filter (fun x => x ≠ p) l = l.
Proof.
  induction l as [|x l IH]; [done|]. rewrite not_elem_of_cons. intros [Hx Hl].
  rewrite filter_cons_True by done. by rewrite IH.
Qed.

Lemma stopListening_spec doc a :
  stopListening doc a
  = (tt, match doc with
         | Some p => set_m_documents (filter (fun x => x ≠ p) (m_documents a)) a
         | None => a
         end).
Proof.
  destruct doc as [p|]; [|done]. unfold stopListening. unfoldM. simpl.
  destruct (bool_decide_reflect (p ∈ m_documents a)) as [Hin|Hin]; simpl; [done|].
  rewrite filter_other_not_elem_of by done. by destruct a.
Qed.

(** C8 (as amended): [unbind(n, M)] on a node without identifier in
    [M] changes nothing at all when [n] is not a frame owner element;
    when it is one, the function has by then stopped listening to the
    nested document and told the CSS store to drop it, and everything
    else (the identity maps, [m_idToNode], the disclosure set, the
    counter, the calls on the front end) is as before. *)
Theorem unbind_unbound (node : DomNode) (nodesMap : MapRef) (a : Agent) :
  idOf a nodesMap (ptr node) = 0 ->
  let a' := stateAfter (unbind node nodesMap) a in
  let doc := option_map ptr (contentDocument node) in
  (isFrameOwnerElement (info node) = false -> unbind node nodesMap a = (tt, a))
  /\ (isFrameOwnerElement (info node) = true ->
        (forall q, q ∈ m_documents a' <-> q ∈ m_documents a /\ Some q ≠ doc)
        /\ cssStore_calls a' = cssStore_calls a ++ [CSSStore.removeDocument doc])
  /\ m_documentNodeToIdMap a' = m_documentNodeToIdMap a
  /\ m_danglingNodeToIdMaps a' = m_danglingNodeToIdMaps a
  /\ m_idToNode a' = m_idToNode a
  /\ m_idToNodesMap a' = m_idToNodesMap a
  /\ m_childrenRequested a' = m_childrenRequested a
  /\ m_lastNodeId a' = m_lastNodeId a
  /\ frontend_calls a' = frontend_calls a.
Proof.
  intros Hid a' doc. subst a'. rewrite unbind_unfold. fold doc.
  destruct (isFrameOwnerElement (info node)).
  - split; [done|]. unfold cssStore, NodeToIdMap_get. unfoldM.
    rewrite stopListening_spec. simpl.
    set (a1 := match doc with Some p => _ | None => a end).
    assert (idOf (set_cssStore_calls (cssStore_calls a1 ++ [CSSStore.removeDocument doc]) a1)
              nodesMap (ptr node) = 0) as ->.
    { subst a1. destruct doc; exact Hid. }
    simpl. split.
    { intros _. split; [|by subst a1; destruct doc].
      intros q. subst a1. destruct doc as [p|]; simpl.
      - rewrite list_elem_of_filter. split; intros [? ?]; split; congruence.
      - split; [by intros ? | by intros [? _]]. }
    subst a1. destruct doc as [p|]; simpl; repeat split; done.
  - unfold NodeToIdMap_get. unfoldM. simpl. rewrite Hid. simpl.
    repeat split; done.
Qed.

Lemma unbind_unbound_witness :
  unbind exSpan DocumentMap exListening = (tt, exListening).
Proof.
  assert (idOf exListening DocumentMap (ptr exSpan) = 0) as H by reflexivity.
  destruct (unbind_unbound exSpan DocumentMap exListening H) as (Hno & _).
  apply Hno. reflexivity.
Defined.

(** C8, counterexample to the claim as stated: the frame of the
    example has no identifier, the agent listens to the main document
    and to the document in the frame, and [unbind] leaves it listening
    to the main document only. *)
Lemma unbind_unbound_frame_stops_listening :
  idOf exListening DocumentMap (ptr exFrame) = 0
  /\ m_documents exListening = [1%positive; 11%positive]
  /\ m_documents (stateAfter (unbind exFrame DocumentMap) exListening) = [1%positive].
Proof. vm_compute. repeat split. Qed.

(** ** Notifications of removal *)

Lemma forInnerSiblings_count chain a :
  forInnerSiblings (fun _ => ret tt) chain a
  = (replicate (length (filter (fun x => visible x = true) chain)) tt, a).
Proof.
  induction chain as [|c chain IH]; [done|]. simpl. unfold visible at 1.
  destruct (isWhitespace c) eqn:Hc.
  - rewrite filter_cons_False; [done | by rewrite Hc].
  - rewrite filter_cons_True by (by rewrite Hc). unfoldM. simpl. by rewrite IH.
Qed.

Lemma bindM_eq {A B} (c : M A) (k : A -> M B) a :
  bindM c k a = k (resultOf c a) (stateAfter c a).
Proof. unfoldM. by destruct (c a). Qed.

Lemma forInnerChildren_count node a :
  forInnerChildren (fun _ => ret tt) node a
  = (replicate (length (innerChildren node)) tt, listenTo node a).
Proof.
  unfold forInnerChildren, innerChildren, listenTo, frameDocument, ifFrameDocument.
  destruct (contentDocument node) as [doc|].
  - destruct (isFrameOwnerElement (info node)).
    + rewrite bindM_eq. destruct (childNodes doc) as [|c chain]; [done|].
      rewrite !bindM_eq. unfold ret, resultOf, stateAfter. simpl.
      rewrite forInnerSiblings_count. done.
    + apply forInnerSiblings_count.
  - apply forInnerSiblings_count.
Qed.

Lemma innerChildNodeCount_spec node a :
  innerChildNodeCount node a
  = (Z.of_nat (length (innerChildren node)), listenTo node a).
Proof.
  unfold innerChildNodeCount. rewrite bindM_eq.
  unfold resultOf, stateAfter. rewrite forInnerChildren_count. simpl.
  unfold ret. by rewrite length_replicate.
Qed.

Lemma set_frontend_calls_nil a :
  set_frontend_calls (frontend_calls a ++ []) a = a.
Proof. destruct a. unfold set_frontend_calls. simpl. by rewrite app_nil_r. Qed.

Lemma frontend_eq c a :
  frontend c a = (tt, set_frontend_calls (frontend_calls a ++ [c]) a).
Proof. done. Qed.

Lemma unbind_keeps_unbound node M a M' p :
  idOf a M' p = 0 -> idOf (stateAfter (unbind node M) a) M' p = 0.
Proof.
  intros H. destruct (ur_idOf _ _ _ (unbindRel_unbind node M a) M' p) as [->|[_ ?]]; done.
Qed.

Lemma unbind_unbinds node M a :
  idOf (stateAfter (unbind node M) a) M (ptr node) = 0.
Proof.
  rewrite unbind_unfold.
  set (I := fun s => idOf s M (ptr node) = 0).
  rewrite stateAfter_bind. set (a0 := stateAfter _ a).
  rewrite stateAfter_bind. unfold NodeToIdMap_get at 2. unfold gets at 2.
  unfold resultOf at 1. unfold NodeToIdMap_get at 1. unfold gets at 1.
  unfold stateAfter at 2. simpl.
  destruct (Z.eqb_spec (idOf a0 M (ptr node)) 0) as [H0|H0]; [done|].
  rewrite stateAfter_bind. rewrite stateAfter_bind.
  set (a1 := stateAfter (NodeToIdMap_remove M (ptr node)) _).
  assert (I a1) as H1.
  { subst a1 I. unfold NodeToIdMap_remove. unfoldM. simpl. rewrite idOf_delete.
    by rewrite decide_True. }
  revert H1. generalize a1. change (keeps I (
     childrenRequested <- gets (fun a => bool_decide (idOf a0 M (ptr node) ∈ m_childrenRequested a)) ;;
     if childrenRequested
     then
       modify (fun a => set_m_childrenRequested (m_childrenRequested a ∖ {[idOf a0 M (ptr node)]}) a) ;;
       _ <- forInnerChildren (fun child => unbind child M) node ;;
       ret tt
     else ret tt)).
  apply keeps_bind; [apply keeps_gets|]. intros [|]; [|apply keeps_ret].
  apply keeps_bind; [by intros s Hs|]. intros _.
  apply keeps_bind; [|intros; apply keeps_ret].
  apply keeps_forInnerChildren.
  - intros doc s Hs. unfold I in *. unfold startListening. unfoldM. simpl.
    by destruct (bool_decide _).
  - intros c _ s Hs. by apply unbind_keeps_unbound.
Qed.

(** C5 (as amended): [didRemoveDOMNode(n)] reads [n->parentNode()]
    when it is called, so it is to be called while [n] is still
    attached.  For a node that is not whitespace and whose parent has
    an identifier in the document map it then sends, when the children
    of the parent are not disclosed, [childNodeCountUpdated(parentId,
    0)] exactly when the parent has one visible child at that moment,
    and nothing otherwise; when they are disclosed it sends
    [childNodeRemoved(parentId, id of n)]; and only then it unbinds
    [n].  Called when [n] has no parent any more it does nothing. *)
Theorem didRemoveDOMNode_signal (d : Dom) (node : DomNode) (a : Agent) :
  isWhitespace node = false ->
  (parentNode d node = None -> didRemoveDOMNode d node a = (tt, a))
  /\ forall parent,
       parentNode d node = Some parent ->
       idOf a DocumentMap (ptr parent) ≠ 0 ->
       let parentId := idOf a DocumentMap (ptr parent) in
       let disclosed := bool_decide (parentId ∈ m_childrenRequested a) in
       let sent :=
         if disclosed
         then [Frontend.childNodeRemoved parentId (idOf a DocumentMap (ptr node))]
         else if Z.of_nat (length (innerChildren parent)) =? 1
              then [Frontend.childNodeCountUpdated parentId 0]
              else [] in
       let a1 :=
         set_frontend_calls (frontend_calls a ++ sent)
           (if disclosed then a else listenTo parent a) in
       didRemoveDOMNode d node a = unbind node DocumentMap a1
       /\ frontend_calls (stateAfter (didRemoveDOMNode d node) a)
          = frontend_calls a ++ sent
       /\ idOf (stateAfter (didRemoveDOMNode d node) a) DocumentMap (ptr node) = 0.
Proof.
  intros Hws. split.
  { intros Hparent. unfold didRemoveDOMNode. by rewrite Hws, Hparent. }
  intros parent Hparent Hid parentId disclosed sent a1.
  assert (didRemoveDOMNode d node a = unbind node DocumentMap a1) as Heq.
  { unfold didRemoveDOMNode. rewrite Hws, Hparent.
    unfold NodeToIdMap_get_opt, NodeToIdMap_get, frontend. unfoldM. simpl.
    fold parentId. destruct (Z.eqb_spec parentId 0) as [?|_]; [done|].
    fold disclosed. subst a1 sent. clearbody disclosed.
    destruct disclosed; simpl; [done|].
    rewrite innerChildNodeCount_spec.
    assert (frontend_calls (listenTo parent a) = frontend_calls a) as <-.
    { unfold listenTo. destruct (frameDocument parent); [|done].
      unfold startListening. unfoldM. simpl. by destruct (bool_decide _). }
    destruct (_ =? 1); simpl; [done|].
    by rewrite set_frontend_calls_nil. }
  split; [done|]. unfold stateAfter. rewrite Heq.
  change (snd (unbind node DocumentMap a1)) with (stateAfter (unbind node DocumentMap) a1).
  split; [|apply unbind_unbinds].
  rewrite (ur_frontend _ _ _ (unbindRel_unbind node DocumentMap a1)). done.
Qed.

Lemma didRemoveDOMNode_signal_witness :
  frontend_calls (stateAfter (didRemoveDOMNode exDom exSpan) exPushed)
  = frontend_calls exPushed ++ [Frontend.childNodeCountUpdated 3 0].
Proof.
  assert (isWhitespace exSpan = false) as Hws by reflexivity.
  assert (parentNode exDom exSpan = Some exDiv) as Hparent by reflexivity.
  assert (idOf exPushed DocumentMap (ptr exDiv) ≠ 0) as Hid by (by vm_compute).
  destruct (didRemoveDOMNode_signal exDom exSpan exPushed Hws) as [_ H].
  destruct (H exDiv Hparent Hid) as (_ & Hsent & _).
  exact Hsent.
Defined.

(** C5, counterexample to the claim as stated: the span is the one
    visible child of the div, which has the identifier 3 and
    undisclosed children.  Called after the removal has taken effect,
    on the tree in which the span has no parent, [didRemoveDOMNode]
    sends nothing and changes nothing, although the parent had exactly
    one visible child before the removal. *)
Lemma didRemoveDOMNode_after_the_removal :
  parentNode exDom exSpan = Some exDiv
  /\ Z.of_nat (length (innerChildren exDiv)) = 1
  /\ idOf exPushed DocumentMap (ptr exDiv) = 3
  /\ bool_decide (3 ∈ m_childrenRequested exPushed) = false
  /\ parentNode exDomAfterRemoval exSpan = None
  /\ didRemoveDOMNode exDomAfterRemoval exSpan exPushed = (tt, exPushed).
Proof. vm_compute. repeat split. Qed.

(** ** A refused markup replacement *)

(** C9: the failing input.  The div of the example has the identifier
    3; the markup replacement refuses the edit and leaves the tree
    unchanged.  [setOuterHTML] with call identifier 7 then answers
    twice: first with failure (0), then with the identifier 3. *)
Lemma setOuterHTML_answers_twice :
  idOf exPushed DocumentMap (ptr exDiv) = 3
  /\ resultOf (setOuterHTML rejectingSetOuterHTML exDom 7 3 "<div") exPushed
     = Some exDom
  /\ frontend_calls
       (stateAfter (setOuterHTML rejectingSetOuterHTML exDom 7 3 "<div") exPushed)
     = frontend_calls exPushed
         ++ [Frontend.didSetOuterHTML 7 0; Frontend.didSetOuterHTML 7 3].
Proof. vm_compute. repeat split. Qed.

(** ** What [unbind] reaches *)

Lemma afterFrame_same node a :
  m_documentNodeToIdMap (afterFrame node a) = m_documentNodeToIdMap a
  /\ m_danglingNodeToIdMaps (afterFrame node a) = m_danglingNodeToIdMaps a
  /\ m_idToNode (afterFrame node a) = m_idToNode a
  /\ m_childrenRequested (afterFrame node a) = m_childrenRequested a.
Proof.
  unfold afterFrame. destruct (isFrameOwnerElement (info node)); [|done].
  unfold cssStore. unfoldM. rewrite stopListening_spec. simpl.
  by destruct (option_map ptr (contentDocument node)).
Qed.

Lemma idOf_afterFrame node a M p : idOf (afterFrame node a) M p = idOf a M p.
Proof.
  destruct (afterFrame_same node a) as (H1 & H2 & _).
  unfold idOf, nodesMapAt. by rewrite H1, H2.
Qed.

Lemma unbind_cases node M a :
  stateAfter (unbind node M) a
  = if decide (idOf a M (ptr node) = 0) then afterFrame node a
    else if bool_decide (idOf a M (ptr node) ∈ m_childrenRequested a)
         then stateAfter (forInnerChildren (fun c => unbind c M) node)
                (removeOwn node M a)
         else removeOwn node M a.
Proof.
  rewrite unbind_unfold, stateAfter_bind. fold (afterFrame node a).
  unfold removeOwn.
  destruct (afterFrame_same node a) as (_ & _ & _ & Hcr).
  pose proof (idOf_afterFrame node a M (ptr node)) as Hid.
  set (a0 := afterFrame node a) in *. clearbody a0.
  unfold NodeToIdMap_get, NodeToIdMap_remove. unfoldM. simpl. rewrite Hid.
  destruct (decide (idOf a M (ptr node) = 0)) as [H0|H0].
  { rewrite H0. done. }
  destruct (Z.eqb_spec (idOf a M (ptr node)) 0) as [?|_]; [done|].
  simpl.
  assert (m_childrenRequested
            (updateNodesMap M (delete (ptr node))
               (set_m_idToNode (delete (idOf a M (ptr node)) (m_idToNode a0)) a0))
          = m_childrenRequested a) as Hcr'.
  { rewrite <- Hcr. by destruct M. }
  rewrite Hcr'.
  destruct (bool_decide _); simpl; [|done]. rewrite Hcr'.
  by destruct (forInnerChildren _ _ _).
Qed.

Lemma removeOwn_idOf node M a M' p :
  idOf (removeOwn node M a) M' p
  = if decide (M = M' /\ ptr node = p) then 0 else idOf a M' p.
Proof.
  unfold removeOwn.
  assert (idOf (updateNodesMap M (delete (ptr node))
            (set_m_idToNode (delete (idOf a M (ptr node)) (m_idToNode (afterFrame node a)))
               (afterFrame node a))) M' p
          = if decide (M = M' /\ ptr node = p) then 0 else idOf a M' p) as H.
  { rewrite idOf_delete. destruct (decide _); [done|].
    rewrite <- (idOf_afterFrame node a M' p). done. }
  destruct (bool_decide _); [|done]. rewrite <- H. by destruct M.
Qed.

Lemma removeOwn_idToNode node M a :
  m_idToNode (removeOwn node M a) = delete (idOf a M (ptr node)) (m_idToNode a).
Proof.
  unfold removeOwn. destruct (afterFrame_same node a) as (_ & _ & <- & _).
  destruct (bool_decide _); by destruct M.
Qed.

Lemma removeOwn_requested node M a i :
  i ∈ m_childrenRequested (removeOwn node M a)
  <-> i ∈ m_childrenRequested a /\ (idOf a M (ptr node) ∈ m_childrenRequested a ->
                                     i ≠ idOf a M (ptr node)).
Proof.
  unfold removeOwn. destruct (afterFrame_same node a) as (_ & _ & _ & Hcr).
  destruct (bool_decide_reflect (idOf a M (ptr node) ∈ m_childrenRequested a)) as [Hin|Hin].
  - assert (m_childrenRequested
      (set_m_childrenRequested
         (m_childrenRequested
            (updateNodesMap M (delete (ptr node))
               (set_m_idToNode (delete (idOf a M (ptr node)) (m_idToNode (afterFrame node a)))
                  (afterFrame node a))) ∖ {[idOf a M (ptr node)]})
         (updateNodesMap M (delete (ptr node))
            (set_m_idToNode (delete (idOf a M (ptr node)) (m_idToNode (afterFrame node a)))
               (afterFrame node a))))
      = m_childrenRequested a ∖ {[idOf a M (ptr node)]}) as ->.
    { rewrite <- Hcr. by destruct M. }
    rewrite elem_of_difference, elem_of_singleton. tauto.
  - assert (m_childrenRequested
         (updateNodesMap M (delete (ptr node))
            (set_m_idToNode (delete (idOf a M (ptr node)) (m_idToNode (afterFrame node a)))
               (afterFrame node a)))
      = m_childrenRequested a) as ->.
    { rewrite <- Hcr. by destruct M. }
    tauto.
Qed.

Lemma forChain_false {A} (body : DomNode -> M A) chain :
  forChain body false chain = forInnerSiblings body chain.
Proof. induction chain as [|c rest IH]; [done|]. simpl. by rewrite IH. Qed.

Lemma visitedOf_false chain :
  visitedOf false chain = filter (fun x => visible x = true) chain.
Proof.
  induction chain as [|c rest IH]; [done|]. simpl. unfold visible at 1.
  destruct (isWhitespace c) eqn:Hc; simpl.
  - rewrite filter_cons_False; [done | by rewrite Hc].
  - rewrite filter_cons_True by (by rewrite Hc). by rewrite IH.
Qed.

Lemma forInnerChildren_chain {A} (body : DomNode -> M A) node a :
  forInnerChildren body node a
  = forChain body (fst (innerChain node)) (snd (innerChain node)) (listenTo node a).
Proof.
  unfold forInnerChildren, innerChain, listenTo, frameDocument, ifFrameDocument.
  destruct (contentDocument node) as [doc|].
  - destruct (isFrameOwnerElement (info node)); simpl.
    + rewrite bindM_eq. destruct (childNodes doc) as [|c rest]; [done|].
      simpl. by rewrite forChain_false.
    + by rewrite forChain_false.
  - simpl. by rewrite forChain_false.
Qed.

Lemma innerChildren_chain node :
  innerChildren node = visitedOf (fst (innerChain node)) (snd (innerChain node)).
Proof.
  unfold innerChildren, innerChain. destruct (frameDocument node) as [doc|]; simpl.
  - destruct (childNodes doc) as [|c rest]; [done|]. simpl. by rewrite visitedOf_false.
  - by rewrite visitedOf_false.
Qed.

Lemma visitedOf_subseteq forced chain : visitedOf forced chain ⊆ chain.
Proof.
  revert forced. induction chain as [|c rest IH]; intros forced; [done|]. simpl.
  destruct (negb forced && isWhitespace c).
  - intros x Hx. right. by apply (IH false).
  - intros x [->|Hx]%elem_of_cons; [by left|]. right. by apply (IH false).
Qed.

Lemma innerChain_descendants node c :
  c ∈ snd (innerChain node) -> nodesOf c ⊆ descendants node.
Proof.
  unfold innerChain, frameDocument.
  destruct (contentDocument node) as [doc|] eqn:Hdoc.
  - destruct (isFrameOwnerElement (info node)); simpl.
    + intros Hc x Hx. apply (descendants_doc node doc Hdoc).
      rewrite nodesOf_eq. right. by apply (descendants_child doc c).
    + apply descendants_child.
  - apply descendants_child.
Qed.

(** *** The nodes [unbind] reaches *)

Lemma reaches_nodesOf a M P x : unbindReaches a M P x -> x ∈ nodesOf P.
Proof.
  induction 1 as [|x c _ IH _ _ Hc]; [apply nodesOf_self|].
  apply nodesOf_trans with x; [done|].
  rewrite nodesOf_eq. right. by apply innerChildren_descendants.
Qed.

Lemma reaches_mono M a s c x :
  unbindRel M a s -> unbindReaches s M c x -> unbindReaches a M c x.
Proof.
  intros Hrel. induction 1 as [|x c' _ IH Hb Hd Hc]; [constructor|].
  destruct (ur_idOf _ _ _ Hrel M (ptr x)) as [E|[_ E]]; [|done].
  apply reaches_child with x; try done.
  - by rewrite <- E.
  - rewrite <- E. by apply (ur_requested _ _ _ Hrel).
Qed.

Lemma reaches_prepend a M P c x :
  idOf a M (ptr P) ≠ 0 -> idOf a M (ptr P) ∈ m_childrenRequested a ->
  c ∈ innerChildren P -> unbindReaches a M c x -> unbindReaches a M P x.
Proof.
  intros Hb Hd Hc. induction 1 as [|x c' _ IH Hb' Hd' Hc'].
  - apply reaches_child with P; [constructor|done..].
  - by apply reaches_child with x.
Qed.

Lemma reaches_inv a M P x :
  unbindReaches a M P x ->
  x = P \/ (idOf a M (ptr P) ≠ 0 /\ idOf a M (ptr P) ∈ m_childrenRequested a
            /\ exists c, c ∈ innerChildren P /\ unbindReaches a M c x).
Proof.
  induction 1 as [|x c _ IH Hb Hd Hc]; [by left|]. right.
  destruct IH as [->|(Hb' & Hd' & c' & Hc' & Hr)].
  - repeat split; try done. exists c. split; [done|constructor].
  - repeat split; try done. exists c'. split; [done|].
    by apply reaches_child with x.
Qed.

Lemma reaches_agree M P a s x :
  agreeBelow M P a s -> unbindReaches a M P x -> unbindReaches s M P x.
Proof.
  intros Hag. induction 1 as [|x c Hr IH Hb Hd Hc]; [constructor|].
  destruct (Hag x (reaches_nodesOf _ _ _ _ Hr)) as [E Hcr].
  apply reaches_child with x; try done.
  - by rewrite E.
  - rewrite E. by apply Hcr.
Qed.

(** *** What [unbind] leaves untouched *)

Lemma untouched_refl Ep Ei M a : untouched Ep Ei M a a.
Proof. by split. Qed.

Lemma untouched_trans Ep Ei M a b c :
  untouched Ep Ei M a b -> untouched Ep Ei M b c -> untouched Ep Ei M a c.
Proof.
  intros [H1 H2] [H3 H4]. split.
  - intros p Hp. by rewrite H3, H1.
  - intros i Hi. destruct (H2 i Hi) as [E1 E2], (H4 i Hi) as [E3 E4].
    split; [congruence | tauto].
Qed.

Lemma untouched_weaken (Ep Ep' : Node -> Prop) (Ei Ei' : Z -> Prop) M a b :
  (forall p, Ep p -> Ep' p) -> (forall i, Ei i -> Ei' i) ->
  untouched Ep Ei M a b -> untouched Ep' Ei' M a b.
Proof.
  intros Hp Hi [H1 H2]. split.
  - intros p Hn. apply H1. auto.
  - intros i Hn. apply H2. auto.
Qed.

Lemma keeps_forChain (I : Agent -> Prop) {A} (body : DomNode -> M A) forced chain :
  (forall c, c ∈ visitedOf forced chain -> keeps I (body c)) ->
  keeps I (forChain body forced chain).
Proof.
  revert forced. induction chain as [|c rest IH]; intros forced H; simpl in *.
  { apply keeps_ret. }
  destruct (negb forced && isWhitespace c).
  - by apply IH.
  - apply keeps_bind; [apply H; by left|]. intros x.
    apply keeps_bind; [|intros; apply keeps_ret].
    apply IH. intros c' Hc'. apply H. by right.
Qed.

Lemma listenTo_same node a :
  m_documentNodeToIdMap (listenTo node a) = m_documentNodeToIdMap a
  /\ m_danglingNodeToIdMaps (listenTo node a) = m_danglingNodeToIdMaps a
  /\ m_idToNode (listenTo node a) = m_idToNode a
  /\ m_childrenRequested (listenTo node a) = m_childrenRequested a.
Proof.
  unfold listenTo. destruct (frameDocument node); [|done].
  unfold startListening. unfoldM. simpl. by destruct (bool_decide _).
Qed.

Lemma idOf_listenTo node a M p : idOf (listenTo node a) M p = idOf a M p.
Proof.
  destruct (listenTo_same node a) as (H1 & H2 & _).
  unfold idOf, nodesMapAt. by rewrite H1, H2.
Qed.

Lemma unbindRel_listenTo M node a : unbindRel M a (listenTo node a).
Proof.
  unfold listenTo. destruct (frameDocument node); [|apply unbindRel_refl].
  apply unbindRel_startListening.
Qed.

Lemma unbindRel_afterFrame M node a : unbindRel M a (afterFrame node a).
Proof.
  unfold afterFrame. destruct (isFrameOwnerElement (info node)); [|apply unbindRel_refl].
  rewrite stateAfter_bind.
  eapply unbindRel_trans; [apply unbindRel_stopListening | apply unbindRel_cssStore].
Qed.

Lemma unbindRel_removeOwn M node a : unbindRel M a (removeOwn node M a).
Proof.
  unfold removeOwn.
  eapply unbindRel_trans; [apply unbindRel_afterFrame|].
  set (a0 := afterFrame node a). set (id := idOf a M (ptr node)).
  eapply unbindRel_trans; [apply (unbindRel_deleteId M id a0)|].
  eapply unbindRel_trans; [apply (unbindRel_removeNode M (ptr node))|].
  destruct (bool_decide _); [apply (unbindRel_undisclose M id) | apply unbindRel_refl].
Qed.

Lemma unbind_untouched node M : forall a,
  untouched (reachedAddress a M node) (reachedId a M node) M a
    (stateAfter (unbind node M) a).
Proof.
  induction node as [node IH] using DomNode_strong_ind. intros a.
  rewrite unbind_cases.
  destruct (decide (idOf a M (ptr node) = 0)) as [H0|H0].
  { destruct (afterFrame_same node a) as (_ & _ & E1 & E2). split.
    - intros p _. apply idOf_afterFrame.
    - intros i _. by rewrite E1, E2. }
  assert (untouched (reachedAddress a M node) (reachedId a M node) M a
            (removeOwn node M a)) as Hown.
  { split.
    - intros p Hp. rewrite removeOwn_idOf. rewrite decide_False; [done|].
      intros [_ <-]. apply Hp. exists node. split; [constructor|done].
    - intros i Hi.
      assert (i ≠ idOf a M (ptr node)) as Hne.
      { intros ->. apply Hi. exists node. split; [constructor|done]. }
      rewrite removeOwn_idToNode, removeOwn_requested.
      split; [by apply lookup_delete_ne | tauto]. }
  destruct (bool_decide_reflect (idOf a M (ptr node) ∈ m_childrenRequested a))
    as [Hd|Hd]; [|done].
  unfold stateAfter. rewrite forInnerChildren_chain.
  set (I := fun s => unbindRel M a s
                     /\ untouched (reachedAddress a M node) (reachedId a M node) M a s).
  cut (I (stateAfter (forChain (fun c => unbind c M) (fst (innerChain node))
                        (snd (innerChain node)))
                     (listenTo node (removeOwn node M a)))).
  { by intros [_ H]. }
  apply keeps_forChain.
  - rewrite <- innerChildren_chain. intros c Hc s [Hrel Hun].
    pose proof (unbindRel_unbind c M s) as Hstep.
    split; [by apply unbindRel_trans with s|].
    apply untouched_trans with s; [done|].
    apply untouched_weaken
      with (Ep := reachedAddress s M c) (Ei := reachedId s M c).
    + intros p (x & Hx & <-). exists x. split; [|done].
      apply reaches_prepend with c; try done. by apply reaches_mono with s.
    + intros i (x & Hx & <- & Hi). exists x. split; [|split].
      * apply reaches_prepend with c; try done. by apply reaches_mono with s.
      * destruct (ur_idOf _ _ _ Hrel M (ptr x)) as [E|[_ E]]; done.
      * done.
    + apply IH. by apply innerChildren_descendants.
  - split.
    + eapply unbindRel_trans; [apply unbindRel_removeOwn | apply unbindRel_listenTo].
    + apply untouched_trans with (removeOwn node M a); [done|].
      destruct (listenTo_same node (removeOwn node M a)) as (_ & _ & E1 & E2).
      split.
      * intros p _. apply idOf_listenTo.
      * intros i _. by rewrite E1, E2.
Qed.

(** *** What [unbind] removes *)

Lemma removedFrom_later M a s s' x :
  unbindRel M s s' -> removedFrom M a s x -> removedFrom M a s' x.
Proof.
  intros Hrel [H1 H2]. split.
  - destruct (ur_idOf _ _ _ Hrel M (ptr x)) as [->|[_ ?]]; done.
  - intros Hb. destruct (H2 Hb) as [E1 E2]. split.
    + destruct (ur_idToNode _ _ _ Hrel (idOf a M (ptr x))) as [->|?]; done.
    + intros Hin. apply E2. by apply (ur_requested _ _ _ Hrel).
Qed.

Lemma distinctIdsIn_mono M a s L L' :
  unbindRel M a s -> L' ⊆ L -> distinctIdsIn a M L -> distinctIdsIn s M L'.
Proof.
  intros Hrel Hsub Hd x y Hx Hy Hb Heq.
  destruct (ur_idOf _ _ _ Hrel M (ptr x)) as [Ex|[_ Ex]]; [|done].
  destruct (ur_idOf _ _ _ Hrel M (ptr y)) as [Ey|[_ Ey]]; [|congruence].
  apply Hd; [by apply Hsub | by apply Hsub | congruence | congruence].
Qed.

Lemma unbindRel_forChain M forced chain a :
  unbindRel M a (stateAfter (forChain (fun c => unbind c M) forced chain) a).
Proof.
  apply (keeps_forChain (unbindRel M a)); [|apply unbindRel_refl].
  intros c _. apply keeps_unbindRel_unbind.
Qed.

Lemma stateAfter_forChain_cons {A} (body : DomNode -> M A) forced c rest a :
  stateAfter (forChain body forced (c :: rest)) a
  = if negb forced && isWhitespace c then stateAfter (forChain body false rest) a
    else stateAfter (forChain body false rest) (stateAfter (body c) a).
Proof.
  simpl. destruct (negb forced && isWhitespace c); [done|].
  by rewrite !stateAfter_bind.
Qed.

Lemma forChain_complete M chain :
  (forall c, c ∈ chain -> forall s,
     NoDup (ptr <$> nodesOf c) -> distinctIdsIn s M (nodesOf c) ->
     forall x, unbindReaches s M c x ->
       removedFrom M s (stateAfter (unbind c M) s) x) ->
  forall forced s,
    NoDup (ptr <$> (chain ≫= nodesOf)) ->
    distinctIdsIn s M (chain ≫= nodesOf) ->
    forall c, c ∈ visitedOf forced chain ->
    forall x, unbindReaches s M c x ->
      removedFrom M s (stateAfter (forChain (fun c => unbind c M) forced chain) s) x.
Proof.
  induction chain as [|c0 rest IH]; intros Helem forced s Hnd Hids c Hc x Hx.
  { by apply elem_of_nil in Hc. }
  rewrite stateAfter_forChain_cons. simpl in Hc.
  assert (chain_eq : (c0 :: rest) ≫= nodesOf = nodesOf c0 ++ (rest ≫= nodesOf)) by done.
  rewrite chain_eq in Hnd, Hids. rewrite fmap_app in Hnd.
  apply NoDup_app in Hnd as (Hnd0 & Hdisj & Hndr).
  assert (forall c', c' ∈ rest -> forall s', NoDup (ptr <$> nodesOf c') ->
            distinctIdsIn s' M (nodesOf c') ->
            forall x', unbindReaches s' M c' x' ->
            removedFrom M s' (stateAfter (unbind c' M) s') x') as Helem'.
  { intros c' Hc'. apply Helem. by right. }
  destruct (negb forced && isWhitespace c0).
  { apply (IH Helem' false s) with c; try done.
    intros y z Hy Hz. apply Hids; apply elem_of_app; by right. }
  set (s1 := stateAfter (unbind c0 M) s).
  pose proof (unbindRel_unbind c0 M s) as Hrel1. fold s1 in Hrel1.
  apply elem_of_cons in Hc as [->|Hc].
  - apply removedFrom_later with s1; [apply unbindRel_forChain|].
    apply Helem; [by left | done | | done].
    intros y z Hy Hz. apply Hids; apply elem_of_app; by left.
  - assert (c ∈ rest) as Hcrest by (by apply (visitedOf_subseteq false rest)).
    assert (forall y, y ∈ nodesOf c -> ~ reachedAddress s M c0 (ptr y)) as Hsep.
    { intros y Hy (x0 & Hx0 & Hp). apply (Hdisj (ptr y)).
      - rewrite <- Hp. apply list_elem_of_fmap_2. by apply reaches_nodesOf in Hx0.
      - apply list_elem_of_fmap_2, list_elem_of_bind. eauto. }
    destruct (unbind_untouched c0 M s) as [Hun1 Hun2]. fold s1 in Hun1, Hun2.
    assert (agreeBelow M c s s1) as Hag.
    { intros y Hy. split; [by apply Hun1, Hsep|].
      intros Hb. apply Hun2. intros (x0 & Hx0 & Hi & _).
      apply (Hsep y Hy). exists x0. split; [done|].
      apply Hids; [| |congruence|done].
      - apply elem_of_app. left. by apply reaches_nodesOf in Hx0.
      - apply elem_of_app. right. apply list_elem_of_bind. eauto. }
    assert (removedFrom M s1
              (stateAfter (forChain (fun c => unbind c M) false rest) s1) x) as [R1 R2].
    { apply (IH Helem' false s1) with c; try done.
      - apply distinctIdsIn_mono with s (nodesOf c0 ++ (rest ≫= nodesOf)); try done.
        intros y Hy. apply elem_of_app. by right.
      - by apply reaches_agree with s. }
    split; [done|].
    destruct (Hag x (reaches_nodesOf _ _ _ _ Hx)) as [E _]. by rewrite <- E.
Qed.

Lemma innerChain_NoDup node :
  NoDup (ptr <$> nodesOf node) ->
  (ptr node ∉ ptr <$> (snd (innerChain node) ≫= nodesOf))
  /\ NoDup (ptr <$> (snd (innerChain node) ≫= nodesOf)).
Proof.
  rewrite nodesOf_eq, fmap_cons, NoDup_cons. intros [Hnot Hnd].
  unfold descendants in *. rewrite fmap_app in Hnd, Hnot.
  apply NoDup_app in Hnd as (Hnd1 & _ & Hnd2).
  rewrite elem_of_app in Hnot.
  unfold innerChain, frameDocument.
  destruct (contentDocument node) as [doc|]; [|split; tauto].
  destruct (isFrameOwnerElement (info node)); simpl; [|split; tauto].
  rewrite nodesOf_eq, fmap_cons in Hnd2, Hnot. unfold descendants in Hnd2, Hnot.
  rewrite fmap_app in Hnd2, Hnot.
  apply NoDup_cons in Hnd2 as [_ Hnd2]. apply NoDup_app in Hnd2 as (Hnd3 & _ & _).
  split; [|done]. intros Hin. apply Hnot. right. right. apply elem_of_app. by left.
Qed.

Lemma innerChain_nodesOf node y :
  y ∈ snd (innerChain node) ≫= nodesOf -> y ∈ descendants node.
Proof.
  intros (c & Hy & Hc)%list_elem_of_bind. by apply (innerChain_descendants node c).
Qed.

Lemma unbind_complete M node : forall a,
  NoDup (ptr <$> nodesOf node) -> distinctIdsIn a M (nodesOf node) ->
  forall x, unbindReaches a M node x ->
    removedFrom M a (stateAfter (unbind node M) a) x.
Proof.
  induction node as [node IH] using DomNode_strong_ind.
  intros a Hnd Hids x Hx. rewrite unbind_cases.
  destruct (decide (idOf a M (ptr node) = 0)) as [H0|H0].
  { apply reaches_inv in Hx as [->|(Hb & _)]; [|done]. split; [|done].
    by rewrite idOf_afterFrame. }
  assert (removedFrom M a (removeOwn node M a) node) as Hown.
  { split.
    - rewrite removeOwn_idOf. by rewrite decide_True.
    - intros _. rewrite removeOwn_idToNode, removeOwn_requested. split.
      + apply lookup_delete_eq.
      + intros [Hin Hne]. by apply Hne. }
  destruct (bool_decide_reflect (idOf a M (ptr node) ∈ m_childrenRequested a))
    as [Hd|Hd].
  2:{ apply reaches_inv in Hx as [->|(_ & ? & _)]; done. }
  set (r := removeOwn node M a) in *. set (s0 := listenTo node r).
  assert (unbindRel M a s0) as Hrel0.
  { eapply unbindRel_trans; [apply unbindRel_removeOwn | apply unbindRel_listenTo]. }
  unfold stateAfter at 1. rewrite forInnerChildren_chain. fold s0.
  change (snd (forChain (fun c => unbind c M) (fst (innerChain node))
                 (snd (innerChain node)) s0))
    with (stateAfter (forChain (fun c => unbind c M) (fst (innerChain node))
                        (snd (innerChain node))) s0).
  apply reaches_inv in Hx as [->|(_ & _ & c & Hc & Hx)].
  { apply removedFrom_later with r; [|done].
    eapply unbindRel_trans; [apply unbindRel_listenTo | apply unbindRel_forChain]. }
  destruct (innerChain_NoDup node Hnd) as [Hself Hndc].
  assert (forall y, y ∈ snd (innerChain node) ≫= nodesOf ->
            idOf s0 M (ptr y) = idOf a M (ptr y)
            /\ (idOf a M (ptr y) ≠ 0 ->
                (idOf a M (ptr y) ∈ m_childrenRequested s0
                 <-> idOf a M (ptr y) ∈ m_childrenRequested a))) as Hsame.
  { intros y Hy.
    assert (ptr node ≠ ptr y) as Hne.
    { intros E. apply Hself. rewrite E. by apply list_elem_of_fmap_2. }
    subst s0. rewrite idOf_listenTo.
    destruct (listenTo_same node r) as (_ & _ & _ & ->).
    subst r. rewrite removeOwn_idOf, removeOwn_requested.
    rewrite decide_False; [|by intros [_ ?]]. split; [done|].
    intros Hb. split; [tauto|]. intros Hin. split; [done|]. intros _ E.
    apply Hne. symmetry. apply Hids; [| |done|done].
    - rewrite nodesOf_eq. right. by apply innerChain_nodesOf.
    - apply nodesOf_self. }
  assert (c ∈ snd (innerChain node)) as Hcchain.
  { rewrite innerChildren_chain in Hc. by apply visitedOf_subseteq in Hc. }
  assert (agreeBelow M c a s0) as Hag.
  { intros y Hy. apply Hsame. apply list_elem_of_bind. eauto. }
  assert (removedFrom M s0
            (stateAfter (forChain (fun c => unbind c M) (fst (innerChain node))
                           (snd (innerChain node))) s0) x) as [R1 R2].
  { apply forChain_complete with c; try done.
    - intros c' Hc'. apply IH.
      apply (innerChain_descendants node c' Hc'), nodesOf_self.
    - intros y z Hy Hz Hb Heq.
      destruct (Hsame y Hy) as [Ey _], (Hsame z Hz) as [Ez _].
      apply Hids.
      + rewrite nodesOf_eq. right. by apply innerChain_nodesOf.
      + rewrite nodesOf_eq. right. by apply innerChain_nodesOf.
      + congruence.
      + congruence.
    - by rewrite <- innerChildren_chain.
    - by apply reaches_agree with a. }
  split; [done|].
  destruct (Hag x (reaches_nodesOf _ _ _ _ Hx)) as [E _]. by rewrite <- E.
Qed.

(** *** Below an undisclosed node *)

Lemma NoDup_fmap_elem_eq {A B} (f : A -> B) (l : list A) x y :
  NoDup (f <$> l) -> x ∈ l -> y ∈ l -> f x = f y -> x = y.
Proof.
  induction l as [|z l IH]; [by intros _ ?%elem_of_nil|].
  rewrite fmap_cons, NoDup_cons. intros [Hz Hnd].
  intros [->|Hx]%elem_of_cons [->|Hy]%elem_of_cons Heq; try done.
  - exfalso. apply Hz. rewrite Heq. by apply list_elem_of_fmap_2.
  - exfalso. apply Hz. rewrite <- Heq. by apply list_elem_of_fmap_2.
  - by apply IH.
Qed.

Lemma NoDup_bind_part {A} (f : DomNode -> A) (l : list DomNode) c :
  NoDup (f <$> (l ≫= nodesOf)) -> c ∈ l -> NoDup (f <$> nodesOf c).
Proof.
  induction l as [|z l IH]; [by intros _ ?%elem_of_nil|].
  change ((z :: l) ≫= nodesOf) with (nodesOf z ++ (l ≫= nodesOf)).
  rewrite fmap_app. intros (H1 & _ & H2)%NoDup_app [->|Hc]%elem_of_cons; auto.
Qed.

Lemma NoDup_bind_share (l : list DomNode) c c' y :
  NoDup (ptr <$> (l ≫= nodesOf)) -> c ∈ l -> c' ∈ l ->
  y ∈ nodesOf c -> y ∈ nodesOf c' -> c = c'.
Proof.
  induction l as [|z l IH]; [by intros _ ?%elem_of_nil|].
  change ((z :: l) ≫= nodesOf) with (nodesOf z ++ (l ≫= nodesOf)).
  rewrite fmap_app. intros (H1 & Hdisj & H2)%NoDup_app.
  intros [->|Hc]%elem_of_cons [->|Hc']%elem_of_cons Hy Hy'; try done.
  - exfalso. apply (Hdisj (ptr y)); [by apply list_elem_of_fmap_2|].
    apply list_elem_of_fmap_2, list_elem_of_bind. eauto.
  - exfalso. apply (Hdisj (ptr y)); [by apply list_elem_of_fmap_2|].
    apply list_elem_of_fmap_2, list_elem_of_bind. eauto.
  - by apply IH.
Qed.

Lemma not_own_descendant node :
  NoDup (ptr <$> nodesOf node) -> node ∉ descendants node.
Proof.
  rewrite nodesOf_eq, fmap_cons, NoDup_cons. intros [Hnot _] Hin.
  apply Hnot. by apply list_elem_of_fmap_2.
Qed.

Lemma descendants_trans n c x :
  c ∈ nodesOf n -> x ∈ descendants c -> x ∈ descendants n.
Proof.
  rewrite (nodesOf_eq n). intros [->|Hc]%elem_of_cons Hx; [done|].
  assert (x ∈ nodesOf c) as Hxc by (rewrite nodesOf_eq; by right).
  revert Hc. unfold descendants at 1 2.
  rewrite !elem_of_app, !list_elem_of_bind.
  intros [(ch & Hc & Hch)|Hc].
  - left. exists ch. split; [|done]. by apply nodesOf_trans with c.
  - right. destruct (contentDocument n) as [doc|]; [|by apply elem_of_nil in Hc].
    by apply nodesOf_trans with c.
Qed.

Lemma unbind_blocked M a : forall P,
  NoDup (ptr <$> nodesOf P) ->
  forall c y, unbindReaches a M P c ->
    (idOf a M (ptr c) = 0 \/ idOf a M (ptr c) ∉ m_childrenRequested a) ->
    y ∈ descendants c -> ~ unbindReaches a M P y.
Proof.
  induction P as [P IH] using DomNode_strong_ind.
  intros Hnd c y Hc Hblocked Hy Hreach.
  assert (c ∈ nodesOf P) as HcP by (by apply reaches_nodesOf in Hc).
  apply reaches_inv in Hreach as [->|(Hb & Hd & c' & Hc' & Hreach)].
  { apply (not_own_descendant P Hnd). by apply descendants_trans with c. }
  apply reaches_inv in Hc as [->|(_ & _ & c'' & Hc'' & Hc)].
  { destruct Hblocked; done. }
  pose proof (innerChain_NoDup P Hnd) as [_ Hchain].
  assert (forall z, z ∈ innerChildren P -> z ∈ snd (innerChain P)) as Hsub.
  { intros z. rewrite innerChildren_chain. apply visitedOf_subseteq. }
  assert (c' = c'') as <-.
  { apply (NoDup_bind_share _ c' c'' y Hchain (Hsub _ Hc') (Hsub _ Hc'')).
    - by apply reaches_nodesOf in Hreach.
    - apply nodesOf_trans with c; [by apply reaches_nodesOf in Hc|].
      rewrite nodesOf_eq. by right. }
  apply (IH c' (innerChildren_descendants _ _ Hc')
           (NoDup_bind_part ptr _ c' Hchain (Hsub _ Hc')) c y Hc Hblocked Hy Hreach).
Qed.

Lemma distinctIdsIn_check_sound a M L :
  distinctIdsIn_check a M L = true -> distinctIdsIn a M L.
Proof.
  unfold distinctIdsIn_check. rewrite forallb_forall.
  intros H x y Hx%list_elem_of_In Hy%list_elem_of_In Hne Heq.
  specialize (H x Hx). rewrite forallb_forall in H. specialize (H y Hy).
  apply orb_true_iff in H as [H|H]; [|by apply bool_decide_eq_true in H].
  apply orb_true_iff in H as [H|H].
  - apply Z.eqb_eq in H. done.
  - apply negb_true_iff, Z.eqb_neq in H. done.
Qed.

(** C3. Unbind transitivity: when [P] is bound in [nodesMap] with
    its children disclosed, in a tree of distinct addresses whose
    identifiers are distinct, [unbind P nodesMap] reaches every visible
    child of [P] and goes on below each reached node that is bound and
    disclosed; every reached node loses its identifier in [nodesMap],
    that identifier no longer resolves through [m_idToNode] and is no
    longer flagged in [m_childrenRequested]; the nodes below a reached
    node whose children are not disclosed keep their identifier, their
    entry of [m_idToNode] and their flag; so does every address and
    identifier that is not reached, and every other map. *)
Theorem unbind_transitive (P : DomNode) (nodesMap : MapRef) (a : Agent) :
  distinctAddresses P -> distinctIds a nodesMap P ->
  idOf a nodesMap (ptr P) ≠ 0 ->
  idOf a nodesMap (ptr P) ∈ m_childrenRequested a ->
  (forall c, c ∈ innerChildren P -> unbindReaches a nodesMap P c)
  /\ (forall x, unbindReaches a nodesMap P x ->
        removedFrom nodesMap a (stateAfter (unbind P nodesMap) a) x)
  /\ (forall c y, unbindReaches a nodesMap P c ->
        idOf a nodesMap (ptr c) ∉ m_childrenRequested a ->
        y ∈ descendants c ->
        idOf (stateAfter (unbind P nodesMap) a) nodesMap (ptr y)
          = idOf a nodesMap (ptr y)
        /\ (idOf a nodesMap (ptr y) ≠ 0 ->
            m_idToNode (stateAfter (unbind P nodesMap) a) !! idOf a nodesMap (ptr y)
              = m_idToNode a !! idOf a nodesMap (ptr y)
            /\ (idOf a nodesMap (ptr y)
                  ∈ m_childrenRequested (stateAfter (unbind P nodesMap) a)
                <-> idOf a nodesMap (ptr y) ∈ m_childrenRequested a)))
  /\ untouched (reachedAddress a nodesMap P) (reachedId a nodesMap P) nodesMap
       a (stateAfter (unbind P nodesMap) a)
  /\ (forall M p, M ≠ nodesMap ->
        idOf (stateAfter (unbind P nodesMap) a) M p = idOf a M p).
Proof.
  intros Hnd Hids Hbound Hdisclosed.
  pose proof (unbind_untouched P nodesMap a) as Hun.
  split; [|split; [|split; [|split]]].
  - intros c Hc. apply reaches_child with P; [constructor|done..].
  - by apply unbind_complete.
  - intros c y Hc Hundisclosed Hy.
    assert (y ∈ nodesOf P) as HyP.
    { apply nodesOf_trans with c; [by apply reaches_nodesOf in Hc|].
      rewrite nodesOf_eq. by right. }
    assert (forall x, unbindReaches a nodesMap P x -> ptr x = ptr y -> False)
      as Hblocked.
    { intros x Hx Hptr.
      assert (x = y) as ->.
      { apply (NoDup_fmap_elem_eq ptr (nodesOf P)); [done| |done..].
        by apply reaches_nodesOf in Hx. }
      by apply (unbind_blocked nodesMap a P Hnd c y Hc (or_intror Hundisclosed) Hy). }
    destruct Hun as [Haddr Hid]. split.
    + apply Haddr. intros (x & Hx & Hptr). by apply (Hblocked x).
    + intros Hne. apply Hid. intros (x & Hx & Heq & _).
      apply (Hblocked x Hx). apply Hids; [by apply reaches_nodesOf in Hx|done| |done].
      by rewrite Heq.
  - done.
  - intros M p HM.
    destruct (ur_idOf _ _ _ (unbindRel_unbind P nodesMap a) M p) as [?|[? _]]; done.
Qed.

Lemma unbind_transitive_witness :
  unbindReaches exDisclosed DocumentMap exHtml exSpan
  /\ removedFrom DocumentMap exDisclosed
       (stateAfter (unbind exHtml DocumentMap) exDisclosed) exSpan.
Proof.
  assert (distinctAddresses exHtml) as Hnd.
  { apply (bool_decide_unpack _). by vm_compute. }
  assert (distinctIds exDisclosed DocumentMap exHtml) as Hids.
  { apply distinctIdsIn_check_sound. by vm_compute. }
  assert (idOf exDisclosed DocumentMap (ptr exHtml) ≠ 0) as Hb by (by vm_compute).
  assert (idOf exDisclosed DocumentMap (ptr exHtml)
            ∈ m_childrenRequested exDisclosed) as Hd.
  { apply (bool_decide_unpack _). by vm_compute. }
  destruct (unbind_transitive exHtml DocumentMap exDisclosed Hnd Hids Hb Hd)
    as (Hchildren & Hremoved & _).
  assert (unbindReaches exDisclosed DocumentMap exHtml exSpan) as Hreach.
  { apply reaches_child with exDiv.
    - apply Hchildren. vm_compute. apply list_elem_of_here.
    - by vm_compute.
    - apply (bool_decide_unpack _). by vm_compute.
    - vm_compute. apply list_elem_of_here. }
  split; [done|]. by apply Hremoved.
Defined.

(** ** Descriptions *)

Lemma buildObjectForNode_unfold node depth nodesMap :
  buildObjectForNode node depth nodesMap =
  (id <- bind (ptr node) nodesMap ;;
  let '(nodeName, localName, nodeValue) :=
    match nodeType (info node) with
    | TEXT_NODE | COMMENT_NODE => (EmptyString, EmptyString, nodeValue (info node))
    | ATTRIBUTE_NODE => (EmptyString, localName (info node), EmptyString)
    | DOCUMENT_FRAGMENT_NODE => (EmptyString, EmptyString, EmptyString)
    | _ => (nodeName (info node), localName (info node), EmptyString)
    end in
  if isContainerType node
  then
    nodeCount <- innerChildNodeCount node ;;
    children <- buildArrayForContainerChildren node depth nodesMap ;;
    let children := if 0 <? Z.of_nat (length children) then Some children else None in
    ret (mkInspectorObject id (nodeTypeCode (nodeType (info node)))
           nodeName localName nodeValue (Some nodeCount) children
           (if hasType node ELEMENT_NODE
            then Some (buildArrayForElementAttributes node) else None)
           (if hasType node ELEMENT_NODE
            then (if isFrameOwnerElement (info node)
                  then Some (documentURLString (contentDocument node)) else None)
            else (if hasType node DOCUMENT_NODE
                  then Some (documentURLString (Some node)) else None))
           None None None)
  else
    ret (mkInspectorObject id (nodeTypeCode (nodeType (info node)))
           nodeName localName nodeValue None None None None
           (if hasType node DOCUMENT_TYPE_NODE then Some (publicId (info node)) else None)
           (if hasType node DOCUMENT_TYPE_NODE then Some (systemId (info node)) else None)
           (if hasType node DOCUMENT_TYPE_NODE
            then Some (internalSubset (info node)) else None))).
Proof. by destruct node. Qed.

Lemma keeps_buildArrayForContainerChildren (I : Agent -> Prop)
    (build : DomNode -> Z -> MapRef -> M InspectorObject) container depth M :
  (forall doc, keeps I (startListening doc)) ->
  (forall c depth', c ∈ innerChildren container -> keeps I (build c depth' M)) ->
  keeps I (buildArrayForContainerChildren_with build container depth M).
Proof.
  intros Hl Hbuild. unfold buildArrayForContainerChildren_with.
  destruct (depth =? 0).
  - apply keeps_bind; [by apply keeps_innerChildNodeCount|]. intros count.
    destruct (count =? 1); [|apply keeps_ret].
    apply keeps_bind; [|intros; apply keeps_ret].
    apply keeps_withInnerFirstChild; [done|]. intros c Hc.
    destruct (hasType c TEXT_NODE); [|apply keeps_ret].
    apply keeps_bind; [by apply Hbuild|]. intros; apply keeps_ret.
  - apply keeps_forInnerChildren; [done|]. intros c Hc. by apply Hbuild.
Qed.

Lemma keeps_buildObjectForNode (I : Agent -> Prop) M :
  (forall doc, keeps I (startListening doc)) ->
  (forall p, keeps I (bind p M)) ->
  forall node depth, keeps I (buildObjectForNode node depth M).
Proof.
  intros Hl Hb. induction node as [node IH] using DomNode_strong_ind.
  intros depth. rewrite buildObjectForNode_unfold.
  apply keeps_bind; [apply Hb|]. intros id.
  destruct (match nodeType (info node) with TEXT_NODE => _ | _ => _ end)
    as [[nodeName localName] nodeValue].
  destruct (isContainerType node); [|apply keeps_ret].
  apply keeps_bind; [by apply keeps_innerChildNodeCount|]. intros count.
  apply keeps_bind; [|intros; apply keeps_ret].
  apply keeps_buildArrayForContainerChildren; [done|].
  intros c depth' Hc. apply IH. by apply innerChildren_descendants.
Qed.

Lemma buildObjectForNode_id node depth M a :
  o_id (resultOf (buildObjectForNode node depth M) a)
  = resultOf (bind (ptr node) M) a.
Proof.
  rewrite buildObjectForNode_unfold, resultOf_bind.
  destruct (match nodeType (info node) with TEXT_NODE => _ | _ => _ end)
    as [[nodeName localName] nodeValue].
  destruct (isContainerType node); [|done].
  by rewrite !resultOf_bind.
Qed.

Lemma bind_frontend p M a :
  frontend_calls (stateAfter (bind p M) a) = frontend_calls a.
Proof.
  unfold bind, NodeToIdMap_get, NodeToIdMap_set. unfoldM. simpl.
  destruct (negb _); [done|]. simpl. unfold updateNodesMap.
  by destruct M as [|i].
Qed.

Lemma startListening_frontend doc a :
  frontend_calls (stateAfter (startListening doc) a) = frontend_calls a.
Proof. apply (ur_frontend DocumentMap), unbindRel_startListening. Qed.

Lemma startListening_idOf doc a M p :
  idOf (stateAfter (startListening doc) a) M p = idOf a M p.
Proof.
  unfold startListening. unfoldM. simpl. by destruct (bool_decide _).
Qed.

Lemma bind_keeps_bound p M a M' p' :
  idOf a M' p' ≠ 0 -> idOf (stateAfter (bind p M) a) M' p' = idOf a M' p'.
Proof.
  intros Hne. destruct (decide (idOf a M p = 0)) as [Hz|Hnz].
  - destruct (bind_fresh p M a Hz) as (_ & _ & ->).
    destruct (decide _) as [(_ & -> & ->)|]; done.
  - unfold stateAfter. by rewrite bind_bound.
Qed.

Lemma buildObjectForNode_frontend node depth M a :
  frontend_calls (stateAfter (buildObjectForNode node depth M) a) = frontend_calls a.
Proof.
  apply (keeps_buildObjectForNode (fun s => frontend_calls s = frontend_calls a) M);
    [| |done].
  - intros doc s Hs. by rewrite startListening_frontend.
  - intros p s Hs. by rewrite bind_frontend.
Qed.

Lemma buildObjectForNode_keeps_bound node depth M a M' p' :
  idOf a M' p' ≠ 0 ->
  idOf (stateAfter (buildObjectForNode node depth M) a) M' p' = idOf a M' p'.
Proof.
  intros Hne.
  apply (keeps_buildObjectForNode (fun s => idOf s M' p' = idOf a M' p') M);
    [| |done].
  - intros doc s Hs. by rewrite startListening_idOf.
  - intros p s Hs. rewrite bind_keeps_bound; [done|]. by rewrite Hs.
Qed.

Lemma buildObjectForNode_binds node depth a :
  idOf a DocumentMap (ptr node) = 0 -> m_lastNodeId a ≠ 0 ->
  o_id (resultOf (buildObjectForNode node depth DocumentMap) a) = m_lastNodeId a
  /\ idOf (stateAfter (buildObjectForNode node depth DocumentMap) a)
       DocumentMap (ptr node) = m_lastNodeId a.
Proof.
  intros Hz Hne. rewrite buildObjectForNode_id.
  destruct (bind_fresh (ptr node) DocumentMap a Hz) as (Hres & _ & Hids).
  split; [done|].
  rewrite buildObjectForNode_unfold, stateAfter_bind.
  set (s := stateAfter (bind (ptr node) DocumentMap) a).
  assert (idOf s DocumentMap (ptr node) = m_lastNodeId a) as Hs.
  { subst s. rewrite Hids. destruct (decide _) as [|Hno]; [done|].
    exfalso. apply Hno. repeat split. by eexists. }
  rewrite Hres.
  destruct (match nodeType (info node) with TEXT_NODE => _ | _ => _ end)
    as [[nodeName localName] nodeValue].
  destruct (isContainerType node); [|done].
  rewrite !stateAfter_bind.
  change (stateAfter (ret _) ?x) with x.
  rewrite <- Hs.
  set (I := fun t => idOf t DocumentMap (ptr node) = idOf s DocumentMap (ptr node)).
  assert (forall doc, keeps I (startListening doc)) as Hl.
  { intros doc t Ht. unfold I. by rewrite startListening_idOf. }
  cut (I (stateAfter (buildArrayForContainerChildren node depth DocumentMap)
            (stateAfter (innerChildNodeCount node) s))); [done|].
  apply (keeps_buildArrayForContainerChildren I buildObjectForNode); [done| |].
  - intros c depth' _ t Ht. unfold I.
    rewrite buildObjectForNode_keeps_bound; [done|]. rewrite Ht, Hs. done.
  - by apply (keeps_innerChildNodeCount I).
Qed.


Lemma apartFrom_untouched a node other :
  apartFrom a DocumentMap node other ->
  idOf (stateAfter (unbind node DocumentMap) a) DocumentMap (ptr other)
    = idOf a DocumentMap (ptr other)
  /\ (idOf a DocumentMap (ptr other) ≠ 0 ->
      (idOf a DocumentMap (ptr other)
         ∈ m_childrenRequested (stateAfter (unbind node DocumentMap) a)
       <-> idOf a DocumentMap (ptr other) ∈ m_childrenRequested a)).
Proof.
  intros Hapart.
  destruct (unbind_untouched node DocumentMap a) as [Haddr Hid]. split.
  - apply Haddr. intros (x & Hx & Hptr).
    apply reaches_nodesOf in Hx. by destruct (Hapart x Hx).
  - intros Hne. apply Hid. intros (x & Hx & Heq & _).
    apply reaches_nodesOf in Hx. destruct (Hapart x Hx) as [_ H]. by apply H.
Qed.



(** ** Searching *)

Section SearchResults.
Context (X : list Node).
Let I (s : Agent) : Prop := m_searchResults s = X.

Lemma results_startListening doc : keeps I (startListening doc).
Proof.
  intros s Hs. unfold I, startListening in *. unfoldM. simpl.
  by destruct (bool_decide _).
Qed.

Lemma results_bind p M : keeps I (bind p M).
Proof.
  intros s Hs. unfold I, bind, NodeToIdMap_get, NodeToIdMap_set in *. unfoldM. simpl.
  destruct (negb _); [done|]. simpl. unfold updateNodesMap.
  by destruct M as [|i].
Qed.

Lemma results_frontend c : keeps I (frontend c).
Proof. by intros s Hs. Qed.

Lemma results_buildObjectForNode node depth M :
  keeps I (buildObjectForNode node depth M).
Proof.
  apply keeps_buildObjectForNode;
    [apply results_startListening|intros; apply results_bind].
Qed.

Lemma results_buildArrayForContainerChildren node depth M :
  keeps I (buildArrayForContainerChildren node depth M).
Proof.
  apply (keeps_buildArrayForContainerChildren I buildObjectForNode);
    [apply results_startListening|intros; apply results_buildObjectForNode].
Qed.

Lemma results_pushDocumentToFrontend d : keeps I (pushDocumentToFrontend d).
Proof.
  unfold pushDocumentToFrontend.
  apply keeps_bind; [apply keeps_gets|]. intros [document|]; [|apply keeps_ret].
  apply keeps_bind; [apply keeps_gets|]. intros contains.
  apply keeps_bind; [|intros; apply keeps_ret].
  destruct (negb contains); [|apply keeps_ret].
  destruct (deref d document); [|apply keeps_ret].
  apply keeps_bind; [apply results_buildObjectForNode|].
  intros; apply results_frontend.
Qed.

Lemma results_pushChildNodesToFrontend d nodeId :
  keeps I (pushChildNodesToFrontend d nodeId).
Proof.
  unfold pushChildNodesToFrontend.
  apply keeps_bind.
  { unfold nodeForId. destruct (nodeId =? 0); [apply keeps_ret|apply keeps_gets]. }
  intros node. destruct (node ≫= deref d) as [n|]; [|apply keeps_ret].
  destruct (negb (isContainerType n)); [apply keeps_ret|].
  apply keeps_bind; [apply keeps_gets|]. intros requested.
  destruct requested; [apply keeps_ret|].
  apply keeps_bind; [apply keeps_gets|]. intros [nodeMap|]; [|apply keeps_ret].
  apply keeps_bind; [apply results_buildArrayForContainerChildren|]. intros children.
  apply keeps_bind; [by intros s Hs|]. intros; apply results_frontend.
Qed.

Lemma results_pushNodePath_loop parents : forall node path,
  keeps I (pushNodePath_loop node parents path).
Proof.
  induction parents as [|parent parents IH]; intros node path; simpl.
  - apply keeps_bind; [by intros s Hs|]. intros danglingMap.
    apply keeps_bind; [apply results_buildObjectForNode|]. intros root.
    apply keeps_bind; [apply results_frontend|]. intros; apply keeps_ret.
  - apply keeps_bind; [apply keeps_gets|]. intros id.
    destruct (negb (id =? 0)); [apply keeps_ret|apply IH].
Qed.

Lemma results_pushNodePathToFrontend d node :
  keeps I (pushNodePathToFrontend d node).
Proof.
  unfold pushNodePathToFrontend.
  apply keeps_bind; [apply results_pushDocumentToFrontend|]. intros pushed.
  destruct (negb pushed); [apply keeps_ret|].
  apply keeps_bind; [apply keeps_gets|]. intros result.
  destruct (negb (result =? 0)); [apply keeps_ret|].
  apply keeps_bind; [apply results_pushNodePath_loop|]. intros [path danglingMap].
  apply keeps_bind; [|intros; apply keeps_gets].
  apply keeps_forEach. intros n _.
  apply keeps_bind; [apply keeps_gets|]. intros nodeId.
  apply results_pushChildNodesToFrontend.
Qed.
End SearchResults.

Lemma pushNodePathToFrontend_results d node a :
  m_searchResults (stateAfter (pushNodePathToFrontend d node) a) = m_searchResults a.
Proof. by apply (results_pushNodePathToFrontend (m_searchResults a)). Qed.

Lemma reportNodes_loop_unseen d resultCollector : forall a,
  reportNodes_loop d resultCollector a
  = reportEach d (unseen (m_searchResults a) resultCollector) a.
Proof.
  induction resultCollector as [|node rest IH]; intros a; simpl; [done|].
  rewrite bindM_eq.
  change (resultOf (gets ?f) ?x) with (f x).
  change (stateAfter (gets ?f) ?x) with x. cbv beta.
  destruct (bool_decide (ptr node ∈ m_searchResults a)); [apply IH|].
  simpl. rewrite !bindM_eq.
  set (a2 := stateAfter (pushNodePathToFrontend d node) _).
  assert (m_searchResults a2 = m_searchResults a ++ [ptr node]) as Hres.
  { subst a2. by rewrite pushNodePathToFrontend_results. }
  unfold resultOf at 2 4, stateAfter at 1 2. by rewrite IH, Hres.
Qed.

Lemma reportEach_results d nodes : forall a,
  m_searchResults (stateAfter (reportEach d nodes) a)
  = m_searchResults a ++ (ptr <$> nodes).
Proof.
  induction nodes as [|node rest IH]; intros a; simpl.
  - by rewrite app_nil_r.
  - rewrite !stateAfter_bind.
    change (stateAfter (ret _) ?x) with x.
    rewrite IH, pushNodePathToFrontend_results. simpl.
    by rewrite <- app_assoc.
Qed.

Lemma reportEach_length d nodes : forall a,
  length (resultOf (reportEach d nodes) a) = length nodes.
Proof.
  induction nodes as [|node rest IH]; intros a; simpl; [done|].
  rewrite !resultOf_bind. simpl. by rewrite IH.
Qed.

Lemma unseen_spec resultCollector : forall seen,
  (forall n, n ∈ unseen seen resultCollector ->
             n ∈ resultCollector /\ ptr n ∉ seen)
  /\ (forall n, n ∈ resultCollector ->
                ptr n ∈ seen ++ (ptr <$> unseen seen resultCollector))
  /\ (NoDup seen -> NoDup (seen ++ (ptr <$> unseen seen resultCollector))).
Proof.
  induction resultCollector as [|node rest IH]; intros seen; simpl.
  { split; [by intros n ?%elem_of_nil|]. split; [by intros n ?%elem_of_nil|].
    by rewrite app_nil_r. }
  destruct (bool_decide_reflect (ptr node ∈ seen)) as [Hin|Hnotin].
  - destruct (IH seen) as (H1 & H2 & H3). split; [|split; [|done]].
    + intros n Hn. destruct (H1 n Hn). split; [by right|done].
    + intros n [->|Hn]%elem_of_cons; [|by apply H2].
      apply elem_of_app. by left.
  - destruct (IH (seen ++ [ptr node])) as (H1 & H2 & H3).
    rewrite fmap_cons.
    replace (seen ++ ptr node :: (ptr <$> unseen (seen ++ [ptr node]) rest))
      with ((seen ++ [ptr node]) ++ (ptr <$> unseen (seen ++ [ptr node]) rest))
      by (by rewrite <- app_assoc).
    split; [|split].
    + intros n [->|Hn]%elem_of_cons; [split; [by left|done]|].
      destruct (H1 n Hn) as [? Hnot]. split; [by right|].
      intros ?. apply Hnot, elem_of_app. by left.
    + intros n [->|Hn]%elem_of_cons; [|by apply H2].
      apply elem_of_app. left. apply elem_of_app. right. by left.
    + intros Hnd. apply H3. apply NoDup_app. split; [done|]. split.
      * intros x Hx ->%list_elem_of_singleton. done.
      * apply NoDup_singleton.
Qed.

Lemma unseen_all_seen resultCollector seen :
  (forall n, n ∈ resultCollector -> ptr n ∈ seen) ->
  unseen seen resultCollector = [].
Proof.
  induction resultCollector as [|node rest IH]; intros H; simpl; [done|].
  rewrite bool_decide_eq_true_2 by (apply H; by left).
  apply IH. intros n Hn. apply H. by right.
Qed.

Lemma searchCanceled_spec a :
  m_pendingMatchJobs (stateAfter searchCanceled a) = []
  /\ m_searchResults (stateAfter searchCanceled a) = []
  /\ m_matchJobsTimer (stateAfter searchCanceled a) = None.
Proof.
  unfold searchCanceled. unfoldM. simpl.
  destruct (bool_decide_reflect (is_Some (m_matchJobsTimer a))) as [H|H]; simpl;
    [done|].
  repeat split. destruct (m_matchJobsTimer a); [|done]. exfalso. apply H. by eexists.
Qed.

Lemma searchCanceled_idle a : idle a -> searchCanceled a = (tt, a).
Proof.
  intros (Ht & Hp & Hr). unfold searchCanceled. unfoldM. simpl.
  rewrite Ht. simpl. destruct a. simpl in *. by subst.
Qed.

(** C7. Search de-duplication: [reportNodesAsSearchResults] treats
    exactly the nodes of the collector that are not yet among
    [m_searchResults], each once: they join the results, their paths
    are pushed, and the identifiers that come back are what
    [addNodesToSearchResult] carries; a node that is among the results
    is skipped, so that a later collector made of reported nodes
    reports nothing.  [searchCanceled] empties the pending jobs and
    the results and leaves the timer idle, and changes nothing when no
    search is going on; after it any node is reported again, and
    [performSearch] begins with it. *)
Theorem search_deduplication (q : DocumentQueries) (d : Dom)
    (resultCollector : list DomNode) (a : Agent) :
  reportNodes_loop d resultCollector a
    = reportEach d (unseen (m_searchResults a) resultCollector) a
  /\ (forall n, n ∈ unseen (m_searchResults a) resultCollector ->
                n ∈ resultCollector /\ ptr n ∉ m_searchResults a)
  /\ length (resultOf (reportNodes_loop d resultCollector) a)
     = length (unseen (m_searchResults a) resultCollector)
  /\ frontend_calls (stateAfter (reportNodesAsSearchResults d resultCollector) a)
     = frontend_calls (stateAfter (reportNodes_loop d resultCollector) a)
       ++ [Frontend.addNodesToSearchResult
             (resultOf (reportNodes_loop d resultCollector) a)]
  /\ m_searchResults (stateAfter (reportNodesAsSearchResults d resultCollector) a)
     = m_searchResults a ++ (ptr <$> unseen (m_searchResults a) resultCollector)
  /\ (NoDup (m_searchResults a) ->
      NoDup (m_searchResults
               (stateAfter (reportNodesAsSearchResults d resultCollector) a)))
  /\ (forall later,
        (forall n, n ∈ later ->
                   ptr n ∈ m_searchResults a \/ n ∈ resultCollector) ->
        reportNodes_loop d later
          (stateAfter (reportNodesAsSearchResults d resultCollector) a)
        = ([], stateAfter (reportNodesAsSearchResults d resultCollector) a))
  /\ (m_pendingMatchJobs (stateAfter searchCanceled a) = []
      /\ m_searchResults (stateAfter searchCanceled a) = []
      /\ m_matchJobsTimer (stateAfter searchCanceled a) = None)
  /\ (idle a -> searchCanceled a = (tt, a))
  /\ (forall x, length (resultOf (reportNodes_loop d [x])
                          (stateAfter searchCanceled a)) = 1%nat)
  /\ (forall query runSynchronously,
        performSearch q d query runSynchronously a
        = performSearch q d query runSynchronously (stateAfter searchCanceled a)).
Proof.
  pose proof (reportNodes_loop_unseen d resultCollector a) as Hloop.
  destruct (unseen_spec resultCollector (m_searchResults a)) as (Hin & Hall & Hnd).
  assert (m_searchResults (stateAfter (reportNodesAsSearchResults d resultCollector) a)
          = m_searchResults a ++ (ptr <$> unseen (m_searchResults a) resultCollector))
    as Hres.
  { unfold reportNodesAsSearchResults. rewrite stateAfter_bind.
    change (m_searchResults (stateAfter (frontend ?c) ?s)) with (m_searchResults s).
    unfold stateAfter. rewrite Hloop. apply reportEach_results. }
  destruct (searchCanceled_spec a) as (Hp & Hr & Ht).
  split; [done|]. split; [done|]. split.
  { unfold resultOf. rewrite Hloop. apply reportEach_length. }
  split.
  { unfold reportNodesAsSearchResults. by rewrite stateAfter_bind. }
  split; [done|]. split.
  { intros H. rewrite Hres. by apply Hnd. }
  split.
  { intros later Hlater. rewrite reportNodes_loop_unseen, unseen_all_seen; [done|].
    intros n Hn. rewrite Hres. destruct (Hlater n Hn) as [?|?].
    - apply elem_of_app. by left.
    - by apply Hall. }
  split; [done|]. split; [apply searchCanceled_idle|]. split.
  { intros x. unfold resultOf. rewrite reportNodes_loop_unseen, Hr. simpl.
    change (length (resultOf (reportEach d [x]) (stateAfter searchCanceled a)) = 1%nat).
    by rewrite reportEach_length. }
  intros query runSynchronously. unfold performSearch.
  rewrite !(bindM_eq searchCanceled).
  assert (stateAfter searchCanceled (stateAfter searchCanceled a)
          = stateAfter searchCanceled a) as ->; [|done].
  unfold stateAfter at 1. by rewrite searchCanceled_idle.
Qed.

(** ** Whitespace *)


Section Yields.
Context {A : Type} (Q : A -> Prop).




End Yields.



Lemma buildObjectForNode_children node depth M a :
  o_children (resultOf (buildObjectForNode node depth M) a)
  = if isContainerType node
    then
      let children :=
        resultOf (buildArrayForContainerChildren node depth M)
          (stateAfter (innerChildNodeCount node)
             (stateAfter (bind (ptr node) M) a)) in
      if 0 <? Z.of_nat (length children) then Some children else None
    else None.
Proof.
  rewrite buildObjectForNode_unfold, resultOf_bind.
  destruct (match nodeType (info node) with TEXT_NODE => _ | _ => _ end)
    as [[nodeName localName] nodeValue].
  destruct (isContainerType node); [|done].
  by rewrite !resultOf_bind.
Qed.
















(** ** The documents listened to *)

Lemma startListening_spec doc a :
  startListening doc a
  = (tt, if bool_decide (doc ∈ m_documents a) then a
         else set_m_documents (m_documents a ++ [doc]) a).
Proof.
  unfold startListening. unfoldM. simpl. by destruct (bool_decide _).
Qed.

Lemma set_m_documents_same a : set_m_documents (m_documents a) a = a.
Proof. by destruct a. Qed.

Lemma set_m_documents_twice l l' a :
  set_m_documents l (set_m_documents l' a) = set_m_documents l a.
Proof. by destruct a. Qed.

Lemma filter_other_app_self (p : Node) (l : list Node) :
  p ∉ l -> filter (fun x => x ≠ p) (l ++ [p]) = l.
Proof.
  intros H. rewrite filter_app, filter_other_not_elem_of by done.
  rewrite filter_cons_False by (intros ?; done). simpl. by rewrite app_nil_r.
Qed.

(** X1. The set of documents listened to.  After [startListening]
    the document is a member, the earlier members keep their places
    before it (so the main document, the first one, stays the main
    document), no member is repeated, and a second call changes
    nothing.  After [stopListening] it is no member, and the others are
    members as before.  On a document that was not listened to,
    [stopListening] changes nothing, and [startListening] followed by
    [stopListening] gives the state back. *)
Theorem listening_set (doc : Node) (a : Agent) :
  doc ∈ m_documents (stateAfter (startListening doc) a)
  /\ (exists rest, m_documents (stateAfter (startListening doc) a)
                   = m_documents a ++ rest)
  /\ (NoDup (m_documents a) -> NoDup (m_documents (stateAfter (startListening doc) a)))
  /\ startListening doc (stateAfter (startListening doc) a)
     = (tt, stateAfter (startListening doc) a)
  /\ (doc ∉ m_documents (stateAfter (stopListening (Some doc)) a))
  /\ (forall q, q ≠ doc ->
        (q ∈ m_documents (stateAfter (stopListening (Some doc)) a)
         <-> q ∈ m_documents a))
  /\ (NoDup (m_documents a) ->
      NoDup (m_documents (stateAfter (stopListening (Some doc)) a)))
  /\ (doc ∉ m_documents a ->
      stopListening (Some doc) a = (tt, a)
      /\ stateAfter (startListening doc ;; stopListening (Some doc)) a = a).
Proof.
  assert (forall s, stateAfter (startListening doc) s
                    = if bool_decide (doc ∈ m_documents s) then s
                      else set_m_documents (m_documents s ++ [doc]) s) as Hstart.
  { intros s. unfold stateAfter. by rewrite startListening_spec. }
  assert (forall s, stateAfter (stopListening (Some doc)) s
                    = set_m_documents (filter (fun x => x ≠ doc) (m_documents s)) s)
    as Hstop.
  { intros s. unfold stateAfter. by rewrite stopListening_spec. }
  rewrite stateAfter_bind, !Hstop, (run_eq (startListening doc)),
    (run_eq (stopListening (Some doc))), !Hstop, !Hstart.
  destruct (bool_decide_reflect (doc ∈ m_documents a)) as [Hin|Hin]; simpl.
  - split; [done|]. split; [exists []; by rewrite app_nil_r|]. split; [done|].
    split; [rewrite (bool_decide_eq_true_2 _ Hin); by destruct (resultOf _ a)|].
    split; [intros [Hne _]%list_elem_of_filter; by apply Hne|].
    split; [intros q Hq; rewrite list_elem_of_filter; tauto|].
    split; [apply NoDup_filter|done].
  - split; [apply elem_of_app; right; by left|].
    split; [by eexists|].
    split.
    { intros Hnd. apply NoDup_app. split; [done|]. split; [|apply NoDup_singleton].
      intros x Hx ->%list_elem_of_singleton. done. }
    split.
    { rewrite bool_decide_eq_true_2; [by destruct (resultOf _ _)|].
      apply elem_of_app. right. by left. }
    split; [intros [Hne _]%list_elem_of_filter; by apply Hne|].
    split; [intros q Hq; rewrite list_elem_of_filter; tauto|].
    split; [apply NoDup_filter|].
    intros _. split.
    + rewrite filter_other_not_elem_of by done. rewrite set_m_documents_same.
      by destruct (resultOf _ a).
    + rewrite set_m_documents_twice, filter_other_app_self by done.
      apply set_m_documents_same.
Qed.

Lemma filter_all {A} (P : A -> Prop) `{!forall x, Decision (P x)} (l : list A) :
  (forall x, x ∈ l -> P x) -> filter P l = l.
Proof.
  induction l as [|x l IH]; intros Hall; [done|].
  rewrite filter_cons_True by (apply Hall; by left).
  f_equal. apply IH. intros y Hy. apply Hall. by right.
Qed.

Lemma filter_none {A} (P : A -> Prop) `{!forall x, Decision (P x)} (l : list A) :
  (forall x, x ∈ l -> ~ P x) -> filter P l = [].
Proof.
  induction l as [|x l IH]; intros Hall; [done|].
  rewrite filter_cons_False by (apply Hall; by left).
  apply IH. intros y Hy. apply Hall. by right.
Qed.

Lemma forEach_stopListening (L : list Node) : forall a,
  stateAfter (forEach (fun doc => stopListening (Some doc)) L) a
  = set_m_documents (filter (fun x => x ∉ L) (m_documents a)) a.
Proof.
  induction L as [|p L IH]; intros a; cbn [forEach].
  - change (stateAfter (ret tt) a) with a.
    rewrite filter_all; [by rewrite set_m_documents_same|].
    intros x _. apply not_elem_of_nil.
  - rewrite stateAfter_bind, IH.
    assert (stateAfter (stopListening (Some p)) a
            = set_m_documents (filter (fun x => x ≠ p) (m_documents a)) a) as ->.
    { unfold stateAfter. by rewrite stopListening_spec. }
    simpl.
    rewrite set_m_documents_twice, list_filter_filter. f_equal.
    apply list_filter_iff. intros x. rewrite not_elem_of_cons. tauto.
Qed.

Lemma stateAfter_reset s :
  stateAfter reset s
  = mkAgent (cssStore_calls s) (frontend_calls s) (m_lastNodeId s) [] ∅ [] ∅
      (m_idToNodesMap s) ∅ [] [] [] None.
Proof.
  unfold reset. rewrite !stateAfter_bind.
  change (stateAfter (gets _) ?x) with x.
  change (resultOf (gets ?f) ?x) with (f x). cbv beta.
  rewrite forEach_stopListening.
  rewrite filter_none by (intros x Hx Hnot; done).
  unfold searchCanceled, discardBindings, releaseDanglingNodes. unfoldM.
  destruct s as [? ? ? ? ? ? ? ? ? ? ? ? timer]. simpl. by destruct timer.
Qed.

(** X2. [reset] leaves no document listened to (the assertion at its
    end holds), no binding, no detached map, no disclosure flag, no
    inspected node, no pending job, no search result and an idle
    timer; it keeps the counter, so that identifiers are not handed
    out again, and sends nothing.  It is idempotent, and after it no
    identifier resolves. *)
Theorem reset_forgets (a : Agent) :
  stateAfter reset a
  = mkAgent (cssStore_calls a) (frontend_calls a) (m_lastNodeId a) [] ∅ [] ∅
      (m_idToNodesMap a) ∅ [] [] [] None
  /\ reset (stateAfter reset a) = (tt, stateAfter reset a)
  /\ resultOf mainFrameDocument (stateAfter reset a) = None
  /\ (forall id, resultOf (nodeForId id) (stateAfter reset a) = None)
  /\ (forall M p, idOf (stateAfter reset a) M p = 0).
Proof.
  split; [apply stateAfter_reset|]. rewrite !stateAfter_reset.
  split; [|split; [done|split]].
  - rewrite run_eq, stateAfter_reset. simpl. by destruct (resultOf reset _).
  - intros id. unfold nodeForId. by destruct (id =? 0).
  - intros M p. unfold idOf, nodesMapAt. by destruct M.
Qed.

Lemma locateIn_ptr p : forall n up l,
  locateIn p up n = Some l -> ptr (loc_node l) = p.
Proof.
  induction n as [q i c ch IHc IHch] using DomNode_tree_ind. intros up l.
  cbn [locateIn]. cbn [ptr childNodes contentDocument].
  destruct (Pos.eqb_spec q p) as [->|_]; [by intros [= <-]|].
  set (n := mkDomNode q i c ch). clearbody n.
  generalize (@nil DomNode) as before.
  induction IHch as [|x ch Hx _ IHscan]; intros before.
  - destruct c as [doc|]; [|done]. by apply IHc.
  - destruct (locateIn p (ChildOf n before ch :: up) x) as [l'|] eqn:Hl.
    + intros [= <-]. by apply Hx in Hl.
    + apply IHscan.
Qed.

Lemma deref_ptr d p n : deref d p = Some n -> ptr n = p.
Proof.
  unfold deref. induction d as [|root d IH]; simpl; [done|].
  destruct (locateIn p [] root) as [l|] eqn:Hl; [|done].
  simpl. intros [= <-]. by apply locateIn_ptr in Hl.
Qed.

Lemma buildObjectForNode_main node depth M a p :
  head (m_documents a) = Some p ->
  head (m_documents (stateAfter (buildObjectForNode node depth M) a)) = Some p.
Proof.
  apply (keeps_buildObjectForNode (fun s => head (m_documents s) = Some p) M).
  - intros doc s Hs. unfold stateAfter. rewrite startListening_spec. simpl.
    destruct (bool_decide _); [done|]. simpl.
    destruct (m_documents s); [done|]. done.
  - intros q s Hs. unfold bind, NodeToIdMap_get, NodeToIdMap_set. unfoldM. simpl.
    destruct (negb _); [done|]. simpl. unfold updateNodesMap. by destruct M.
Qed.

Lemma setDocument_same d doc a :
  doc = head (m_documents a) -> setDocument d doc a = (tt, a).
Proof.
  intros ->. unfold setDocument. rewrite bindM_eq.
  change (resultOf mainFrameDocument a) with (head (m_documents a)). cbv beta.
  by case_bool_decide.
Qed.

Lemma setDocument_other d doc a :
  doc ≠ head (m_documents a) ->
  setDocument d doc a
  = match doc with
    | Some doc =>
        startListening doc ;;
        match deref d doc ≫= documentElement with
        | Some _ => _ <- pushDocumentToFrontend d ;; ret tt
        | None => ret tt
        end
    | None => frontend (Frontend.setDocument None)
    end (stateAfter reset a).
Proof.
  intros Hne. unfold setDocument. rewrite bindM_eq.
  change (resultOf mainFrameDocument a) with (head (m_documents a)). cbv beta.
  case_bool_decide; [done|]. by rewrite bindM_eq.
Qed.

Lemma pushDocumentToFrontend_eq d a :
  pushDocumentToFrontend d a
  = match head (m_documents a) with
    | None => (false, a)
    | Some p =>
        if bool_decide (is_Some (m_documentNodeToIdMap a !! p)) then (true, a)
        else
          match deref d p with
          | Some n =>
              (true,
               set_frontend_calls
                 (frontend_calls (stateAfter (buildObjectForNode n 2 DocumentMap) a)
                    ++ [Frontend.setDocument
                          (Some (resultOf (buildObjectForNode n 2 DocumentMap) a))])
                 (stateAfter (buildObjectForNode n 2 DocumentMap) a))
          | None => (true, a)
          end
    end.
Proof.
  unfold pushDocumentToFrontend. rewrite bindM_eq.
  change (resultOf mainFrameDocument a) with (head (m_documents a)).
  change (stateAfter mainFrameDocument a) with a. cbv beta.
  destruct (head (m_documents a)) as [p|]; [|done].
  rewrite bindM_eq.
  change (resultOf (gets ?f) ?x) with (f x).
  change (stateAfter (gets ?f) ?x) with x. cbv beta.
  destruct (bool_decide _); simpl; [done|].
  destruct (deref d p) as [n|]; [|done].
  rewrite !bindM_eq, stateAfter_bind. done.
Qed.

(** X3. [setDocument] does nothing when it is given the main document
    again.  Given the null document it resets the agent and sends
    [setDocument(null)].  Given another document it resets the agent
    and listens to the document alone; if the document has a document
    element it sends one [setDocument] with the description of depth
    2 of the document, which carries the value of the counter as
    identifier and is the identifier of the document from then on;
    the document is the main document.  Without a document element
    nothing is sent. *)
Theorem setDocument_spec (d : Dom) (doc : option Node) (a : Agent) :
  (doc = head (m_documents a) -> setDocument d doc a = (tt, a))
  /\ (doc ≠ head (m_documents a) ->
      match doc with
      | None =>
          setDocument d None a
          = (tt, set_frontend_calls (frontend_calls a ++ [Frontend.setDocument None])
                   (stateAfter reset a))
      | Some p =>
          let s0 := set_m_documents [p] (stateAfter reset a) in
          match deref d p ≫= (fun n => _ ← documentElement n; Some n) with
          | Some n =>
              let root := resultOf (buildObjectForNode n 2 DocumentMap) s0 in
              let a' := stateAfter (setDocument d (Some p)) a in
              frontend_calls a' = frontend_calls a ++ [Frontend.setDocument (Some root)]
              /\ o_id root = m_lastNodeId a
              /\ resultOf mainFrameDocument a' = Some p
              /\ (m_lastNodeId a ≠ 0 -> idOf a' DocumentMap p = m_lastNodeId a)
          | None => setDocument d (Some p) a = (tt, s0)
          end
      end).
Proof.
  pose proof (stateAfter_reset a) as Hreset.
  split; [apply setDocument_same|].
  intros Hne. destruct doc as [p|]; cbv zeta.
  - assert (stateAfter (startListening p) (stateAfter reset a)
            = set_m_documents [p] (stateAfter reset a)) as Hstart.
    { assert (m_documents (stateAfter reset a) = []) as Hdocs by (by rewrite Hreset).
      unfold stateAfter at 1. rewrite startListening_spec, Hdocs. simpl.
      done. }
    set (s0 := set_m_documents [p] (stateAfter reset a)) in *.
    assert (setDocument d (Some p) a
            = match deref d p ≫= documentElement with
              | Some _ => _ <- pushDocumentToFrontend d ;; ret tt
              | None => ret tt
              end s0) as Hset.
    { rewrite setDocument_other by done. by rewrite bindM_eq, Hstart. }
    destruct (deref d p) as [n|] eqn:Hderef; simpl in *; [|done].
    destruct (documentElement n) as [e|] eqn:He; simpl; [|done].
    assert (ptr n = p) as Hptr by (by apply deref_ptr in Hderef).
    assert (pushDocumentToFrontend d s0
            = (true,
               set_frontend_calls
                 (frontend_calls (stateAfter (buildObjectForNode n 2 DocumentMap) s0)
                    ++ [Frontend.setDocument
                          (Some (resultOf (buildObjectForNode n 2 DocumentMap) s0))])
                 (stateAfter (buildObjectForNode n 2 DocumentMap) s0))) as Hpush.
    { rewrite pushDocumentToFrontend_eq.
      assert (head (m_documents s0) = Some p) as -> by done.
      assert (m_documentNodeToIdMap s0 = ∅) as -> by (subst s0; by rewrite Hreset).
      rewrite lookup_empty, Hderef. by case_bool_decide as Hs; [destruct Hs|]. }
    assert (stateAfter (setDocument d (Some p)) a
            = set_frontend_calls
                 (frontend_calls (stateAfter (buildObjectForNode n 2 DocumentMap) s0)
                    ++ [Frontend.setDocument
                          (Some (resultOf (buildObjectForNode n 2 DocumentMap) s0))])
                 (stateAfter (buildObjectForNode n 2 DocumentMap) s0)) as ->.
    { unfold stateAfter at 1. rewrite Hset, bindM_eq.
      unfold stateAfter at 1. by rewrite Hpush. }
    simpl.
    assert (idOf s0 DocumentMap (ptr n) = 0) as Hunbound.
    { subst s0. by rewrite Hreset. }
    assert (m_lastNodeId s0 = m_lastNodeId a) as Hcounter.
    { subst s0. by rewrite Hreset. }
    split; [|split; [|split]].
    + rewrite buildObjectForNode_frontend. subst s0. by rewrite Hreset.
    + rewrite buildObjectForNode_id.
      destruct (bind_fresh (ptr n) DocumentMap s0 Hunbound) as (-> & _). done.
    + change (head (m_documents
                      (stateAfter (buildObjectForNode n 2 DocumentMap) s0)) = Some p).
      apply buildObjectForNode_main. subst s0. by rewrite Hreset.
    + intros Hcnt. rewrite <- Hptr, <- Hcounter.
      change (idOf (stateAfter (buildObjectForNode n 2 DocumentMap) s0)
                DocumentMap (ptr n) = m_lastNodeId s0).
      apply buildObjectForNode_binds; [done|]. by rewrite Hcounter.
  - rewrite setDocument_other by done. rewrite frontend_eq.
    assert (frontend_calls (stateAfter reset a) = frontend_calls a) as ->
      by (by rewrite Hreset).
    done.
Qed.

Lemma idOf_is_Some a p :
  idOf a DocumentMap p ≠ 0 -> is_Some (m_documentNodeToIdMap a !! p).
Proof.
  unfold idOf. simpl. destruct (m_documentNodeToIdMap a !! p); [by eexists|done].
Qed.

(** X4. [pushDocumentToFrontend] answers [false], and changes
    nothing, exactly when no document is listened to.  Where the main
    document is a node of the tree, a second call answers as the first
    and changes nothing: the document is described once. *)
Theorem pushDocumentToFrontend_once (d : Dom) (a : Agent) :
  m_lastNodeId a ≠ 0 ->
  (forall p, head (m_documents a) = Some p -> is_Some (deref d p)) ->
  (resultOf (pushDocumentToFrontend d) a = false <-> m_documents a = [])
  /\ (m_documents a = [] -> pushDocumentToFrontend d a = (false, a))
  /\ pushDocumentToFrontend d (stateAfter (pushDocumentToFrontend d) a)
     = (resultOf (pushDocumentToFrontend d) a, stateAfter (pushDocumentToFrontend d) a).
Proof.
  intros Hcnt Hderef.
  destruct (m_documents a) as [|p docs] eqn:Hdocs.
  { assert (pushDocumentToFrontend d a = (false, a)) as Hpush.
    { by rewrite pushDocumentToFrontend_eq, Hdocs. }
    unfold resultOf, stateAfter. rewrite !Hpush. simpl. rewrite Hpush.
    split; [split; done|split; done]. }
  assert (head (m_documents a) = Some p) as Hhead by (by rewrite Hdocs).
  assert (exists s, pushDocumentToFrontend d a = (true, s)
                    /\ head (m_documents s) = Some p
                    /\ is_Some (m_documentNodeToIdMap s !! p)) as (s & Hpush & Hs & Hb).
  { rewrite pushDocumentToFrontend_eq, Hhead.
    case_bool_decide as Hbound; [by exists a|].
    destruct (Hderef p eq_refl) as [n Hn]. rewrite Hn.
    assert (ptr n = p) as Hptr by (by apply deref_ptr in Hn).
    assert (idOf a DocumentMap (ptr n) = 0) as Hunbound.
    { unfold idOf. simpl. rewrite Hptr.
      destruct (m_documentNodeToIdMap a !! p) eqn:E; [|done].
      exfalso. apply Hbound. by eexists. }
    destruct (buildObjectForNode_binds n 2 a Hunbound Hcnt) as [_ Hid].
    eexists. split; [done|]. simpl. split.
    - by apply buildObjectForNode_main.
    - apply idOf_is_Some. rewrite <- Hptr, Hid. done. }
  unfold resultOf, stateAfter. rewrite !Hpush. simpl.
  split; [split; done|]. split; [done|].
  rewrite pushDocumentToFrontend_eq, Hs. by rewrite bool_decide_eq_true_2.
Qed.

Lemma pushDocumentToFrontend_once_witness :
  pushDocumentToFrontend exDom (stateAfter (pushDocumentToFrontend exDom) exListening)
  = (true, stateAfter (pushDocumentToFrontend exDom) exListening).
Proof.
  assert (m_lastNodeId exListening ≠ 0) as Hcnt by done.
  assert (forall p, head (m_documents exListening) = Some p -> is_Some (deref exDom p))
    as Hderef.
  { intros p [= <-]. by eexists. }
  destruct (pushDocumentToFrontend_once exDom exListening Hcnt Hderef) as (_ & _ & H).
  exact H.
Defined.

(** ** The inspected nodes *)

Lemma inspectedNode_eq num a :
  inspectedNode num a = (default 0 (m_inspectedNodes a !! N.to_nat num), a).
Proof.
  unfold inspectedNode. unfoldM. simpl.
  destruct (N.ltb_spec num (N.of_nat (length (m_inspectedNodes a)))) as [H|H]; [done|].
  rewrite lookup_ge_None_2; [done|]. lia.
Qed.

(** X5. The inspected nodes are the five most recent ones, newest
    first: after [addInspectedNode(id)], [inspectedNode(0)] is [id],
    [inspectedNode(k + 1)] is what [inspectedNode(k)] was for
    [k < 4], and [inspectedNode(k)] is 0 from [k = 5] on; the vector
    never holds more than five entries, and [inspectedNode] changes
    nothing. *)
Theorem inspected_nodes_recent_five (nodeId : Z) (a : Agent) :
  resultOf (inspectedNode 0) (stateAfter (addInspectedNode nodeId) a) = nodeId
  /\ (forall k, (k < 4)%N ->
        resultOf (inspectedNode (k + 1)) (stateAfter (addInspectedNode nodeId) a)
        = resultOf (inspectedNode k) a)
  /\ (forall k, (5 <= k)%N ->
        resultOf (inspectedNode k) (stateAfter (addInspectedNode nodeId) a) = 0)
  /\ (length (m_inspectedNodes (stateAfter (addInspectedNode nodeId) a)) <= 5)%nat
  /\ (forall k s, stateAfter (inspectedNode k) s = s).
Proof.
  unfold resultOf, stateAfter. 
  assert (m_inspectedNodes (snd (addInspectedNode nodeId a))
          = take 5 (nodeId :: m_inspectedNodes a)) as Hadd by done.
  split; [|split; [|split; [|split]]].
  - by rewrite inspectedNode_eq, Hadd.
  - intros k Hk. rewrite !inspectedNode_eq, Hadd. cbn [snd fst].
    rewrite lookup_take_lt by lia.
    replace (N.to_nat (k + 1)) with (S (N.to_nat k)) by lia. done.
  - intros k Hk. rewrite inspectedNode_eq, Hadd. cbn [snd fst].
    rewrite lookup_take_ge by lia. done.
  - rewrite Hadd, length_take. lia.
  - intros k s. by rewrite inspectedNode_eq.
Qed.

(** ** Events *)

Lemma buildObjectForNode_requested node depth M a :
  m_childrenRequested (stateAfter (buildObjectForNode node depth M) a)
  = m_childrenRequested a.
Proof.
  apply (keeps_buildObjectForNode
           (fun s => m_childrenRequested s = m_childrenRequested a) M); [| |done].
  - intros doc s Hs. unfold stateAfter. rewrite startListening_spec. simpl.
    by destruct (bool_decide _).
  - intros q s Hs. unfold bind, NodeToIdMap_get, NodeToIdMap_set. unfoldM. simpl.
    destruct (negb _); [done|]. simpl. unfold updateNodesMap. by destruct M.
Qed.

Lemma stateAfter_discardBindings a :
  stateAfter discardBindings a
  = mkAgent (cssStore_calls a) (frontend_calls a) (m_lastNodeId a) (m_documents a)
      ∅ [] ∅ (m_idToNodesMap a) ∅ [] (m_pendingMatchJobs a) (m_searchResults a)
      (m_matchJobsTimer a).
Proof. done. Qed.

(** X6. [handleEvent].  On [DOMContentLoaded] every binding is
    discarded and the main document is described again: with no
    document listened to nothing is sent; with a main document that is
    a node of the tree exactly one [setDocument] is sent, whose record
    carries the value of the counter, and no node is flagged as
    disclosed.  On [load], a target without identifier is ignored; a
    target whose children are not disclosed gets one
    [childNodeCountUpdated] with its count in the traversal view; a
    target whose children are disclosed is taken out and put back with
    [childNodeRemoved] and [childNodeInserted], the record carrying
    the identifier the target had, and its disclosure flag is
    cleared. *)
Theorem handleEvent_spec (d : Dom) (node : DomNode) (a : Agent) :
  (m_documents a = [] ->
   handleEvent d DOMContentLoadedEvent node a = (tt, stateAfter discardBindings a))
  /\ (forall p n, head (m_documents a) = Some p -> deref d p = Some n ->
        let a' := stateAfter (handleEvent d DOMContentLoadedEvent node) a in
        let root := resultOf (buildObjectForNode n 2 DocumentMap)
                      (stateAfter discardBindings a) in
        frontend_calls a' = frontend_calls a ++ [Frontend.setDocument (Some root)]
        /\ o_id root = m_lastNodeId a
        /\ m_childrenRequested a' = ∅
        /\ m_inspectedNodes a' = [])
  /\ (idOf a DocumentMap (ptr node) = 0 -> handleEvent d loadEvent node a = (tt, a))
  /\ (idOf a DocumentMap (ptr node) ≠ 0 ->
      idOf a DocumentMap (ptr node) ∉ m_childrenRequested a ->
      handleEvent d loadEvent node a
      = (tt, set_frontend_calls
               (frontend_calls a
                  ++ [Frontend.childNodeCountUpdated (idOf a DocumentMap (ptr node))
                        (Z.of_nat (length (innerChildren node)))])
               (listenTo node a)))
  /\ (idOf a DocumentMap (ptr node) ≠ 0 ->
      idOf a DocumentMap (ptr node) ∈ m_childrenRequested a ->
      let id := idOf a DocumentMap (ptr node) in
      let parentId :=
        resultOf (NodeToIdMap_get_opt DocumentMap (innerParentNode d node)) a in
      let a1 := set_frontend_calls
                  (frontend_calls a ++ [Frontend.childNodeRemoved parentId id]) a in
      let value := resultOf (buildObjectForNode node 0 DocumentMap) a1 in
      let a2 := stateAfter (buildObjectForNode node 0 DocumentMap) a1 in
      let prevId :=
        resultOf (NodeToIdMap_get_opt DocumentMap (innerPreviousSibling d node)) a2 in
      let a' := stateAfter (handleEvent d loadEvent node) a in
      frontend_calls a'
      = frontend_calls a
        ++ [Frontend.childNodeRemoved parentId id;
            Frontend.childNodeInserted parentId prevId value]
      /\ o_id value = id
      /\ idOf a' DocumentMap (ptr node) = id
      /\ id ∉ m_childrenRequested a').
Proof.
  split; [|split; [|split; [|split]]].
  - intros Hdocs. unfold handleEvent. rewrite !bindM_eq.
    unfold stateAfter at 1. rewrite pushDocumentToFrontend_eq.
    assert (head (m_documents (stateAfter discardBindings a)) = None) as ->
      by (simpl; by rewrite Hdocs).
    done.
  - intros p n Hhead Hderef a' root.
    assert (a' = set_frontend_calls
                   (frontend_calls (stateAfter (buildObjectForNode n 2 DocumentMap)
                                      (stateAfter discardBindings a))
                      ++ [Frontend.setDocument (Some root)])
                   (stateAfter (buildObjectForNode n 2 DocumentMap)
                      (stateAfter discardBindings a))) as ->.
    { subst a' root. unfold handleEvent. rewrite !stateAfter_bind.
      change (stateAfter (ret tt) ?x) with x.
      unfold stateAfter at 1. rewrite pushDocumentToFrontend_eq.
      assert (head (m_documents (stateAfter discardBindings a)) = Some p) as -> by done.
      assert (m_documentNodeToIdMap (stateAfter discardBindings a) = ∅) as -> by done.
      rewrite lookup_empty, Hderef. by case_bool_decide as Hs; [destruct Hs|]. }
    simpl. split; [|split; [|split]].
    + by rewrite buildObjectForNode_frontend.
    + subst root. rewrite buildObjectForNode_id.
      assert (idOf (stateAfter discardBindings a) DocumentMap (ptr n) = 0) as Hz by done.
      destruct (bind_fresh (ptr n) DocumentMap _ Hz) as (-> & _). done.
    + by rewrite buildObjectForNode_requested.
    + apply (keeps_buildObjectForNode (fun s => m_inspectedNodes s = []) DocumentMap);
        [| |done].
      * intros doc s Hs. unfold stateAfter. rewrite startListening_spec. simpl.
        by destruct (bool_decide _).
      * intros q s Hs. unfold bind, NodeToIdMap_get, NodeToIdMap_set. unfoldM. simpl.
        destruct (negb _); [done|]. done.
  - intros Hz. unfold handleEvent. rewrite bindM_eq.
    change (resultOf (NodeToIdMap_get DocumentMap (ptr node)) a)
      with (idOf a DocumentMap (ptr node)).
    by rewrite Hz.
  - intros Hne Hnot. unfold handleEvent. rewrite bindM_eq.
    change (resultOf (NodeToIdMap_get DocumentMap (ptr node)) a)
      with (idOf a DocumentMap (ptr node)).
    change (stateAfter (NodeToIdMap_get DocumentMap (ptr node)) a) with a.
    destruct (Z.eqb_spec (idOf a DocumentMap (ptr node)) 0) as [|_]; [done|].
    rewrite bindM_eq.
    change (resultOf (gets ?f) ?x) with (f x).
    change (stateAfter (gets ?f) ?x) with x. cbv beta.
    rewrite bool_decide_eq_false_2 by done. simpl.
    rewrite bindM_eq. unfold resultOf, stateAfter.
    rewrite innerChildNodeCount_spec. simpl. rewrite frontend_eq.
    by rewrite (ur_frontend _ _ _ (unbindRel_listenTo DocumentMap node a)).
  - intros Hne Hin id parentId a1 value a2 prevId a'.
    assert (a' = set_m_childrenRequested (m_childrenRequested a2 ∖ {[id]})
                   (set_frontend_calls
                      (frontend_calls a2
                         ++ [Frontend.childNodeInserted parentId prevId value]) a2))
      as ->.
    { subst a'. unfold handleEvent. rewrite stateAfter_bind.
      change (resultOf (NodeToIdMap_get DocumentMap (ptr node)) a) with id.
      change (stateAfter (NodeToIdMap_get DocumentMap (ptr node)) a) with a.
      destruct (Z.eqb_spec id 0) as [|_]; [done|].
      rewrite stateAfter_bind.
      change (resultOf (gets ?f) ?x) with (f x).
      change (stateAfter (gets ?f) ?x) with x. cbv beta.
      rewrite bool_decide_eq_true_2 by done. simpl.
      rewrite stateAfter_bind. fold parentId.
      assert (stateAfter (NodeToIdMap_get_opt DocumentMap (innerParentNode d node)) a = a)
        as -> by (by destruct (innerParentNode d node)).
      rewrite stateAfter_bind.
      change (stateAfter (frontend (Frontend.childNodeRemoved parentId id)) a) with a1.
      rewrite stateAfter_bind. fold value a2.
      rewrite stateAfter_bind. fold prevId.
      assert (stateAfter (NodeToIdMap_get_opt DocumentMap (innerPreviousSibling d node)) a2
              = a2) as -> by (by destruct (innerPreviousSibling d node)).
      by rewrite stateAfter_bind. }
    assert (idOf a1 DocumentMap (ptr node) = id) as Hid1 by done.
    simpl. split; [|split; [|split]].
    + subst a2. rewrite buildObjectForNode_frontend. simpl.
      by rewrite <- app_assoc.
    + subst value. rewrite buildObjectForNode_id.
      unfold resultOf. rewrite bind_bound; [done|]. by rewrite Hid1.
    + change (idOf a2 DocumentMap (ptr node) = id).
      subst a2. rewrite buildObjectForNode_keeps_bound; [done|]. by rewrite Hid1.
    + intros [_ Hn]%elem_of_difference. apply Hn. by apply elem_of_singleton.
Qed.

(** ** Disclosing the children *)

Lemma forInnerSiblings_length {A} (body : DomNode -> M A) chain : forall a,
  length (resultOf (forInnerSiblings body chain) a)
  = length (filter (fun x => visible x = true) chain).
Proof.
  induction chain as [|c chain IH]; intros a; simpl; [done|].
  destruct (isWhitespace c) eqn:Hc.
  - rewrite filter_cons_False by (unfold visible; by rewrite Hc). apply IH.
  - rewrite filter_cons_True by (unfold visible; by rewrite Hc). rewrite !resultOf_bind. simpl. by rewrite IH.
Qed.

Lemma forInnerChildren_length {A} (body : DomNode -> M A) node a :
  length (resultOf (forInnerChildren body node) a) = length (innerChildren node).
Proof.
  unfold forInnerChildren, innerChildren, frameDocument, ifFrameDocument.
  destruct (contentDocument node) as [doc|].
  - destruct (isFrameOwnerElement (info node)).
    + rewrite resultOf_bind.
      destruct (childNodes doc) as [|c chain]; [done|].
      rewrite !resultOf_bind. simpl. by rewrite forInnerSiblings_length.
    + apply forInnerSiblings_length.
  - apply forInnerSiblings_length.
Qed.

Lemma onFirstVisible_eq {A} (body : DomNode -> M A) chain a :
  onFirstVisible body chain a
  = match filter (fun x => visible x = true) chain with
    | [] => (None, a)
    | c :: _ => (Some (resultOf (body c) a), stateAfter (body c) a)
    end.
Proof.
  induction chain as [|c chain IH]; simpl; [done|].
  destruct (isWhitespace c) eqn:Hc.
  - rewrite filter_cons_False by (unfold visible; by rewrite Hc). apply IH.
  - rewrite filter_cons_True by (unfold visible; by rewrite Hc). by rewrite bindM_eq.
Qed.

Lemma withInnerFirstChild_eq {A} (body : DomNode -> M A) node a :
  withInnerFirstChild body node a
  = match innerChildren node with
    | [] => (None, listenTo node a)
    | c :: _ => (Some (resultOf (body c) (listenTo node a)),
                 stateAfter (body c) (listenTo node a))
    end.
Proof.
  unfold withInnerFirstChild, innerChildren, listenTo, frameDocument, ifFrameDocument.
  destruct (contentDocument node) as [doc|].
  - destruct (isFrameOwnerElement (info node)).
    + rewrite bindM_eq. destruct (childNodes doc) as [|c chain]; [done|].
      by rewrite bindM_eq.
    + apply onFirstVisible_eq.
  - apply onFirstVisible_eq.
Qed.

Lemma buildArrayForContainerChildren_length container depth M a :
  depth ≠ 0 ->
  length (resultOf (buildArrayForContainerChildren container depth M) a)
  = length (innerChildren container).
Proof.
  intros Hd. unfold buildArrayForContainerChildren, buildArrayForContainerChildren_with.
  destruct (Z.eqb_spec depth 0) as [|_]; [done|]. apply forInnerChildren_length.
Qed.

Lemma buildArrayForContainerChildren_zero container M a :
  resultOf (buildArrayForContainerChildren container 0 M) a
  = match innerChildren container with
    | [c] =>
        if hasType c TEXT_NODE
        then [resultOf (buildObjectForNode c 0 M) (listenTo container (listenTo container a))]
        else []
    | _ => []
    end.
Proof.
  unfold buildArrayForContainerChildren, buildArrayForContainerChildren_with.
  change (0 =? 0) with true. cbv iota.
  rewrite resultOf_bind. unfold resultOf at 2, stateAfter at 1.
  rewrite innerChildNodeCount_spec. cbn [fst snd].
  destruct (Z.eqb_spec (Z.of_nat (length (innerChildren container))) 1) as [Hone|Hne].
  - destruct (innerChildren container) as [|c [|c' rest]] eqn:Hch;
      [simpl in Hone; lia| |simpl in Hone; lia].
    rewrite resultOf_bind. unfold resultOf at 2. rewrite withInnerFirstChild_eq, Hch.
    simpl. destruct (hasType c TEXT_NODE); [|done]. by rewrite resultOf_bind.
  - destruct (innerChildren container) as [|c [|c' rest]] eqn:Hch; try done.
Qed.

Lemma buildObjectForNode_fields node depth M a :
  o_nodeType (resultOf (buildObjectForNode node depth M) a)
  = nodeTypeCode (nodeType (info node))
  /\ o_childNodeCount (resultOf (buildObjectForNode node depth M) a)
     = if isContainerType node
       then Some (Z.of_nat (length (innerChildren node))) else None.
Proof.
  rewrite buildObjectForNode_unfold, resultOf_bind.
  destruct (match nodeType (info node) with TEXT_NODE => _ | _ => _ end)
    as [[nodeName localName] nodeValue].
  destruct (isContainerType node); [|done].
  rewrite !resultOf_bind. simpl. split; [done|].
  unfold resultOf at 1. by rewrite innerChildNodeCount_spec.
Qed.

(** X7. The description [buildObjectForNode] builds.  It carries the
    node type; for an element, a document or a document fragment it
    carries the number of children in the traversal view, and for no
    other node.  With a depth other than 0 the children array holds
    one record for each child of the traversal view, and is left out
    when there is none.  With depth 0 children are left out, except
    that a container whose one child in the traversal view is a text
    node carries the record of that text node. *)
Theorem buildObjectForNode_shape (node : DomNode) (depth : Z) (nodesMap : MapRef)
    (a : Agent) :
  let v := resultOf (buildObjectForNode node depth nodesMap) a in
  o_nodeType v = nodeTypeCode (nodeType (info node))
  /\ o_childNodeCount v
     = (if isContainerType node
        then Some (Z.of_nat (length (innerChildren node))) else None)
  /\ (isContainerType node = false -> o_children v = None)
  /\ (isContainerType node = true -> depth ≠ 0 ->
      match o_children v with
      | Some children =>
          length children = length (innerChildren node) /\ innerChildren node ≠ []
      | None => innerChildren node = []
      end)
  /\ (isContainerType node = true -> depth = 0 ->
      match innerChildren node with
      | [c] =>
          if hasType c TEXT_NODE
          then exists r, o_children v = Some [r]
                         /\ o_nodeType r = nodeTypeCode TEXT_NODE
          else o_children v = None
      | _ => o_children v = None
      end).
Proof.
  intros v. subst v.
  destruct (buildObjectForNode_fields node depth nodesMap a) as [Htype Hcount].
  split; [done|]. split; [done|].
  rewrite buildObjectForNode_children.
  split; [by intros ->|]. split.
  - intros -> Hd. cbv zeta.
    pose proof (buildArrayForContainerChildren_length node depth nodesMap
                  (stateAfter (innerChildNodeCount node)
                     (stateAfter (bind (ptr node) nodesMap) a)) Hd) as Hlen.
    destruct (Z.ltb_spec 0 (Z.of_nat (length (resultOf
               (buildArrayForContainerChildren node depth nodesMap)
               (stateAfter (innerChildNodeCount node)
                  (stateAfter (bind (ptr node) nodesMap) a)))))) as [Hpos|Hzero].
    + split; [done|]. intros Hnil. rewrite Hlen, Hnil in Hpos. simpl in Hpos. lia.
    + rewrite Hlen in Hzero. destruct (innerChildren node); [done|simpl in Hzero; lia].
  - intros -> ->. cbv zeta. rewrite buildArrayForContainerChildren_zero.
    destruct (innerChildren node) as [|c [|c' rest]]; try done.
    destruct (hasType c TEXT_NODE) eqn:Htext; [|done].
    eexists. split; [done|].
    destruct (buildObjectForNode_fields c 0 nodesMap
                (listenTo node (listenTo node
                   (stateAfter (innerChildNodeCount node)
                      (stateAfter (bind (ptr node) nodesMap) a))))) as [-> _].
    unfold hasType, NodeType_eqb in Htext. by apply Z.eqb_eq in Htext.
Qed.

Lemma pushChildNodesToFrontend_eq d nodeId a :
  pushChildNodesToFrontend d nodeId a
  = (tt,
     match resultOf (nodeForId nodeId) a ≫= deref d with
     | Some node =>
         if isContainerType node && negb (bool_decide (nodeId ∈ m_childrenRequested a))
         then
           match m_idToNodesMap a !! nodeId with
           | Some nodeMap =>
               let s := stateAfter (buildArrayForContainerChildren node 1 nodeMap) a in
               set_frontend_calls
                 (frontend_calls s
                    ++ [Frontend.setChildNodes nodeId
                          (resultOf (buildArrayForContainerChildren node 1 nodeMap) a)])
                 (set_m_childrenRequested ({[nodeId]} ∪ m_childrenRequested s) s)
           | None => a
           end
         else a
     | None => a
     end).
Proof.
  unfold pushChildNodesToFrontend. rewrite bindM_eq.
  assert (stateAfter (nodeForId nodeId) a = a) as ->.
  { unfold nodeForId. by destruct (nodeId =? 0). }
  destruct (resultOf (nodeForId nodeId) a ≫= deref d) as [node|]; [|done].
  destruct (isContainerType node); simpl; [|done].
  rewrite bindM_eq.
  change (resultOf (gets ?f) ?x) with (f x).
  change (stateAfter (gets ?f) ?x) with x. cbv beta.
  destruct (bool_decide (nodeId ∈ m_childrenRequested a)); simpl; [done|].
  rewrite bindM_eq.
  change (resultOf (gets ?f) ?x) with (f x).
  change (stateAfter (gets ?f) ?x) with x. cbv beta.
  destruct (m_idToNodesMap a !! nodeId) as [nodeMap|]; [|done].
  by rewrite !bindM_eq.
Qed.

Lemma pushChildNodesToFrontend_requested d nodeId a :
  nodeId ∈ m_childrenRequested a -> pushChildNodesToFrontend d nodeId a = (tt, a).
Proof.
  intros Hin. rewrite pushChildNodesToFrontend_eq.
  destruct (_ ≫= deref d) as [node|]; [|done].
  rewrite bool_decide_eq_true_2 by done. by rewrite andb_false_r.
Qed.

(** X8. [pushChildNodesToFrontend] and [getChildNodes].  An
    identifier that resolves to no node of the tree, or to a node that
    is no container, or whose children are disclosed already, changes
    nothing.  Otherwise one [setChildNodes] is sent with one record
    for each child of the traversal view, and the identifier is
    flagged as disclosed.  A second call changes nothing.
    [getChildNodes] answers with [didGetChildNodes] in every case. *)
Theorem pushChildNodesToFrontend_once (d : Dom) (nodeId : Z) (a : Agent) :
  (resultOf (nodeForId nodeId) a ≫= deref d = None ->
   pushChildNodesToFrontend d nodeId a = (tt, a))
  /\ (forall node, resultOf (nodeForId nodeId) a ≫= deref d = Some node ->
        isContainerType node = false \/ nodeId ∈ m_childrenRequested a ->
        pushChildNodesToFrontend d nodeId a = (tt, a))
  /\ (forall node nodeMap,
        resultOf (nodeForId nodeId) a ≫= deref d = Some node ->
        isContainerType node = true -> nodeId ∉ m_childrenRequested a ->
        m_idToNodesMap a !! nodeId = Some nodeMap ->
        let a' := stateAfter (pushChildNodesToFrontend d nodeId) a in
        let children :=
          resultOf (buildArrayForContainerChildren node 1 nodeMap) a in
        frontend_calls a' = frontend_calls a ++ [Frontend.setChildNodes nodeId children]
        /\ length children = length (innerChildren node)
        /\ nodeId ∈ m_childrenRequested a')
  /\ pushChildNodesToFrontend d nodeId (stateAfter (pushChildNodesToFrontend d nodeId) a)
     = (tt, stateAfter (pushChildNodesToFrontend d nodeId) a)
  /\ (forall callId,
        frontend_calls (stateAfter (getChildNodes d callId nodeId) a)
        = frontend_calls (stateAfter (pushChildNodesToFrontend d nodeId) a)
          ++ [Frontend.didGetChildNodes callId]).
Proof.
  split; [|split; [|split; [|split]]].
  - intros Hnone. by rewrite pushChildNodesToFrontend_eq, Hnone.
  - intros node Hnode [Hc|Hr]; rewrite pushChildNodesToFrontend_eq, Hnode.
    + by rewrite Hc.
    + rewrite bool_decide_eq_true_2 by done. by rewrite andb_false_r.
  - intros node nodeMap Hnode Hc Hr Hmap a' children.
    assert (a' = let s := stateAfter (buildArrayForContainerChildren node 1 nodeMap) a in
                 set_frontend_calls
                   (frontend_calls s ++ [Frontend.setChildNodes nodeId children])
                   (set_m_childrenRequested ({[nodeId]} ∪ m_childrenRequested s) s))
      as ->.
    { subst a'. unfold stateAfter at 1.
      rewrite pushChildNodesToFrontend_eq, Hnode, Hc, Hmap.
      by rewrite bool_decide_eq_false_2. }
    simpl. split; [|split].
    + f_equal.
      apply (keeps_buildArrayForContainerChildren
               (fun s => frontend_calls s = frontend_calls a) buildObjectForNode);
        [| |done].
      * intros doc s Hs. by rewrite startListening_frontend.
      * intros c depth' _ s Hs. by rewrite buildObjectForNode_frontend.
    + by apply buildArrayForContainerChildren_length.
    + apply elem_of_union. left. by apply elem_of_singleton.
  - unfold stateAfter. rewrite (pushChildNodesToFrontend_eq d nodeId a).
    cbn [snd].
    destruct (_ ≫= deref d) as [node|] eqn:Hnode;
      [|by rewrite pushChildNodesToFrontend_eq, Hnode].
    destruct (isContainerType node) eqn:Hc; simpl;
      [|by rewrite pushChildNodesToFrontend_eq, Hnode, Hc].
    destruct (bool_decide_reflect (nodeId ∈ m_childrenRequested a)) as [Hr|Hr]; simpl.
    { by apply pushChildNodesToFrontend_requested. }
    destruct (m_idToNodesMap a !! nodeId) as [nodeMap|] eqn:Hmap.
    + apply pushChildNodesToFrontend_requested. simpl.
      apply elem_of_union. left. by apply elem_of_singleton.
    + rewrite pushChildNodesToFrontend_eq, Hnode, Hc, Hmap.
      by rewrite bool_decide_eq_false_2.
  - intros callId. unfold getChildNodes. by rewrite stateAfter_bind.
Qed.

(** ** The maps and the index agree *)

Lemma bind_fresh_index node M a :
  idOf a M node = 0 ->
  m_idToNode (stateAfter (bind node M) a) = <[m_lastNodeId a := node]> (m_idToNode a)
  /\ m_idToNodesMap (stateAfter (bind node M) a)
     = <[m_lastNodeId a := M]> (m_idToNodesMap a).
Proof.
  intros Hz. unfold bind, NodeToIdMap_get, NodeToIdMap_set. unfoldM. simpl.
  rewrite Hz. simpl. unfold updateNodesMap. by destruct M.
Qed.

Lemma resolves_afterFrame node a : resolves a -> resolves (afterFrame node a).
Proof.
  intros H M p. rewrite idOf_afterFrame.
  destruct (afterFrame_same node a) as (_ & _ & -> & _).
  rewrite (ur_idToNodesMap _ _ _ (unbindRel_afterFrame DocumentMap node a)).
  apply H.
Qed.

Lemma resolves_removeOwn node M a : resolves a -> resolves (removeOwn node M a).
Proof.
  intros H M' p. rewrite removeOwn_idOf, removeOwn_idToNode.
  rewrite (ur_idToNodesMap _ _ _ (unbindRel_removeOwn M node a)).
  destruct (decide (M = M' /\ ptr node = p)) as [|Hother]; [done|].
  intros Hne. destruct (H M' p Hne) as [H1 H2]. split; [|done].
  rewrite lookup_delete_ne; [done|]. intros Heq.
  assert (idOf a M (ptr node) ≠ 0) as Hne' by congruence.
  destruct (H M (ptr node) Hne') as [H3 H4].
  rewrite Heq in H3, H4. apply Hother. split; congruence.
Qed.

Lemma resolves_startListening doc : keeps resolves (startListening doc).
Proof.
  intros s Hs M p. rewrite startListening_idOf.
  unfold stateAfter. rewrite startListening_spec. simpl.
  destruct (bool_decide _); apply Hs.
Qed.

Lemma resolves_unbind M : forall node, keeps resolves (unbind node M).
Proof.
  induction node as [node IH] using DomNode_strong_ind. intros s Hs.
  rewrite unbind_cases. destruct (decide _); [by apply resolves_afterFrame|].
  destruct (bool_decide _); [|by apply resolves_removeOwn].
  apply (keeps_forInnerChildren resolves).
  - apply resolves_startListening.
  - intros c Hc. apply IH. by apply innerChildren_descendants.
  - by apply resolves_removeOwn.
Qed.

Lemma resolves_step k a bound s :
  idInv k a bound -> resolves a -> resolves (stateAfter (runStep s) a).
Proof.
  intros Hinv Hres. rewrite stateAfter_runStep. destruct s as [node M|node M| |].
  - destruct (decide (idOf a M node = 0)) as [Hz|Hnz].
    + destruct (bind_fresh node M a Hz) as (_ & _ & Hids).
      destruct (bind_fresh_index node M a Hz) as [Hnode Hmap].
      intros M' p'. rewrite Hids, Hnode, Hmap.
      destruct (decide _) as [(_ & <- & <-)|_].
      * intros _. by rewrite !lookup_insert_eq.
      * intros Hne. pose proof (inv_range _ _ _ Hinv M' p' Hne) as Hrange.
        rewrite !lookup_insert_ne by lia. by apply Hres.
    + unfold stateAfter. by rewrite bind_bound.
  - by apply resolves_unbind.
  - intros M' p'. by rewrite idOf_discardBindings.
  - intros M' p'. rewrite idOf_newDanglingMap. apply Hres.
Qed.

Lemma resolves_session steps : forall k a bound,
  idInv k a bound -> k + Z.of_nat (length steps) < LONG_MAX ->
  resolves a -> resolves (stateAfter (session steps) a).
Proof.
  induction steps as [|s steps IH]; intros k a bound Hinv Hk Hres; [done|].
  rewrite stateAfter_session_cons. simpl length in Hk.
  apply (IH (k + 1) _ (bound ++ resultOf (runStep s) a)).
  - apply idInv_step; [done|lia].
  - lia.
  - by apply (resolves_step k a bound).
Qed.

(** X9. In a session from the constructor's state, every identifier
    that a map holds for a node is resolved by [nodeForId] to that
    node, and [m_idToNodesMap] names the map that holds it: the maps
    hold no identifier that dangles. *)
Theorem identifiers_resolve (steps : list IdentityStep) :
  Z.of_nat (length steps) < LONG_MAX ->
  forall M p,
    idOf (stateAfter (session steps) InspectorDOMAgent) M p ≠ 0 ->
    resultOf (nodeForId (idOf (stateAfter (session steps) InspectorDOMAgent) M p))
      (stateAfter (session steps) InspectorDOMAgent) = Some p
    /\ m_idToNodesMap (stateAfter (session steps) InspectorDOMAgent)
         !! idOf (stateAfter (session steps) InspectorDOMAgent) M p = Some M.
Proof.
  intros Hlen M p Hne.
  assert (resolves (stateAfter (session steps) InspectorDOMAgent)) as Hres.
  { apply (resolves_session steps 0 InspectorDOMAgent []); [apply idInv_init|lia|].
    intros M' p'. unfold idOf, nodesMapAt. by destruct M'. }
  destruct (Hres M p Hne) as [H1 H2]. split; [|done].
  unfold nodeForId.
  destruct (Z.eqb_spec (idOf (stateAfter (session steps) InspectorDOMAgent) M p) 0)
    as [|_]; done.
Qed.

Lemma identifiers_resolve_witness :
  resultOf (nodeForId 2)
    (stateAfter (session [StepBind 4 DocumentMap; StepNewDanglingMap;
                          StepBind 5 (DanglingMap 0);
                          StepUnbind (exampleText 4 "x") DocumentMap])
       InspectorDOMAgent) = Some 5%positive.
Proof.
  set (steps := [StepBind 4 DocumentMap; StepNewDanglingMap;
                 StepBind 5 (DanglingMap 0);
                 StepUnbind (exampleText 4 "x") DocumentMap]).
  assert (Z.of_nat (length steps) < LONG_MAX) as Hlen by done.
  assert (idOf (stateAfter (session steps) InspectorDOMAgent) (DanglingMap 0) 5 ≠ 0)
    as Hne by (by vm_compute).
  destruct (identifiers_resolve steps Hlen (DanglingMap 0) 5%positive Hne) as [H _].
  exact H.
Defined.

Lemma removedTogether_refl a : removedTogether a a.
Proof. intros M p Hne Hz. done. Qed.

Lemma removedTogether_afterFrame M0 a s node :
  unbindRel M0 a s -> removedTogether a s -> removedTogether a (afterFrame node s).
Proof.
  intros _ H M p Hne. rewrite idOf_afterFrame.
  destruct (afterFrame_same node s) as (_ & _ & -> & _). by apply H.
Qed.

Lemma removedTogether_removeOwn a s node M :
  unbindRel M a s -> removedTogether a s -> removedTogether a (removeOwn node M s).
Proof.
  intros Hrel H M' p Hne. rewrite removeOwn_idOf, removeOwn_idToNode.
  destruct (decide (idOf s M' p = 0)) as [Hz|Hnz].
  - intros _. rewrite lookup_delete_None. right. by apply H.
  - destruct (decide (M = M' /\ ptr node = p)) as [[<- <-]|]; [|done].
    intros _. destruct (ur_idOf _ _ _ Hrel M (ptr node)) as [Heq|[_ ?]]; [|done].
    rewrite <- Heq. apply lookup_delete_eq.
Qed.

Lemma removedTogether_unbind M a : forall node,
  keeps (fun s => unbindRel M a s /\ removedTogether a s) (unbind node M).
Proof.
  induction node as [node IH] using DomNode_strong_ind. intros s [Hrel Hs].
  rewrite unbind_cases.
  assert (unbindRel M a (afterFrame node s)) as Hrel1.
  { apply unbindRel_trans with s; [done|apply unbindRel_afterFrame]. }
  assert (unbindRel M a (removeOwn node M s)) as Hrel2.
  { apply unbindRel_trans with s; [done|apply unbindRel_removeOwn]. }
  destruct (decide _); [split; [done|by apply (removedTogether_afterFrame M)]|].
  destruct (bool_decide _); [|split; [done|by apply removedTogether_removeOwn]].
  apply (keeps_forInnerChildren (fun s => unbindRel M a s /\ removedTogether a s)).
  - intros doc t [Hrelt Ht]. split.
    + apply unbindRel_trans with t; [done|apply unbindRel_startListening].
    + intros M' p Hne. rewrite startListening_idOf.
      unfold stateAfter. rewrite startListening_spec. simpl.
      destruct (bool_decide _); by apply Ht.
  - intros c Hc. apply IH. by apply innerChildren_descendants.
  - split; [done|by apply removedTogether_removeOwn].
Qed.

Lemma noOrphans_step k a bound s :
  idInv k a bound -> noOrphans a ->
  match s with
  | StepBind _ nodesMap => is_Some (nodesMapAt a nodesMap)
  | _ => True
  end ->
  noOrphans (stateAfter (runStep s) a).
Proof.
  intros Hinv Horph Hlive. rewrite stateAfter_runStep.
  destruct s as [node M|node M| |].
  - destruct (decide (idOf a M node = 0)) as [Hz|Hnz].
    + destruct (bind_fresh node M a Hz) as (_ & _ & Hids).
      destruct (bind_fresh_index node M a Hz) as [Hnode _].
      pose proof (inv_counter _ _ _ Hinv) as Hcnt.
      intros i p. rewrite Hnode.
      destruct (decide (i = m_lastNodeId a)) as [->|Hi].
      * rewrite lookup_insert_eq. intros [= <-]. split; [lia|].
        exists M. rewrite Hids. by rewrite decide_True.
      * rewrite lookup_insert_ne by done. intros Hip.
        destruct (Horph i p Hip) as [Hi0 [M' HM']]. split; [done|].
        exists M'. rewrite Hids.
        destruct (decide _) as [(_ & <- & <-)|_]; [congruence|done].
    + unfold stateAfter. by rewrite bind_bound.
  - destruct (removedTogether_unbind M a node a) as [Hrel Htog].
    { split; [apply unbindRel_refl|apply removedTogether_refl]. }
    intros i p Hip.
    destruct (ur_idToNode _ _ _ Hrel i) as [Heq|Hnone]; [|congruence].
    rewrite Heq in Hip. destruct (Horph i p Hip) as [Hi0 [M' HM']].
    split; [done|]. exists M'.
    destruct (ur_idOf _ _ _ Hrel M' p) as [->|[_ Hz]]; [done|].
    exfalso. assert (idOf a M' p ≠ 0) as Hne by congruence.
    pose proof (Htog M' p Hne Hz) as Hgone. rewrite HM', Heq in Hgone. congruence.
  - intros i p. unfold discardBindings, releaseDanglingNodes. unfoldM. simpl.
    by rewrite lookup_empty.
  - intros i p Hip.
    assert (m_idToNode a !! i = Some p) as Hip' by done.
    destruct (Horph i p Hip') as [Hi0 [M' HM']]. split; [done|].
    exists M'. by rewrite idOf_newDanglingMap.
Qed.

Lemma noOrphans_session steps : forall k a bound,
  idInv k a bound -> k + Z.of_nat (length steps) < LONG_MAX ->
  bindsInLiveMaps steps a ->
  noOrphans a -> noOrphans (stateAfter (session steps) a).
Proof.
  induction steps as [|s steps IH]; intros k a bound Hinv Hk Hlive Horph; [done|].
  rewrite stateAfter_session_cons. simpl length in Hk. destruct Hlive as [Hs Hlive].
  apply (IH (k + 1) _ (bound ++ resultOf (runStep s) a)).
  - apply idInv_step; [done|lia].
  - lia.
  - done.
  - by apply (noOrphans_step k a bound).
Qed.

(** X10. In a session from the constructor's state whose calls of
    [bind] are on maps that exist, every identifier that [nodeForId]
    resolves is the identifier of the node it answers in some map:
    the index holds no entry of a node that is not bound. *)
Theorem index_has_no_orphans (steps : list IdentityStep) :
  Z.of_nat (length steps) < LONG_MAX ->
  bindsInLiveMaps steps InspectorDOMAgent ->
  forall id p,
    resultOf (nodeForId id) (stateAfter (session steps) InspectorDOMAgent) = Some p ->
    id ≠ 0
    /\ exists M, idOf (stateAfter (session steps) InspectorDOMAgent) M p = id.
Proof.
  intros Hlen Hlive id p Hres.
  assert (noOrphans (stateAfter (session steps) InspectorDOMAgent)) as Horph.
  { apply (noOrphans_session steps 0 InspectorDOMAgent []);
      [apply idInv_init|lia|done|].
    intros i q. simpl. by rewrite lookup_empty. }
  apply Horph. unfold nodeForId in Hres.
  destruct (id =? 0); [done|exact Hres].
Qed.

Lemma index_has_no_orphans_witness :
  exists M,
    idOf (stateAfter (session [StepBind 4 DocumentMap; StepNewDanglingMap;
                               StepBind 5 (DanglingMap 0);
                               StepUnbind (exampleText 4 "x") DocumentMap])
            InspectorDOMAgent) M 5 = 2.
Proof.
  set (steps := [StepBind 4 DocumentMap; StepNewDanglingMap;
                 StepBind 5 (DanglingMap 0);
                 StepUnbind (exampleText 4 "x") DocumentMap]).
  assert (Z.of_nat (length steps) < LONG_MAX) as Hlen by done.
  assert (bindsInLiveMaps steps InspectorDOMAgent) as Hlive.
  { repeat split; by eexists. }
  assert (resultOf (nodeForId 2) (stateAfter (session steps) InspectorDOMAgent)
          = Some 5%positive) as Hres by (by vm_compute).
  destruct (index_has_no_orphans steps Hlen Hlive 2 5%positive Hres) as [_ H].
  exact H.
Defined.

(** ** The match jobs *)

Lemma collector_add_spec node resultCollector :
  (exists added, collector_add node resultCollector = resultCollector ++ added)
  /\ (ptr node ∈ ptr <$> collector_add node resultCollector)
  /\ (forall x, x ∈ collector_add node resultCollector ->
                x ∈ resultCollector \/ x = node)
  /\ (NoDup (ptr <$> resultCollector) ->
      NoDup (ptr <$> collector_add node resultCollector)).
Proof.
  unfold collector_add. case_bool_decide as Hin.
  - split; [exists []; by rewrite app_nil_r|]. split; [done|]. split; [by left|done].
  - split; [by eexists|]. split.
    { rewrite fmap_app. apply elem_of_app. right. by left. }
    split.
    { intros x [?|Hx%list_elem_of_singleton]%elem_of_app; [by left|by right]. }
    intros Hnd. rewrite fmap_app. apply NoDup_app. split; [done|]. split.
    + intros x Hx ->%list_elem_of_singleton. done.
    + apply NoDup_singleton.
Qed.

Lemma addNodesToResults_spec nodes : forall resultCollector,
  (exists added, addNodesToResults nodes resultCollector = resultCollector ++ added)
  /\ (forall x, x ∈ nodes -> ptr x ∈ ptr <$> addNodesToResults nodes resultCollector)
  /\ (forall x, x ∈ addNodesToResults nodes resultCollector ->
                x ∈ resultCollector \/ x ∈ nodes)
  /\ (NoDup (ptr <$> resultCollector) ->
      NoDup (ptr <$> addNodesToResults nodes resultCollector)).
Proof.
  unfold addNodesToResults.
  induction nodes as [|n nodes IH]; intros c; simpl.
  - split; [exists []; by rewrite app_nil_r|]. split; [by intros x ?%elem_of_nil|].
    split; [by left|done].
  - destruct (collector_add_spec n c) as ([added Hadd] & Hn & Hfrom & Hnd).
    destruct (IH (collector_add n c)) as ([added' Hadd'] & Hall & Hfrom' & Hnd').
    split; [|split; [|split]].
    + exists (added ++ added'). by rewrite Hadd', Hadd, app_assoc.
    + intros x [Heq|Hx]%elem_of_cons; [subst x|by apply Hall].
      rewrite Hadd', fmap_app. apply elem_of_app. by left.
    + intros x Hx. destruct (Hfrom' x Hx) as [Hc|Hnodes]; [|right; by right].
      destruct (Hfrom x Hc) as [?|Heq]; [by left|right; subst; by left].
    + intros H. by apply Hnd', Hnd.
Qed.

Lemma MatchJob_match_answer q d job resultCollector :
  MatchJob_match q d job resultCollector
  = addNodesToResults (answerOf q d job) resultCollector.
Proof.
  unfold MatchJob_match, answerOf.
  destruct (job_class job); destruct (isEmpty (m_query job)); simpl; try done.
  - by destruct (getElementById q d (m_document job) (m_query job)).
  - destruct (querySelectorAll q d (m_document job) (m_query job)) as [ec l]. simpl.
    by destruct (ec =? 0).
  - by destruct (evaluate q d (m_document job) (m_query job)).
  - by destruct (evaluate q d (m_document job) (m_query job)).
Qed.

(** X11. A match job and the collector.  [match] keeps what the
    collector held, in its order, and adds behind it the nodes the DOM
    answers to the job's query that it did not hold, each once: the
    collector never holds a node twice, and every node of the answer
    is in it afterwards.  A job with an empty query adds nothing, and
    neither does a selector query that raises an exception or an XPath
    query that fails. *)
Theorem MatchJob_match_collects (q : DocumentQueries) (d : Dom) (job : MatchJob)
    (resultCollector : list DomNode) :
  (exists added,
     MatchJob_match q d job resultCollector = resultCollector ++ added)
  /\ (forall x, x ∈ answerOf q d job ->
                ptr x ∈ ptr <$> MatchJob_match q d job resultCollector)
  /\ (forall x, x ∈ MatchJob_match q d job resultCollector ->
                x ∈ resultCollector \/ x ∈ answerOf q d job)
  /\ (NoDup (ptr <$> resultCollector) ->
      NoDup (ptr <$> MatchJob_match q d job resultCollector))
  /\ (isEmpty (m_query job) = true ->
      MatchJob_match q d job resultCollector = resultCollector)
  /\ (job_class job = MatchQuerySelectorAllJob ->
      fst (querySelectorAll q d (m_document job) (m_query job)) ≠ 0 ->
      MatchJob_match q d job resultCollector = resultCollector)
  /\ ((job_class job = MatchXPathJob \/ job_class job = MatchPlainTextJob) ->
      evaluate q d (m_document job) (m_query job) = None ->
      MatchJob_match q d job resultCollector = resultCollector).
Proof.
  rewrite MatchJob_match_answer.
  destruct (addNodesToResults_spec (answerOf q d job) resultCollector)
    as (H1 & H2 & H3 & H4).
  split; [done|]. split; [done|]. split; [done|]. split; [done|].
  unfold answerOf. split; [by intros ->|]. split.
  - intros -> Hec. destruct (isEmpty (m_query job)); [done|].
    destruct (Z.eqb_spec (fst (querySelectorAll q d (m_document job) (m_query job))) 0);
      done.
  - intros [-> | ->] ->; by destruct (isEmpty (m_query job)).
Qed.

(** ** What pushing a path keeps *)

Section PushInvariant.
Context (I : Agent -> Prop).
Hypothesis listening : forall doc, keeps I (startListening doc).
Hypothesis binding : forall p M, keeps I (bind p M).
Hypothesis describing : forall v, keeps I (frontend (Frontend.setDocument v)).
Hypothesis detaching : forall v, keeps I (frontend (Frontend.setDetachedRoot v)).
Hypothesis disclosing : forall id children,
  keeps I (modify (fun a =>
             set_m_childrenRequested ({[id]} ∪ m_childrenRequested a) a) ;;
           frontend (Frontend.setChildNodes id children)).
Hypothesis allocating : keeps I newDanglingMap.

Lemma push_buildObjectForNode node depth M : keeps I (buildObjectForNode node depth M).
Proof. apply keeps_buildObjectForNode; [done|intros; apply binding]. Qed.

Lemma push_pushDocumentToFrontend d : keeps I (pushDocumentToFrontend d).
Proof.
  unfold pushDocumentToFrontend.
  apply keeps_bind; [apply keeps_gets|]. intros [document|]; [|apply keeps_ret].
  apply keeps_bind; [apply keeps_gets|]. intros contains.
  apply keeps_bind; [|intros; apply keeps_ret].
  destruct (negb contains); [|apply keeps_ret].
  destruct (deref d document); [|apply keeps_ret].
  apply keeps_bind; [apply push_buildObjectForNode|]. intros; apply describing.
Qed.

Lemma push_pushChildNodesToFrontend d nodeId : keeps I (pushChildNodesToFrontend d nodeId).
Proof.
  unfold pushChildNodesToFrontend.
  apply keeps_bind.
  { unfold nodeForId. destruct (nodeId =? 0); [apply keeps_ret|apply keeps_gets]. }
  intros node. destruct (node ≫= deref d) as [n|]; [|apply keeps_ret].
  destruct (negb (isContainerType n)); [apply keeps_ret|].
  apply keeps_bind; [apply keeps_gets|]. intros requested.
  destruct requested; [apply keeps_ret|].
  apply keeps_bind; [apply keeps_gets|]. intros [nodeMap|]; [|apply keeps_ret].
  apply keeps_bind.
  { apply (keeps_buildArrayForContainerChildren I buildObjectForNode); [done|].
    intros; apply push_buildObjectForNode. }
  intros children. apply disclosing.
Qed.

Lemma push_pushNodePath_loop parents : forall node path,
  keeps I (pushNodePath_loop node parents path).
Proof.
  induction parents as [|parent parents IH]; intros node path; simpl.
  - apply keeps_bind; [apply allocating|]. intros danglingMap.
    apply keeps_bind; [apply push_buildObjectForNode|]. intros root.
    apply keeps_bind; [apply detaching|]. intros; apply keeps_ret.
  - apply keeps_bind; [apply keeps_gets|]. intros id.
    destruct (negb (id =? 0)); [apply keeps_ret|apply IH].
Qed.

Lemma push_pushNodePathToFrontend d node : keeps I (pushNodePathToFrontend d node).
Proof.
  unfold pushNodePathToFrontend.
  apply keeps_bind; [apply push_pushDocumentToFrontend|]. intros pushed.
  destruct (negb pushed); [apply keeps_ret|].
  apply keeps_bind; [apply keeps_gets|]. intros result.
  destruct (negb (result =? 0)); [apply keeps_ret|].
  apply keeps_bind; [apply push_pushNodePath_loop|]. intros [path danglingMap].
  apply keeps_bind; [|intros; apply keeps_gets].
  apply keeps_forEach. intros n _.
  apply keeps_bind; [apply keeps_gets|]. intros nodeId.
  apply push_pushChildNodesToFrontend.
Qed.

Lemma push_reportNodes_loop d resultCollector :
  (forall p, keeps I (modify (fun a =>
                        set_m_searchResults (m_searchResults a ++ [p]) a))) ->
  keeps I (reportNodes_loop d resultCollector).
Proof.
  intros Hadd. induction resultCollector as [|node rest IH]; simpl; [apply keeps_ret|].
  apply keeps_bind; [apply keeps_gets|]. intros contains.
  destruct contains; [done|].
  apply keeps_bind; [apply Hadd|]. intros _.
  apply keeps_bind; [apply push_pushNodePathToFrontend|]. intros id.
  apply keeps_bind; [done|]. intros; apply keeps_ret.
Qed.
End PushInvariant.

(** Reporting the nodes of a collector keeps a member of the agent
    that the bindings, the front end and the results do not touch. *)
Lemma reportNodes_loop_keeps {X} (f : Agent -> X) d resultCollector a :
  (forall doc s, f (stateAfter (startListening doc) s) = f s) ->
  (forall p M s, f (stateAfter (bind p M) s) = f s) ->
  (forall v s, f (set_frontend_calls v s) = f s) ->
  (forall v s, f (set_m_childrenRequested v s) = f s) ->
  (forall v s, f (set_m_danglingNodeToIdMaps v s) = f s) ->
  (forall v s, f (set_m_searchResults v s) = f s) ->
  f (stateAfter (reportNodes_loop d resultCollector) a) = f a.
Proof.
  intros Hl Hb Hf Hr Hd Hs.
  apply (push_reportNodes_loop (fun s => f s = f a)); try done.
  - intros doc s E. by rewrite Hl.
  - intros p M s E. by rewrite Hb.
  - intros v s E. unfold stateAfter. rewrite frontend_eq. simpl. by rewrite Hf.
  - intros v s E. unfold stateAfter. rewrite frontend_eq. simpl. by rewrite Hf.
  - intros id children s E. rewrite stateAfter_bind. unfold stateAfter at 1.
    rewrite frontend_eq. simpl. rewrite Hf. unfold stateAfter, modify. simpl.
    by rewrite Hr.
  - intros s E. unfold newDanglingMap. rewrite !stateAfter_bind.
    unfold stateAfter, modify, gets, ret. simpl. by rewrite Hd.
  - intros p s E. unfold stateAfter, modify. simpl. by rewrite Hs.
Qed.

Lemma bind_pending p M s :
  m_pendingMatchJobs (stateAfter (bind p M) s) = m_pendingMatchJobs s.
Proof.
  unfold bind, NodeToIdMap_get, NodeToIdMap_set. unfoldM. simpl.
  destruct (negb _); [done|]. simpl. unfold updateNodesMap. by destruct M.
Qed.

Lemma bind_timer p M s :
  m_matchJobsTimer (stateAfter (bind p M) s) = m_matchJobsTimer s.
Proof.
  unfold bind, NodeToIdMap_get, NodeToIdMap_set. unfoldM. simpl.
  destruct (negb _); [done|]. simpl. unfold updateNodesMap. by destruct M.
Qed.

Lemma startListening_pending doc s :
  m_pendingMatchJobs (stateAfter (startListening doc) s) = m_pendingMatchJobs s.
Proof.
  unfold stateAfter. rewrite startListening_spec. simpl. by destruct (bool_decide _).
Qed.

Lemma startListening_timer doc s :
  m_matchJobsTimer (stateAfter (startListening doc) s) = m_matchJobsTimer s.
Proof.
  unfold stateAfter. rewrite startListening_spec. simpl. by destruct (bool_decide _).
Qed.

Lemma reportNodes_loop_pending d resultCollector a :
  m_pendingMatchJobs (stateAfter (reportNodes_loop d resultCollector) a)
  = m_pendingMatchJobs a.
Proof.
  apply (reportNodes_loop_keeps m_pendingMatchJobs); try done.
  - apply startListening_pending.
  - apply bind_pending.
Qed.

Lemma reportNodes_loop_timer d resultCollector a :
  m_matchJobsTimer (stateAfter (reportNodes_loop d resultCollector) a)
  = m_matchJobsTimer a.
Proof.
  apply (reportNodes_loop_keeps m_matchJobsTimer); try done.
  - apply startListening_timer.
  - apply bind_timer.
Qed.

Lemma onMatchJobsTimer_empty q d a :
  m_pendingMatchJobs a = [] -> idle (stateAfter (onMatchJobsTimer q d) a).
Proof.
  intros Hp. unfold onMatchJobsTimer. rewrite !stateAfter_bind.
  change (stateAfter (modify ?f) ?x) with (f x).
  change (resultOf (gets ?f) ?x) with (f x).
  change (stateAfter (gets ?f) ?x) with x. cbv beta.
  assert (m_pendingMatchJobs (set_m_matchJobsTimer None a) = []) as -> by done.
  destruct (searchCanceled_spec (set_m_matchJobsTimer None a)) as (H1 & H2 & H3).
  done.
Qed.

Lemma onMatchJobsTimer_job q d a job rest :
  m_pendingMatchJobs a = job :: rest ->
  let a' := stateAfter (onMatchJobsTimer q d) a in
  let a0 := set_m_pendingMatchJobs rest (set_m_matchJobsTimer None a) in
  m_pendingMatchJobs a' = rest
  /\ m_matchJobsTimer a' = Some delay_0_025
  /\ frontend_calls a'
     = frontend_calls (stateAfter (reportNodes_loop d (MatchJob_match q d job [])) a0)
       ++ [Frontend.addNodesToSearchResult
             (resultOf (reportNodes_loop d (MatchJob_match q d job [])) a0)].
Proof.
  intros Hp a' a0.
  assert (a' = set_m_matchJobsTimer (Some delay_0_025)
                 (stateAfter (reportNodesAsSearchResults d (MatchJob_match q d job []))
                    a0)) as ->.
  { subst a'. unfold onMatchJobsTimer. rewrite !stateAfter_bind.
    change (stateAfter (modify ?f) ?x) with (f x).
    change (resultOf (gets ?f) ?x) with (f x).
    change (stateAfter (gets ?f) ?x) with x. cbv beta.
    assert (m_pendingMatchJobs (set_m_matchJobsTimer None a) = job :: rest) as ->
      by done.
    by rewrite !stateAfter_bind. }
  unfold reportNodesAsSearchResults. rewrite stateAfter_bind.
  unfold stateAfter at 1 3 5. rewrite !frontend_eq. simpl.
  split; [|split; [done|done]].
  by rewrite reportNodes_loop_pending.
Qed.

Lemma searchReports_app log log' :
  searchReports (log ++ log') = (searchReports log + searchReports log')%nat.
Proof. induction log as [|c log IH]; simpl; [done|]. rewrite IH. lia. Qed.

Lemma reportNodes_loop_reports d resultCollector a :
  searchReports (frontend_calls (stateAfter (reportNodes_loop d resultCollector) a))
  = searchReports (frontend_calls a).
Proof.
  apply (push_reportNodes_loop
           (fun s => searchReports (frontend_calls s) = searchReports (frontend_calls a)));
    try done.
  - intros doc s E. by rewrite startListening_frontend.
  - intros p M s E. by rewrite bind_frontend.
  - intros v s E. unfold stateAfter. rewrite frontend_eq. simpl.
    rewrite searchReports_app. simpl. lia.
  - intros v s E. unfold stateAfter. rewrite frontend_eq. simpl.
    rewrite searchReports_app. simpl. lia.
  - intros id children s E. rewrite stateAfter_bind. unfold stateAfter at 1.
    rewrite frontend_eq. simpl. rewrite searchReports_app. simpl.
    unfold stateAfter, modify. simpl. lia.
  - intros s E. unfold newDanglingMap. rewrite !stateAfter_bind. exact E.
  - intros p s E. exact E.
Qed.

Lemma searchCanceled_frontend s :
  frontend_calls (stateAfter searchCanceled s) = frontend_calls s.
Proof.
  unfold searchCanceled. unfoldM.
  destruct s as [? ? ? ? ? ? ? ? ? ? ? ? timer]. simpl. by destruct timer.
Qed.

(** X12. The timer of the match jobs.  An event with no job pending
    ends the search: no job, no result and no timer are left.  An
    event with jobs pending runs the first one alone, sends one
    [addNodesToSearchResult] with what it found, as the last call, and
    starts the timer again for 25 ms.  So a queue of [n] jobs is
    drained by [n + 1] events, which send [n] calls of
    [addNodesToSearchResult] and leave the agent idle. *)
Theorem onMatchJobsTimer_drains (q : DocumentQueries) (d : Dom) (a : Agent) :
  (m_pendingMatchJobs a = [] -> idle (stateAfter (onMatchJobsTimer q d) a))
  /\ (forall job rest, m_pendingMatchJobs a = job :: rest ->
        let a' := stateAfter (onMatchJobsTimer q d) a in
        m_pendingMatchJobs a' = rest
        /\ m_matchJobsTimer a' = Some delay_0_025
        /\ (exists nodeIds,
              last (frontend_calls a') = Some (Frontend.addNodesToSearchResult nodeIds))
        /\ searchReports (frontend_calls a') = S (searchReports (frontend_calls a)))
  /\ idle (stateAfter (timerEvents q d (S (length (m_pendingMatchJobs a)))) a)
  /\ searchReports
       (frontend_calls
          (stateAfter (timerEvents q d (S (length (m_pendingMatchJobs a)))) a))
     = (searchReports (frontend_calls a) + length (m_pendingMatchJobs a))%nat.
Proof.
  assert (forall s job rest, m_pendingMatchJobs s = job :: rest ->
            m_pendingMatchJobs (stateAfter (onMatchJobsTimer q d) s) = rest
            /\ m_matchJobsTimer (stateAfter (onMatchJobsTimer q d) s) = Some delay_0_025
            /\ (exists nodeIds,
                  last (frontend_calls (stateAfter (onMatchJobsTimer q d) s))
                  = Some (Frontend.addNodesToSearchResult nodeIds))
            /\ searchReports (frontend_calls (stateAfter (onMatchJobsTimer q d) s))
               = S (searchReports (frontend_calls s))) as Htick.
  { intros s job rest Hp.
    destruct (onMatchJobsTimer_job q d s job rest Hp) as (H1 & H2 & H3).
    split; [done|]. split; [done|]. rewrite H3. split.
    - eexists. by rewrite last_snoc.
    - rewrite searchReports_app, reportNodes_loop_reports. simpl. lia. }
  split; [apply onMatchJobsTimer_empty|]. split; [apply Htick|].
  remember (m_pendingMatchJobs a) as pending eqn:Hp. symmetry in Hp.
  revert a Hp. induction pending as [|job rest IH]; intros a Hp.
  - cbn [length timerEvents]. rewrite stateAfter_bind.
    change (stateAfter (ret tt) ?x) with x. split.
    + by apply onMatchJobsTimer_empty.
    + rewrite Nat.add_0_r.
      unfold onMatchJobsTimer. rewrite !stateAfter_bind.
      change (stateAfter (modify ?f) ?x) with (f x).
      change (resultOf (gets ?f) ?x) with (f x).
      change (stateAfter (gets ?f) ?x) with x. cbv beta.
      assert (m_pendingMatchJobs (set_m_matchJobsTimer None a) = []) as -> by done.
      by rewrite searchCanceled_frontend.
  - destruct (Htick a job rest Hp) as (H1 & H2 & _ & H4).
    change (timerEvents q d (S (length (job :: rest))))
      with (onMatchJobsTimer q d ;; timerEvents q d (S (length rest))).
    rewrite stateAfter_bind.
    destruct (IH (stateAfter (onMatchJobsTimer q d) a) H1) as [Hidle Hcount].
    split; [done|]. rewrite Hcount, H4. simpl. lia.
Qed.

(** ** A search *)







(** X14. The jobs of one document.  All of them are on that document;
    the plain text job for the escaped query is always among them;
    there are two of them, or eight or nine; the query of a tag name
    job is a valid name or empty; and the two queries that match every
    node, [//*] and [*], get the attribute job and the plain text job
    only. *)
Theorem jobsForDocument_spec (q : DocumentQueries) (whitespaceTrimmedQuery : string)
    (document : Node) :
  let jobs := jobsForDocument q whitespaceTrimmedQuery document in
  (forall job, job ∈ jobs -> m_document job = document)
  /\ newMatchPlainTextJob document (escapeQuotes whitespaceTrimmedQuery) ∈ jobs
  /\ (length jobs = 2 \/ length jobs = 8 \/ length jobs = 9)%nat
  /\ (forall job, job ∈ jobs -> job_class job = MatchExactTagNamesJob ->
        m_query job = EmptyString \/ isValidName q (m_query job) = true)
  /\ (whitespaceTrimmedQuery = "//*"%string \/ whitespaceTrimmedQuery = "*"%string ->
      jobs = [ mkMatchJob MatchXPathJob document
                 ("//*[contains(@*, '" ++ whitespaceTrimmedQuery ++ "')]")%string;
               newMatchPlainTextJob document whitespaceTrimmedQuery ]).
Proof.
  intros jobs. subst jobs. unfold jobsForDocument.
  set (startTagFound := String_find "<"%char whitespaceTrimmedQuery =? 0).
  set (endTagFound := String_reverseFind ">"%char whitespaceTrimmedQuery + 1
                      =? Z.of_nat (String.length whitespaceTrimmedQuery)).
  set (candidate := if startTagFound || endTagFound
                    then String_substring (if startTagFound then 1 else 0)
                           (if endTagFound
                            then Z.of_nat (String.length whitespaceTrimmedQuery) - 1
                            else Z.of_nat (String.length whitespaceTrimmedQuery))
                           whitespaceTrimmedQuery
                    else whitespaceTrimmedQuery).
  set (tagNameQuery := if isValidName q candidate then candidate else EmptyString).
  assert (tagNameQuery = EmptyString \/ isValidName q tagNameQuery = true) as Htag.
  { subst tagNameQuery. destruct (isValidName q candidate) eqn:E; [by right|by left]. }
  cbv zeta.
  split; [|split; [|split; [|split]]].
  - intros job.
    repeat (match goal with |- context [if ?b then _ else _] => destruct b end);
      rewrite ?elem_of_app, ?elem_of_cons, ?elem_of_nil; intros Hjob;
      repeat (destruct Hjob as [Hjob|Hjob]); subst; try done.
  - repeat (match goal with |- context [if ?b then _ else _] => destruct b end);
      rewrite ?elem_of_app, ?elem_of_cons; auto 10.
  - repeat (match goal with |- context [if ?b then _ else _] => destruct b end);
      simpl; auto.
  - intros job.
    repeat (match goal with |- context [if ?b then _ else _] => destruct b end);
      rewrite ?elem_of_app, ?elem_of_cons, ?elem_of_nil; intros Hjob;
      repeat (destruct Hjob as [Hjob|Hjob]); subst; try done; intros _; exact Htag.
  - intros [-> | ->]; subst tagNameQuery candidate startTagFound endTagFound; simpl;
      destruct (isValidName q _); done.
Qed.

(** ** Pushing the path of a node *)

Lemma pushNodePathToFrontend_eq d nodeToPush a :
  pushNodePathToFrontend d nodeToPush a
  = (let s := stateAfter (pushDocumentToFrontend d) a in
     if negb (resultOf (pushDocumentToFrontend d) a) then (0, s)
     else if negb (idOf s DocumentMap (ptr nodeToPush) =? 0)
          then (idOf s DocumentMap (ptr nodeToPush), s)
          else
            (walked <- pushNodePath_loop nodeToPush (innerParents d nodeToPush) [] ;;
             let (path, danglingMap) := walked in
             let map := default DocumentMap danglingMap in
             forEach (fun node =>
                        nodeId <- NodeToIdMap_get map (ptr node) ;;
                        pushChildNodesToFrontend d nodeId)
                     (rev path) ;;
             NodeToIdMap_get map (ptr nodeToPush)) s).
Proof.
  unfold pushNodePathToFrontend. rewrite bindM_eq. cbv zeta.
  destruct (negb (resultOf (pushDocumentToFrontend d) a)); [done|].
  rewrite bindM_eq.
  change (resultOf (NodeToIdMap_get DocumentMap (ptr nodeToPush)) ?x)
    with (idOf x DocumentMap (ptr nodeToPush)).
  change (stateAfter (NodeToIdMap_get DocumentMap (ptr nodeToPush)) ?x) with x.
  by destruct (negb _).
Qed.

(** X15. [pushNodePathToFrontend] on a node that needs no push.  With
    no document listened to it answers 0 and changes nothing.  With
    the main document described already, a node that has an
    identifier in the document map gets that identifier as answer,
    and nothing changes. *)
Theorem pushNodePathToFrontend_known (d : Dom) (nodeToPush : DomNode) (a : Agent) :
  (m_documents a = [] -> pushNodePathToFrontend d nodeToPush a = (0, a))
  /\ (forall p, head (m_documents a) = Some p ->
        is_Some (m_documentNodeToIdMap a !! p) ->
        idOf a DocumentMap (ptr nodeToPush) ≠ 0 ->
        pushNodePathToFrontend d nodeToPush a
        = (idOf a DocumentMap (ptr nodeToPush), a)).
Proof.
  split.
  - intros Hdocs. rewrite pushNodePathToFrontend_eq. cbv zeta.
    unfold resultOf, stateAfter. rewrite pushDocumentToFrontend_eq, Hdocs. done.
  - intros p Hhead Hbound Hne. rewrite pushNodePathToFrontend_eq. cbv zeta.
    unfold resultOf, stateAfter. rewrite pushDocumentToFrontend_eq, Hhead.
    rewrite bool_decide_eq_true_2 by done. simpl.
    destruct (Z.eqb_spec (idOf a DocumentMap (ptr nodeToPush)) 0); done.
Qed.

Lemma bind_other_map p M a M' p' :
  M' ≠ M -> idOf (stateAfter (bind p M) a) M' p' = idOf a M' p'.
Proof.
  intros HM. destruct (decide (idOf a M p = 0)) as [Hz|Hnz].
  - destruct (bind_fresh p M a Hz) as (_ & _ & ->).
    destruct (decide _) as [(_ & <- & _)|]; done.
  - unfold stateAfter. by rewrite bind_bound.
Qed.

Lemma buildObjectForNode_other_map node depth M a M' p' :
  M' ≠ M ->
  idOf (stateAfter (buildObjectForNode node depth M) a) M' p' = idOf a M' p'.
Proof.
  intros HM.
  apply (keeps_buildObjectForNode (fun s => idOf s M' p' = idOf a M' p') M); [| |done].
  - intros doc s Hs. by rewrite startListening_idOf.
  - intros p s Hs. by rewrite bind_other_map.
Qed.

Lemma buildObjectForNode_binds_in node depth M a :
  is_Some (nodesMapAt a M) -> idOf a M (ptr node) = 0 -> m_lastNodeId a ≠ 0 ->
  o_id (resultOf (buildObjectForNode node depth M) a) = m_lastNodeId a
  /\ idOf (stateAfter (buildObjectForNode node depth M) a) M (ptr node)
     = m_lastNodeId a.
Proof.
  intros Hlive Hz Hne. rewrite buildObjectForNode_id.
  destruct (bind_fresh (ptr node) M a Hz) as (Hres & _ & Hids).
  split; [done|].
  rewrite buildObjectForNode_unfold, stateAfter_bind.
  set (s := stateAfter (bind (ptr node) M) a).
  assert (idOf s M (ptr node) = m_lastNodeId a) as Hs.
  { subst s. rewrite Hids. by rewrite decide_True. }
  rewrite Hres.
  destruct (match nodeType (info node) with TEXT_NODE => _ | _ => _ end)
    as [[nodeName localName] nodeValue].
  destruct (isContainerType node); [|done].
  rewrite !stateAfter_bind.
  change (stateAfter (ret _) ?x) with x.
  rewrite <- Hs.
  set (I := fun t => idOf t M (ptr node) = idOf s M (ptr node)).
  assert (forall doc, keeps I (startListening doc)) as Hl.
  { intros doc t Ht. unfold I. by rewrite startListening_idOf. }
  cut (I (stateAfter (buildArrayForContainerChildren node depth M)
            (stateAfter (innerChildNodeCount node) s))); [done|].
  apply (keeps_buildArrayForContainerChildren I buildObjectForNode); [done| |].
  - intros c depth' _ t Ht. unfold I.
    rewrite buildObjectForNode_keeps_bound; [done|]. rewrite Ht, Hs. done.
  - by apply (keeps_innerChildNodeCount I).
Qed.

Lemma buildObjectForNode_dangling node depth M a :
  length (m_danglingNodeToIdMaps (stateAfter (buildObjectForNode node depth M) a))
  = length (m_danglingNodeToIdMaps a).
Proof.
  apply (keeps_buildObjectForNode
           (fun s => length (m_danglingNodeToIdMaps s)
                     = length (m_danglingNodeToIdMaps a)) M); [| |done].
  - intros doc s Hs. unfold stateAfter. rewrite startListening_spec. simpl.
    by destruct (bool_decide _).
  - intros p s Hs. unfold bind, NodeToIdMap_get, NodeToIdMap_set. unfoldM. simpl.
    destruct (negb _); [done|]. simpl. unfold updateNodesMap.
    destruct M as [|i]; simpl; [done|]. by rewrite length_alter.
Qed.

(** X16. The push of a detached node.  With the main document
    described already, [pushNodePathToFrontend] on a node that has no
    identifier in the document map and no parent in the traversal view
    allocates one detached map, describes the node into it, and sends
    one [setDetachedRoot]: the answer is the value the counter had,
    which is the identifier of the record and of the node in the new
    map; the document map and the detached maps there were are as
    before. *)
Theorem pushNodePathToFrontend_detached (d : Dom) (nodeToPush : DomNode) (p : Node)
    (a : Agent) :
  head (m_documents a) = Some p ->
  is_Some (m_documentNodeToIdMap a !! p) ->
  idOf a DocumentMap (ptr nodeToPush) = 0 ->
  innerParents d nodeToPush = [] ->
  m_lastNodeId a ≠ 0 ->
  let a' := stateAfter (pushNodePathToFrontend d nodeToPush) a in
  let danglingMap := DanglingMap (length (m_danglingNodeToIdMaps a)) in
  let root :=
    resultOf (buildObjectForNode nodeToPush 0 danglingMap)
      (stateAfter newDanglingMap a) in
  resultOf (pushNodePathToFrontend d nodeToPush) a = m_lastNodeId a
  /\ frontend_calls a' = frontend_calls a ++ [Frontend.setDetachedRoot root]
  /\ o_id root = m_lastNodeId a
  /\ idOf a' danglingMap (ptr nodeToPush) = m_lastNodeId a
  /\ length (m_danglingNodeToIdMaps a') = S (length (m_danglingNodeToIdMaps a))
  /\ (forall M q, M ≠ danglingMap -> idOf a' M q = idOf a M q).
Proof.
  intros Hhead Hbound Hz Hparents Hcnt a' danglingMap root.
  set (s1 := stateAfter newDanglingMap a) in *.
  set (s2 := stateAfter (buildObjectForNode nodeToPush 0 danglingMap) s1).
  assert (pushNodePathToFrontend d nodeToPush a
          = (idOf s2 danglingMap (ptr nodeToPush),
             set_frontend_calls (frontend_calls s2 ++ [Frontend.setDetachedRoot root]) s2))
    as Hpush.
  { assert (pushNodePath_loop nodeToPush [] [] a
            = (([], Some danglingMap),
               set_frontend_calls
                 (frontend_calls s2 ++ [Frontend.setDetachedRoot root]) s2)) as Hloop.
    { cbn [pushNodePath_loop]. rewrite bindM_eq.
      change (resultOf newDanglingMap a) with danglingMap.
      fold s1. rewrite bindM_eq. fold root s2. by rewrite bindM_eq. }
    rewrite pushNodePathToFrontend_eq. cbv zeta.
    unfold resultOf, stateAfter. rewrite pushDocumentToFrontend_eq, Hhead.
    rewrite bool_decide_eq_true_2 by done. cbn [fst snd negb].
    rewrite Hz, Hparents. change (negb (0 =? 0)) with false. cbv iota.
    rewrite bindM_eq. unfold resultOf, stateAfter. rewrite Hloop. cbn [fst snd].
    cbn [rev forEach default]. by rewrite bindM_eq. }
  assert (is_Some (nodesMapAt s1 danglingMap)) as Hlive.
  { exists ∅. subst s1 danglingMap. unfold newDanglingMap. unfoldM. simpl.
    rewrite lookup_app_r by lia. by rewrite Nat.sub_diag. }
  assert (idOf s1 danglingMap (ptr nodeToPush) = 0) as Hz1.
  { unfold idOf. destruct Hlive as [m Hm].
    subst s1 danglingMap. unfold newDanglingMap. unfoldM. simpl.
    rewrite lookup_app_r by lia. by rewrite Nat.sub_diag. }
  assert (m_lastNodeId s1 = m_lastNodeId a) as Hcnt1 by done.
  destruct (buildObjectForNode_binds_in nodeToPush 0 danglingMap s1 Hlive Hz1)
    as [Hroot Hid]; [by rewrite Hcnt1|].
  fold s2 in Hid. fold root in Hroot. rewrite Hcnt1 in Hroot, Hid.
  subst a'. unfold resultOf, stateAfter. rewrite Hpush. cbn [fst snd].
  split; [done|]. split.
  { simpl. subst s2. by rewrite buildObjectForNode_frontend. }
  split; [done|]. split; [done|]. split.
  { simpl. subst s2. rewrite buildObjectForNode_dangling.
    subst s1. unfold newDanglingMap. unfoldM. simpl. rewrite length_app. simpl. lia. }
  intros M q HM.
  change (idOf s2 M q = idOf a M q).
  subst s2. rewrite buildObjectForNode_other_map by done.
  subst s1. apply idOf_newDanglingMap.
Qed.

Lemma pushNodePathToFrontend_detached_witness :
  resultOf (pushNodePathToFrontend exDom exBlank) exPushed = m_lastNodeId exPushed
  /\ idOf (stateAfter (pushNodePathToFrontend exDom exBlank) exPushed)
       (DanglingMap 0) (ptr exBlank) = m_lastNodeId exPushed.
Proof.
  assert (head (m_documents exPushed) = Some 1%positive) as Hhead by reflexivity.
  assert (is_Some (m_documentNodeToIdMap exPushed !! 1%positive)) as Hbound
    by (by vm_compute; eexists).
  assert (idOf exPushed DocumentMap (ptr exBlank) = 0) as Hz by reflexivity.
  assert (innerParents exDom exBlank = []) as Hparents by reflexivity.
  assert (m_lastNodeId exPushed ≠ 0) as Hcnt by (by vm_compute).
  destruct (pushNodePathToFrontend_detached exDom exBlank 1%positive exPushed
              Hhead Hbound Hz Hparents Hcnt) as (H1 & _ & _ & H4 & _).
  split; [exact H1|exact H4].
Defined.

(** ** Paths *)

Lemma forInnerSiblings_ret chain a :
  forInnerSiblings ret chain a = (filter (fun x => visible x = true) chain, a).
Proof.
  induction chain as [|c chain IH]; simpl; [done|].
  destruct (isWhitespace c) eqn:Hc.
  - rewrite filter_cons_False by (unfold visible; by rewrite Hc). apply IH.
  - rewrite filter_cons_True by (unfold visible; by rewrite Hc).
    rewrite !bindM_eq. unfold resultOf, stateAfter. simpl. by rewrite IH.
Qed.

Lemma forInnerChildren_ret node a :
  forInnerChildren ret node a = (innerChildren node, listenTo node a).
Proof.
  unfold forInnerChildren, innerChildren, listenTo, frameDocument, ifFrameDocument.
  destruct (contentDocument node) as [doc|].
  - destruct (isFrameOwnerElement (info node)).
    + rewrite bindM_eq. destruct (childNodes doc) as [|c chain]; [done|].
      rewrite !bindM_eq. unfold resultOf, stateAfter. simpl.
      by rewrite forInnerSiblings_ret.
    + apply forInnerSiblings_ret.
  - apply forInnerSiblings_ret.
Qed.

Lemma onlyListening_refl a : onlyListening a a.
Proof. split; [by destruct a|done]. Qed.

Lemma onlyListening_listenTo a s node :
  onlyListening a s -> onlyListening a (listenTo node s).
Proof.
  unfold onlyListening, listenTo. intros [H Hpre].
  destruct (frameDocument node) as [doc|]; [|done].
  unfold stateAfter. rewrite startListening_spec. simpl.
  destruct (bool_decide _); [done|]. rewrite set_m_documents_twice. split; [done|].
  etrans; [exact Hpre|]. destruct s; simpl. by apply prefix_app_r.
Qed.

Lemma nodeForPath_loop_step S node number childName rest a :
  nodeForPath_loop S node (number :: childName :: rest) a
  = match String_toUInt S number with
    | None => (None, a)
    | Some childNumber =>
        match innerChildren node !! N.to_nat childNumber with
        | None => (None, listenTo node a)
        | Some child =>
            if String.eqb (nodeName (info child)) childName
            then nodeForPath_loop S child rest (listenTo node (listenTo node a))
            else (None, listenTo node (listenTo node a))
        end
    end.
Proof.
  cbn [nodeForPath_loop]. destruct (String_toUInt S number) as [k|]; [|done].
  rewrite bindM_eq. unfold resultOf at 1, stateAfter at 1.
  rewrite innerChildNodeCount_spec. cbn [fst snd].
  destruct (Z.leb_spec (Z.of_nat (length (innerChildren node))) (Z.of_N k)) as [Hge|Hlt].
  - rewrite lookup_ge_None_2 by lia. done.
  - rewrite bindM_eq. unfold innerChildAt.
    unfold resultOf, stateAfter. rewrite !bindM_eq. unfold resultOf, stateAfter.
    rewrite !forInnerChildren_ret. cbn [fst snd ret].
    destruct (innerChildren node !! N.to_nat k) as [child|] eqn:Hchild.
    + cbn [fst snd]. by destruct (String.eqb _ _).
    + apply lookup_ge_None_1 in Hchild. lia.
Qed.

Lemma nodeForPath_loop_leads S : forall pathTokens node a n,
  resultOf (nodeForPath_loop S node pathTokens) a = Some n
  <-> pathLeads S node pathTokens n.
Proof.
  intros pathTokens. remember (length pathTokens) as len eqn:Hlen.
  revert pathTokens Hlen.
  induction len as [len IH] using lt_wf_ind. intros pathTokens -> node a n.
  destruct pathTokens as [|number [|childName rest]].
  - simpl. split.
    + intros [= <-]. constructor. simpl. lia.
    + intros H. inversion H; subst. done.
  - simpl. split.
    + intros [= <-]. constructor. simpl. lia.
    + intros H. inversion H; subst. done.
  - unfold resultOf. rewrite nodeForPath_loop_step. split.
    + destruct (String_toUInt S number) as [k|] eqn:Hk; [|done].
      destruct (innerChildren node !! N.to_nat k) as [child|] eqn:Hchild; [|done].
      destruct (String.eqb_spec (nodeName (info child)) childName) as [Hname|]; [|done].
      intros H. apply (leads_down S node number childName rest k child n); try done.
      apply (IH (length rest)) with (a := listenTo node (listenTo node a));
        [simpl; lia|done|exact H].
    + intros H. inversion H as [? ? Hshort|? ? ? ? k child ? Hk Hchild Hname Hrest];
        subst; [simpl in Hshort; lia|].
      rewrite Hk, Hchild, String.eqb_refl.
      apply (IH (length rest)); [simpl; lia|done|exact Hrest].
Qed.

Lemma nodeForPath_loop_listening S : forall pathTokens node a s,
  onlyListening a s ->
  onlyListening a (stateAfter (nodeForPath_loop S node pathTokens) s).
Proof.
  intros pathTokens. remember (length pathTokens) as len eqn:Hlen.
  revert pathTokens Hlen.
  induction len as [len IH] using lt_wf_ind. intros pathTokens -> node a s Hs.
  destruct pathTokens as [|number [|childName rest]]; [done|done|].
  unfold stateAfter. rewrite nodeForPath_loop_step.
  destruct (String_toUInt S number) as [k|]; [|done].
  destruct (innerChildren node !! N.to_nat k) as [child|].
  - destruct (String.eqb _ _).
    + apply (IH (length rest)); [simpl; lia|done|].
      by do 2 apply onlyListening_listenTo.
    + by do 2 apply onlyListening_listenTo.
  - by apply onlyListening_listenTo.
Qed.

Lemma pathLeads_shown S node pathTokens n : pathLeads S node pathTokens n -> shown node n.
Proof.
  induction 1 as [|node number childName rest k child n _ Hchild _ _ IH];
    [constructor|].
  apply shown_below with child; [|done]. by apply list_elem_of_lookup_2 in Hchild.
Qed.

Lemma onlyListening_fields a s :
  onlyListening a s ->
  frontend_calls s = frontend_calls a
  /\ m_documentNodeToIdMap s = m_documentNodeToIdMap a
  /\ (forall nodesMap p, idOf s nodesMap p = idOf a nodesMap p)
  /\ (forall p, head (m_documents a) = Some p -> head (m_documents s) = Some p).
Proof.
  intros [H Hpre]. repeat split.
  - rewrite <- H. by destruct s.
  - rewrite <- H. by destruct s.
  - intros nodesMap p. rewrite <- H. by destruct s.
  - intros p Hp. destruct Hpre as [more ->].
    destruct (m_documents a); [done|]. done.
Qed.

Lemma nodeForPath_eq S d path a :
  nodeForPath S d path a
  = match head (m_documents a) ≫= deref d with
    | None => (None, a)
    | Some node =>
        if Z.of_nat (length (String_split S path)) =? 0 then (None, a)
        else nodeForPath_loop S node (String_split S path) a
    end.
Proof.
  unfold nodeForPath. rewrite bindM_eq.
  change (resultOf mainFrameDocument a) with (head (m_documents a)).
  change (stateAfter mainFrameDocument a) with a. cbv beta zeta.
  destruct (head (m_documents a) ≫= deref d); [|done].
  by destruct (_ =? 0).
Qed.

Lemma nodeForPath_listening S d path a :
  onlyListening a (stateAfter (nodeForPath S d path) a).
Proof.
  unfold stateAfter at 1. rewrite nodeForPath_eq.
  destruct (head (m_documents a) ≫= deref d) as [node|];
    [|apply onlyListening_refl].
  destruct (_ =? 0); [apply onlyListening_refl|].
  apply nodeForPath_loop_listening, onlyListening_refl.
Qed.

(** X17. [nodeForPath] finds a node exactly when there is a main
    document, the path has a token, and the tokens lead from the main
    document to the node: each number names a child in the traversal
    view and the name after it is that child's node name.  A node found
    lies in the traversal view of the main document.  The only change
    to the agent is that it may listen to more documents. *)
Theorem nodeForPath_follows_the_path (S : PathStrings) (d : Dom) (path : string)
    (a : Agent) :
  let found := resultOf (nodeForPath S d path) a in
  let s := stateAfter (nodeForPath S d path) a in
  (forall n, found = Some n <->
     exists p document,
       head (m_documents a) = Some p /\ deref d p = Some document
       /\ String_split S path <> []
       /\ pathLeads S document (String_split S path) n)
  /\ (forall n, found = Some n ->
        exists p document,
          head (m_documents a) = Some p /\ deref d p = Some document
          /\ shown document n)
  /\ set_m_documents (m_documents a) s = a
  /\ m_documents a `prefix_of` m_documents s.
Proof.
  cbv zeta.
  assert (forall n, resultOf (nodeForPath S d path) a = Some n <->
     exists p document,
       head (m_documents a) = Some p /\ deref d p = Some document
       /\ String_split S path <> []
       /\ pathLeads S document (String_split S path) n) as Hfound.
  { intros n. unfold resultOf. rewrite nodeForPath_eq.
    destruct (head (m_documents a)) as [p|]; cbn [mbind option_bind];
      [|split; [done|by intros (? & ? & ? & _)]].
    destruct (deref d p) as [document|] eqn:Hderef;
      [|split; [done|intros (? & ? & [= <-] & ? & _); congruence]].
    destruct (String_split S path) as [|token tokens] eqn:Htokens.
    { simpl. split; [done|]. by intros (? & ? & _ & _ & ? & _). }
    change (Z.of_nat (length (token :: tokens)) =? 0) with false. cbv iota.
    change ((nodeForPath_loop S document (token :: tokens) a).1)
      with (resultOf (nodeForPath_loop S document (token :: tokens)) a).
    rewrite nodeForPath_loop_leads. split.
    - intros H. by exists p, document.
    - intros (? & ? & [= <-] & Hd & _ & H). congruence. }
  split; [exact Hfound|]. split.
  - intros n (p & document & Hp & Hdoc & _ & Hleads)%Hfound.
    exists p, document. repeat split; try done. by apply pathLeads_shown in Hleads.
  - apply nodeForPath_listening.
Qed.

Lemma pushes_quietly_call a s c :
  (forall callId id, c <> Frontend.didPushNodeByPathToFrontend callId id) ->
  pushes_quietly a s ->
  pushes_quietly a (set_frontend_calls (frontend_calls s ++ [c]) s).
Proof.
  intros Hc (sent & Hsent & Hquiet). exists (sent ++ [c]). split.
  - destruct s; simpl in *. by rewrite Hsent, app_assoc.
  - apply Forall_app. split; [done|]. by constructor.
Qed.

Lemma pushNodePathToFrontend_quiet a d node :
  keeps (pushes_quietly a) (pushNodePathToFrontend d node).
Proof.
  apply push_pushNodePathToFrontend.
  - intros doc s (sent & Hsent & Hquiet). exists sent.
    by rewrite startListening_frontend.
  - intros p M s (sent & Hsent & Hquiet). exists sent. by rewrite bind_frontend.
  - intros v s H. unfold stateAfter. rewrite frontend_eq.
    by apply pushes_quietly_call.
  - intros v s H. unfold stateAfter. rewrite frontend_eq.
    by apply pushes_quietly_call.
  - intros id children s (sent & Hsent & Hquiet). rewrite stateAfter_bind.
    unfold stateAfter at 1. rewrite frontend_eq. cbn [snd].
    apply pushes_quietly_call; [done|]. exists sent.
    unfold stateAfter, modify. simpl. by destruct s.
  - intros s (sent & Hsent & Hquiet). exists sent.
    unfold newDanglingMap. rewrite !stateAfter_bind.
    unfold stateAfter, modify, gets, ret. simpl. by destruct s.
Qed.

(** X18. [pushNodeByPathToFrontend] answers every call once, with the
    call's identifier, as the last thing it sends.  When the path finds
    no node the answer carries 0 and nothing else is sent.  When the
    path leads to a node that has an identifier in the document map and
    the main document is described already, the answer carries that
    identifier and nothing else is sent. *)
Theorem pushNodeByPathToFrontend_answers (S : PathStrings) (d : Dom) (callId : Z)
    (path : string) (a : Agent) :
  let s := stateAfter (pushNodeByPathToFrontend S d callId path) a in
  (exists sent id,
     frontend_calls s
     = frontend_calls a ++ sent ++ [Frontend.didPushNodeByPathToFrontend callId id]
     /\ forall otherCall otherId,
          Frontend.didPushNodeByPathToFrontend otherCall otherId ∉ sent)
  /\ (resultOf (nodeForPath S d path) a = None ->
      frontend_calls s
      = frontend_calls a ++ [Frontend.didPushNodeByPathToFrontend callId 0])
  /\ (forall p n,
        head (m_documents a) = Some p ->
        is_Some (m_documentNodeToIdMap a !! p) ->
        resultOf (nodeForPath S d path) a = Some n ->
        idOf a DocumentMap (ptr n) ≠ 0 ->
        frontend_calls s
        = frontend_calls a
          ++ [Frontend.didPushNodeByPathToFrontend callId
                (idOf a DocumentMap (ptr n))]).
Proof.
  cbv zeta.
  assert (forall s0, stateAfter (pushNodeByPathToFrontend S d callId path) s0
    = let s1 := stateAfter (nodeForPath S d path) s0 in
      let push := match resultOf (nodeForPath S d path) s0 with
                  | Some node => pushNodePathToFrontend d node
                  | None => ret 0
                  end in
      set_frontend_calls
        (frontend_calls (stateAfter push s1)
           ++ [Frontend.didPushNodeByPathToFrontend callId (resultOf push s1)])
        (stateAfter push s1)) as Hrun.
  { intros s0. unfold pushNodeByPathToFrontend.
    rewrite !stateAfter_bind. unfold stateAfter at 1. by rewrite frontend_eq. }
  rewrite Hrun. cbv zeta.
  pose proof (nodeForPath_listening S d path a) as Hlisten.
  apply onlyListening_fields in Hlisten as (Hcalls & Hmap & Hids & Hhead).
  set (s1 := stateAfter (nodeForPath S d path) a) in *.
  split; [|split].
  - destruct (resultOf (nodeForPath S d path) a) as [node|].
    + assert (pushes_quietly a (stateAfter (pushNodePathToFrontend d node) s1))
        as (sent & Hsent & Hquiet).
      { apply pushNodePathToFrontend_quiet. exists []. split; [|done].
        by rewrite app_nil_r. }
      exists sent, (resultOf (pushNodePathToFrontend d node) s1). split.
      * destruct (stateAfter (pushNodePathToFrontend d node) s1); simpl in *.
        by rewrite Hsent, app_assoc.
      * intros otherCall otherId Hin.
        by apply (proj1 (Forall_forall _ _) Hquiet _ Hin otherCall otherId).
    + exists [], 0. split; [|intros ? ?; apply not_elem_of_nil].
      change (stateAfter (ret 0) s1) with s1. change (resultOf (ret 0) s1) with 0.
      destruct s1; simpl in *. by rewrite Hcalls.
  - intros ->. change (stateAfter (ret 0) s1) with s1.
    change (resultOf (ret 0) s1) with 0.
    destruct s1; simpl in *. by rewrite Hcalls.
  - intros p n Hp Hdescribed -> Hbound.
    assert (pushNodePathToFrontend d n s1 = (idOf a DocumentMap (ptr n), s1)) as Hpush.
    { rewrite pushNodePathToFrontend_eq. cbv zeta.
      unfold resultOf, stateAfter. rewrite pushDocumentToFrontend_eq, (Hhead p Hp), Hmap.
      rewrite bool_decide_eq_true_2 by done. cbn [fst snd negb].
      rewrite Hids. destruct (Z.eqb_spec (idOf a DocumentMap (ptr n)) 0); [done|].
      done. }
    unfold resultOf, stateAfter. rewrite Hpush. cbn [fst snd].
    destruct s1; simpl in *. by rewrite Hcalls.
Qed.

(** ** Styles *)

#[local] Instance belongsTo_dec style sh p : Decision (belongsTo style sh p).
Proof. unfold belongsTo. apply _. Defined.

Lemma isEmpty_spec s : isEmpty s = true <-> s = ""%string.
Proof.
  unfold isEmpty. destruct s; [done|]. split; [|done].
  intros H. apply Z.eqb_eq in H. simpl in H. lia.
Qed.

Lemma longhandProperties_loop_spec style sh : forall items properties found,
  NoDup properties ->
  (forall x, x ∈ found <-> x ∈ properties) ->
  let result := longhandProperties_loop style sh items properties found in
  NoDup result
  /\ (forall x, x ∈ result <-> x ∈ properties \/ (x ∈ items /\ belongsTo style sh x))
  /\ (exists more, result = properties ++ more /\ more `sublist_of` items)
  /\ (NoDup items -> (forall x, x ∈ items -> x ∉ properties) ->
      result = properties ++ filter (belongsTo style sh) items).
Proof.
  induction items as [|p items IH]; intros properties found Hnd Hfound; cbv zeta.
  - simpl. split; [done|]. split; [|split].
    + intros x. split; [by left|]. intros [H|[H _]]; [done|by apply elem_of_nil in H].
    + exists []. by rewrite app_nil_r.
    + intros _ _. by rewrite app_nil_r.
  - cbn [longhandProperties_loop].
    destruct (String.eqb_spec (getPropertyShorthand style p) sh) as [Hsh|Hsh].
    + case_bool_decide as Hin; cbn [orb negb].
      * destruct (IH properties found Hnd Hfound) as (H1 & H2 & (more & H3 & H3') & H4).
        split; [done|]. split; [|split].
        -- intros x. rewrite H2. split.
           ++ intros [H|[H Hb]]; [by left|]. right. split; [by right|done].
           ++ intros [H|[H Hb]]; [by left|].
              apply elem_of_cons in H as [->|H]; [left; by apply Hfound|].
              right. by split.
        -- exists more. split; [done|]. by apply sublist_cons.
        -- intros Hnd' Hfresh. exfalso. apply (Hfresh p); [by left|]. by apply Hfound.
      * assert (p ∉ properties) as Hp by (by rewrite <- Hfound).
        destruct (IH (properties ++ [p]) ({[p]} ∪ found))
          as (H1 & H2 & (more & H3 & H3') & H4).
        { apply NoDup_app. split; [done|]. split; [|apply NoDup_singleton].
          intros x Hx ->%list_elem_of_singleton. done. }
        { intros x. rewrite elem_of_union, elem_of_singleton, elem_of_app,
            list_elem_of_singleton, Hfound. tauto. }
        split; [done|]. split; [|split].
        -- intros x. rewrite H2, elem_of_app, list_elem_of_singleton, elem_of_cons.
           split.
           ++ intros [[H| ->]|[H Hb]]; [by left| |].
              ** right. split; [by left|done].
              ** right. split; [by right|done].
           ++ intros [H|[[->|H] Hb]]; [left; by left|left; by right|right; by split].
        -- exists (p :: more). split; [by rewrite H3, <- app_assoc|].
           by apply sublist_skip.
        -- intros Hnd' Hfresh. apply NoDup_cons in Hnd' as [Hpi Hnd'].
           rewrite H4; [|done|].
           ++ rewrite filter_cons_True by done. by rewrite <- app_assoc.
           ++ intros x Hx. rewrite elem_of_app, list_elem_of_singleton.
              intros [H| ->]; [|done]. apply (Hfresh x); [by right|done].
    + rewrite orb_true_r.
      destruct (IH properties found Hnd Hfound) as (H1 & H2 & (more & H3 & H3') & H4).
      split; [done|]. split; [|split].
      * intros x. rewrite H2. split.
        -- intros [H|[H Hb]]; [by left|]. right. split; [by right|done].
        -- intros [H|[H Hb]]; [by left|].
           apply elem_of_cons in H as [->|H]; [done|]. right. by split.
      * exists more. split; [done|]. by apply sublist_cons.
      * intros Hnd' Hfresh. apply NoDup_cons in Hnd' as [Hpi Hnd'].
        rewrite filter_cons_False by done. apply H4; [done|].
        intros x Hx. apply Hfresh. by right.
Qed.

Lemma longhandProperties_loop_head style sh : forall items properties found,
  (forall x, x ∈ found <-> x ∈ properties) ->
  head (longhandProperties_loop style sh items properties found)
  = match properties with
    | p :: _ => Some p
    | [] => head (filter (belongsTo style sh) items)
    end.
Proof.
  induction items as [|p items IH]; intros properties found Hfound.
  - simpl. by destruct properties.
  - cbn [longhandProperties_loop].
    destruct (String.eqb_spec (getPropertyShorthand style p) sh) as [Hsh|Hsh].
    + case_bool_decide as Hin; cbn [orb negb].
      * rewrite IH by done. destruct properties as [|q properties]; [|done].
        apply Hfound in Hin. by apply elem_of_nil in Hin.
      * rewrite IH.
        -- destruct properties as [|q properties]; [|done].
           by rewrite filter_cons_True by done.
        -- intros x. rewrite elem_of_union, elem_of_singleton, elem_of_app,
             list_elem_of_singleton, Hfound. tauto.
    + rewrite orb_true_r, IH by done. destruct properties; [|done].
      by rewrite filter_cons_False by done.
Qed.

(** X19. [longhandProperties] lists every item of the style that
    belongs to the shorthand, and nothing else, each once, in the order
    of the items; its first entry is the first item that belongs to the
    shorthand, and for a style without repeated items it is the
    items filtered. *)
Theorem longhandProperties_spec (style : CSSStyleDeclaration) (shorthandProperty : string) :
  let result := longhandProperties style shorthandProperty in
  NoDup result
  /\ (forall x, x ∈ result
        <-> x ∈ style_items style /\ getPropertyShorthand style x = shorthandProperty)
  /\ result `sublist_of` style_items style
  /\ head result = head (filter (belongsTo style shorthandProperty) (style_items style))
  /\ (NoDup (style_items style) ->
      result = filter (belongsTo style shorthandProperty) (style_items style)).
Proof.
  cbv zeta. unfold longhandProperties.
  destruct (longhandProperties_loop_spec style shorthandProperty (style_items style) [] ∅)
    as (H1 & H2 & (more & H3 & H3') & H4); [constructor| |].
  { intros x. split; [by intros H%elem_of_empty|by intros H%elem_of_nil]. }
  split; [done|]. split; [|split; [|split]].
  - intros x. rewrite H2. unfold belongsTo. split; [|by right].
    intros [H|H]; [by apply elem_of_nil in H|done].
  - by rewrite H3.
  - rewrite longhandProperties_loop_head; [done|].
    intros x. split; [by intros H%elem_of_empty|by intros H%elem_of_nil].
  - intros Hnd. rewrite H4; [done|done|]. intros x _. apply not_elem_of_nil.
Qed.

Lemma append_empty_r (s : string) : (s ++ "")%string = s.
Proof.
  induction s as [|c s IH]; [done|].
  change (String c (s ++ "")%string = String c s). by rewrite IH.
Qed.

Lemma append_assoc (s t u : string) : ((s ++ t) ++ u)%string = (s ++ (t ++ u))%string.
Proof.
  induction s as [|c s IH]; [done|].
  change (String c ((s ++ t) ++ u)%string = String c (s ++ (t ++ u))%string).
  by rewrite IH.
Qed.

Lemma concat_spaced value rest :
  String.concat " " (value :: rest) = (value ++ spaced rest)%string.
Proof.
  revert value. induction rest as [|v rest IH]; intros value.
  - simpl. by rewrite append_empty_r.
  - change (String.concat " " (value :: v :: rest))
      with (value ++ " " ++ String.concat " " (v :: rest))%string.
    by rewrite IH.
Qed.

Lemma shorthandValue_loop_from style sh : forall items value,
  isEmpty value = false ->
  shorthandValue_loop style sh items value
  = (value ++ spaced (map (getPropertyValue style) (filter (fun p => contributes style sh p = true) items)))%string.
Proof.
  induction items as [|p items IH]; intros value Hvalue.
  - simpl. by rewrite append_empty_r.
  - cbn [shorthandValue_loop]. unfold contributes at 1.
    destruct (String.eqb (getPropertyShorthand style p) sh) eqn:Hsh; cbn [negb].
    + destruct (isPropertyImplicit style p) eqn:Himp.
      * rewrite filter_cons_False
          by (unfold contributes; rewrite Hsh, Himp; simpl; congruence).
        by apply IH.
      * destruct (String.eqb (getPropertyValue style p) "initial") eqn:Hini.
        -- rewrite filter_cons_False
             by (unfold contributes; rewrite Hsh, Himp, Hini; simpl; congruence).
           by apply IH.
        -- rewrite filter_cons_True
             by (unfold contributes; by rewrite Hsh, Himp, Hini).
           cbv zeta. unfold isEmpty in Hvalue. rewrite Hvalue. cbn [negb].
           rewrite IH.
           ++ cbn [map spaced]. by rewrite !append_assoc.
           ++ destruct value; [done|done].
    + rewrite filter_cons_False by (unfold contributes; rewrite Hsh; simpl; congruence).
      by apply IH.
Qed.

Lemma shorthandValue_loop_empty style sh : forall items,
  shorthandValue_loop style sh items ""
  = String.concat " "
      (skipEmpty (map (getPropertyValue style)
                      (filter (fun p => contributes style sh p = true) items))).
Proof.
  induction items as [|p items IH]; [done|].
  cbn [shorthandValue_loop].
  destruct (String.eqb (getPropertyShorthand style p) sh) eqn:Hsh; cbn [negb].
  - destruct (isPropertyImplicit style p) eqn:Himp.
    + rewrite filter_cons_False
        by (unfold contributes; rewrite Hsh, Himp; simpl; congruence).
      by apply IH.
    + destruct (String.eqb (getPropertyValue style p) "initial") eqn:Hini.
      * rewrite filter_cons_False
          by (unfold contributes; rewrite Hsh, Himp, Hini; simpl; congruence).
        by apply IH.
      * rewrite filter_cons_True by (unfold contributes; by rewrite Hsh, Himp, Hini).
        cbv zeta. change (negb (Z.of_nat (String.length "") =? 0)) with false.
        cbv iota. change ("" ++ getPropertyValue style p)%string
          with (getPropertyValue style p).
        cbn [map skipEmpty].
        destruct (isEmpty (getPropertyValue style p)) eqn:He.
        -- apply isEmpty_spec in He. rewrite He. apply IH.
        -- rewrite shorthandValue_loop_from by done. by rewrite concat_spaced.
  - rewrite filter_cons_False by (unfold contributes; rewrite Hsh; simpl; congruence).
    by apply IH.
Qed.

Lemma skipEmpty_none values :
  Forall (fun v => isEmpty v = false) values -> skipEmpty values = values.
Proof. intros [|v rest Hv _]; [done|]. simpl. by rewrite Hv. Qed.

(** X20. [shorthandValue] returns the style's own value for the
    shorthand when that is not empty.  Otherwise it joins with single
    spaces the values of the items that belong to the shorthand, are
    not implicit and are not [initial], in the order of the items and
    with repeats, starting from the first such value that is not
    empty. *)
Theorem shorthandValue_spec (style : CSSStyleDeclaration) (shorthandProperty : string) :
  let values :=
    map (getPropertyValue style)
        (filter (fun p => contributes style shorthandProperty p = true)
                (style_items style)) in
  (getPropertyValue style shorthandProperty <> ""%string ->
   shorthandValue style shorthandProperty = getPropertyValue style shorthandProperty)
  /\ (getPropertyValue style shorthandProperty = ""%string ->
      shorthandValue style shorthandProperty = String.concat " " (skipEmpty values))
  /\ (getPropertyValue style shorthandProperty = ""%string ->
      Forall (fun v => v <> ""%string) values ->
      shorthandValue style shorthandProperty = String.concat " " values).
Proof.
  cbv zeta. unfold shorthandValue. split; [|split].
  - intros Hne. destruct (isEmpty _) eqn:He; [|done]. by apply isEmpty_spec in He.
  - intros ->. change (isEmpty "") with true. cbv iota.
    apply shorthandValue_loop_empty.
  - intros -> Hall. change (isEmpty "") with true. cbv iota.
    rewrite shorthandValue_loop_empty, skipEmpty_none; [done|].
    eapply Forall_impl; [exact Hall|]. intros v Hv. simpl in Hv.
    destruct (isEmpty v) eqn:He; [|done]. by apply isEmpty_spec in He.
Qed.

Lemma shorthandPriority_loop_head style sh priority : forall items,
  shorthandPriority_loop style sh items priority
  = match head (filter (belongsTo style sh) items) with
    | Some p => getPropertyPriority style p
    | None => priority
    end.
Proof.
  induction items as [|p items IH]; [done|]. cbn [shorthandPriority_loop].
  destruct (String.eqb_spec (getPropertyShorthand style p) sh) as [Hsh|Hsh]; cbn [negb].
  - by rewrite filter_cons_True by done.
  - by rewrite filter_cons_False by done.
Qed.

(** X21. [shorthandPriority] returns the style's own priority for the
    shorthand when that is not empty.  Otherwise it is the priority of
    the first of the [longhandProperties] of the shorthand, whatever
    the priorities of the later ones are, and empty when the shorthand
    has no longhand in the style. *)
Theorem shorthandPriority_spec (style : CSSStyleDeclaration) (shorthandProperty : string) :
  (getPropertyPriority style shorthandProperty <> ""%string ->
   shorthandPriority style shorthandProperty
   = getPropertyPriority style shorthandProperty)
  /\ (getPropertyPriority style shorthandProperty = ""%string ->
      shorthandPriority style shorthandProperty
      = match head (longhandProperties style shorthandProperty) with
        | Some first => getPropertyPriority style first
        | None => ""%string
        end).
Proof.
  unfold shorthandPriority. split.
  - intros Hne. cbv zeta. destruct (isEmpty _) eqn:He; [|done].
    by apply isEmpty_spec in He.
  - intros He. cbv zeta. rewrite He. change (isEmpty "") with true. cbv iota.
    rewrite shorthandPriority_loop_head. unfold longhandProperties.
    rewrite longhandProperties_loop_head; [done|].
    intros x. split; [by intros H%elem_of_empty|by intros H%elem_of_nil].
Qed.

Lemma populate_loop_spec style : forall items properties values found,
  (forall sh, sh ∈ found <-> is_Some (values !! sh)) ->
  let result := populate_loop style items properties values found in
  result.1
  = properties
    ++ map (fun name =>
              mkStyleProperty name (getPropertyPriority style name)
                (isPropertyImplicit style name) (getPropertyShorthand style name)
                (getPropertyValue style name)) items
  /\ (forall sh v, result.2 !! sh = Some v <->
        values !! sh = Some v
        \/ (values !! sh = None /\ sh <> ""%string
            /\ (exists name, name ∈ items /\ getPropertyShorthand style name = sh)
            /\ v = shorthandValue style sh)).
Proof.
  induction items as [|name items IH]; intros properties values found Hfound; cbv zeta.
  - simpl. split; [by rewrite app_nil_r|]. intros sh v. split; [by left|].
    intros [H|(_ & _ & (name & Hn & _) & _)]; [done|]. by apply elem_of_nil in Hn.
  - cbn [populate_loop]. cbv zeta.
    destruct (isEmpty (getPropertyShorthand style name)) eqn:He; cbn [negb andb].
    + destruct (IH (properties ++ [mkStyleProperty name (getPropertyPriority style name)
                (isPropertyImplicit style name) (getPropertyShorthand style name)
                (getPropertyValue style name)]) values found Hfound) as [H1 H2].
      split; [by rewrite H1, <- app_assoc|].
      intros sh v. rewrite H2. apply isEmpty_spec in He. split.
      * intros [H|(Hn & Hne & (x & Hx & Hsh) & ->)]; [by left|].
        right. repeat split; try done. exists x. split; [by right|done].
      * intros [H|(Hn & Hne & (x & Hx & Hsh) & ->)]; [by left|].
        right. repeat split; try done.
        apply elem_of_cons in Hx as [->|Hx]; [congruence|]. by exists x.
    + case_bool_decide as Hin; cbn [negb].
      * destruct (IH (properties ++ [mkStyleProperty name (getPropertyPriority style name)
                (isPropertyImplicit style name) (getPropertyShorthand style name)
                (getPropertyValue style name)]) values found Hfound) as [H1 H2].
        split; [by rewrite H1, <- app_assoc|].
        intros sh v. rewrite H2. split.
        -- intros [H|(Hn & Hne & (x & Hx & Hsh) & ->)]; [by left|].
           right. repeat split; try done. exists x. split; [by right|done].
        -- intros [H|(Hn & Hne & (x & Hx & Hsh) & ->)]; [by left|].
           right. repeat split; try done.
           apply elem_of_cons in Hx as [->|Hx]; [|by exists x].
           apply Hfound in Hin as [w Hw]. congruence.
      * assert (values !! getPropertyShorthand style name = None) as Hnone.
        { destruct (values !! getPropertyShorthand style name) eqn:Hv; [|done].
          exfalso. apply Hin, Hfound. by eexists. }
        destruct (IH (properties ++ [mkStyleProperty name (getPropertyPriority style name)
                (isPropertyImplicit style name) (getPropertyShorthand style name)
                (getPropertyValue style name)])
                (<[getPropertyShorthand style name
                   := shorthandValue style (getPropertyShorthand style name)]> values)
                ({[getPropertyShorthand style name]} ∪ found)) as [H1 H2].
        { intros sh. rewrite elem_of_union, elem_of_singleton, Hfound.
          destruct (decide (sh = getPropertyShorthand style name)) as [->|Hne].
          - rewrite lookup_insert_eq. split; [by eexists|by left].
          - rewrite lookup_insert_ne by done. split; [|by right].
            intros [H|H]; [done|done]. }
        split; [by rewrite H1, <- app_assoc|].
        assert (getPropertyShorthand style name <> ""%string) as Hnonempty.
        { intros Hs. rewrite Hs in He. done. }
        intros sh v. rewrite H2.
        destruct (decide (sh = getPropertyShorthand style name)) as [->|Hne].
        -- rewrite lookup_insert_eq. split.
           ++ intros [[= <-]|(Hn & _)]; [|done].
              right. repeat split; try done. exists name. split; [by left|done].
           ++ intros [H|(_ & _ & _ & ->)]; [congruence|by left].
        -- rewrite lookup_insert_ne by done. split.
           ++ intros [H|(Hn & Hne' & (x & Hx & Hsh) & ->)]; [by left|].
              right. repeat split; try done. exists x. split; [by right|done].
           ++ intros [H|(Hn & Hne' & (x & Hx & Hsh) & ->)]; [by left|].
              right. repeat split; try done.
              apply elem_of_cons in Hx as [->|Hx]; [done|]. by exists x.
Qed.

(** X22. [populateObjectWithStyleProperties] describes every item of
    the style, in order and with repeats, by its name, priority,
    implicit flag, shorthand and value.  [shorthandValues] has a key
    exactly for the shorthands, other than the empty one, of the items,
    each with its [shorthandValue]; so every description that names a
    shorthand finds the value of that shorthand there. *)
Theorem populateObjectWithStyleProperties_spec (style : CSSStyleDeclaration) :
  let properties := (populateObjectWithStyleProperties style).1 in
  let shorthandValues := (populateObjectWithStyleProperties style).2 in
  properties
  = map (fun name =>
           mkStyleProperty name (getPropertyPriority style name)
             (isPropertyImplicit style name) (getPropertyShorthand style name)
             (getPropertyValue style name)) (style_items style)
  /\ (forall sh v, shorthandValues !! sh = Some v <->
        sh <> ""%string
        /\ (exists name, name ∈ style_items style /\ getPropertyShorthand style name = sh)
        /\ v = shorthandValue style sh)
  /\ (forall property, property ∈ properties -> p_shorthand property <> ""%string ->
        shorthandValues !! p_shorthand property
        = Some (shorthandValue style (p_shorthand property))).
Proof.
  cbv zeta. unfold populateObjectWithStyleProperties.
  destruct (populate_loop_spec style (style_items style) [] ∅ ∅) as [H1 H2].
  { intros sh. rewrite lookup_empty. split; [by intros H%elem_of_empty|by intros [? ?]]. }
  cbv zeta in H1, H2.
  assert (forall sh v,
    (populate_loop style (style_items style) [] ∅ ∅).2 !! sh = Some v <->
    sh <> ""%string
    /\ (exists name, name ∈ style_items style /\ getPropertyShorthand style name = sh)
    /\ v = shorthandValue style sh) as Hkeys.
  { intros sh v. rewrite H2, lookup_empty. split.
    - intros [H|(_ & H)]; [done|done].
    - intros H. by right. }
  split; [exact H1|]. split; [exact Hkeys|].
  intros property Hin Hne. apply Hkeys. split; [done|]. split; [|done].
  rewrite H1 in Hin. apply list_elem_of_fmap in Hin as (name & -> & Hname).
  by exists name.
Qed.

(** ** Navigation *)

Lemma locateIn_unfold p up n :
  locateIn p up n
  = if Pos.eqb (ptr n) p then Some (mkLoc n up)
    else match scanChildren p n up [] (childNodes n) with
         | Some l => Some l
         | None =>
             match contentDocument n with
             | Some doc => locateIn p (ContentOf n :: up) doc
             | None => None
             end
         end.
Proof. by destruct n. Qed.

Lemma scanChildren_cons p n up before c after :
  scanChildren p n up before (c :: after)
  = match locateIn p (ChildOf n before after :: up) c with
    | Some l => Some l
    | None => scanChildren p n up (c :: before) after
    end.
Proof. done. Qed.

Lemma scanChildren_nil p n up before : scanChildren p n up before [] = None.
Proof. done. Qed.

Lemma scanChildren_sound p n up : forall after before l,
  Forall (fun c => forall up l, locateIn p up c = Some l ->
                     locatedIn c up (loc_node l) (loc_up l)) after ->
  childNodes n = rev before ++ after ->
  scanChildren p n up before after = Some l ->
  locatedIn n up (loc_node l) (loc_up l).
Proof.
  induction after as [|c after IH]; intros before l Hall Hch; [done|].
  apply Forall_cons in Hall as [Hc Hall]. rewrite scanChildren_cons.
  destruct (locateIn p (ChildOf n before after :: up) c) as [l'|] eqn:Hl.
  - intros [= <-]. apply (located_child n up before c after); [done|].
    by apply Hc.
  - apply IH; [done|]. simpl. by rewrite <- app_assoc.
Qed.

Lemma locateIn_sound p : forall n up l,
  locateIn p up n = Some l -> locatedIn n up (loc_node l) (loc_up l).
Proof.
  induction n as [q i c ch IHc IHch] using DomNode_tree_ind. intros up l.
  rewrite locateIn_unfold. cbn [ptr childNodes contentDocument].
  destruct (Pos.eqb_spec q p) as [->|_]; [intros [= <-]; constructor|].
  destruct (scanChildren p (mkDomNode q i c ch) up [] ch) as [l'|] eqn:Hscan.
  - intros [= <-]. by apply (scanChildren_sound p _ up ch [] l').
  - destruct c as [doc|]; [|done]. intros Hl.
    apply (located_document _ up doc); [done|]. by apply IHc.
Qed.

Lemma locatedIn_nodesOf n up x upx : locatedIn n up x upx -> x ∈ nodesOf n.
Proof.
  induction 1 as [n up|n up before c after x upx Hch _ IH|n up doc x upx Hdoc _ IH].
  - apply nodesOf_self.
  - rewrite nodesOf_eq. right. apply (descendants_child n c); [|done].
    rewrite Hch. apply elem_of_app. right. by left.
  - rewrite nodesOf_eq. right. by apply (descendants_doc n doc).
Qed.

Lemma locateIn_None p up n : p ∉ ptr <$> nodesOf n -> locateIn p up n = None.
Proof.
  intros Hp. destruct (locateIn p up n) as [l|] eqn:Hl; [|done].
  exfalso. apply Hp. rewrite <- (locateIn_ptr p n up l Hl).
  apply list_elem_of_fmap_2. apply locateIn_sound in Hl.
  by apply locatedIn_nodesOf in Hl.
Qed.

Lemma scanChildren_skip p n up : forall passed before after,
  (forall c, c ∈ passed -> p ∉ ptr <$> nodesOf c) ->
  scanChildren p n up before (passed ++ after)
  = scanChildren p n up (rev passed ++ before) after.
Proof.
  induction passed as [|c passed IH]; intros before after Hpassed; [done|].
  cbn [app]; rewrite scanChildren_cons. rewrite locateIn_None by (apply Hpassed; by left).
  rewrite IH by (intros x Hx; apply Hpassed; by right).
  simpl. by rewrite <- app_assoc.
Qed.

Lemma NoDup_descendants_child n c :
  NoDup (ptr <$> nodesOf n) -> c ∈ childNodes n -> NoDup (ptr <$> nodesOf c).
Proof.
  intros Hnd Hc. rewrite nodesOf_eq, fmap_cons in Hnd. apply NoDup_cons in Hnd as [_ Hnd].
  unfold descendants in Hnd. rewrite fmap_app in Hnd. apply NoDup_app in Hnd as (Hnd & _ & _).
  apply list_elem_of_split in Hc as (l1 & l2 & Hc). rewrite Hc in Hnd.
  rewrite bind_app, bind_cons, !fmap_app in Hnd.
  apply NoDup_app in Hnd as (_ & _ & Hnd). by apply NoDup_app in Hnd as (Hnd & _ & _).
Qed.

Lemma NoDup_descendants_doc n doc :
  NoDup (ptr <$> nodesOf n) -> contentDocument n = Some doc ->
  NoDup (ptr <$> nodesOf doc).
Proof.
  intros Hnd Hdoc. rewrite nodesOf_eq, fmap_cons in Hnd.
  apply NoDup_cons in Hnd as [_ Hnd].
  unfold descendants in Hnd. rewrite Hdoc, fmap_app in Hnd.
  by apply NoDup_app in Hnd as (_ & _ & Hnd).
Qed.

Lemma locateIn_complete n up x upx :
  locatedIn n up x upx -> NoDup (ptr <$> nodesOf n) ->
  locateIn (ptr x) up n = Some (mkLoc x upx).
Proof.
  induction 1 as [n up|n up before c after x upx Hch Hloc IH|n up doc x upx Hdoc Hloc IH];
    intros Hnd; rewrite locateIn_unfold.
  - by rewrite Pos.eqb_refl.
  - pose proof (locatedIn_nodesOf _ _ _ _ Hloc) as Hx.
    assert (c ∈ childNodes n) as Hc by (rewrite Hch, elem_of_app; right; by left).
    destruct (Pos.eqb_spec (ptr n) (ptr x)) as [Heq|_].
    { exfalso. rewrite nodesOf_eq, fmap_cons in Hnd. apply NoDup_cons in Hnd as [Hn _].
      apply Hn. rewrite Heq. apply list_elem_of_fmap_2.
      by apply (descendants_child n c). }
    rewrite Hch, scanChildren_skip.
    + rewrite app_nil_r, rev_involutive. rewrite scanChildren_cons.
      rewrite IH; [done|]. by apply (NoDup_descendants_child n).
    + intros b Hb Hin. apply list_elem_of_fmap in Hin as (y & Hptr & Hy).
      rewrite nodesOf_eq, fmap_cons in Hnd. apply NoDup_cons in Hnd as [_ Hnd].
      unfold descendants in Hnd. rewrite fmap_app in Hnd.
      apply NoDup_app in Hnd as (Hnd & _ & _).
      rewrite Hch, bind_app, bind_cons, !fmap_app in Hnd.
      apply NoDup_app in Hnd as (_ & Hdisj & _).
      apply (Hdisj (ptr y)).
      * apply list_elem_of_fmap_2, list_elem_of_bind. eauto.
      * apply elem_of_app. left. rewrite <- Hptr. by apply list_elem_of_fmap_2.
  - pose proof (locatedIn_nodesOf _ _ _ _ Hloc) as Hx.
    destruct (Pos.eqb_spec (ptr n) (ptr x)) as [Heq|_].
    { exfalso. rewrite nodesOf_eq, fmap_cons in Hnd. apply NoDup_cons in Hnd as [Hn _].
      apply Hn. rewrite Heq. apply list_elem_of_fmap_2.
      by apply (descendants_doc n doc). }
    rewrite <- (app_nil_r (childNodes n)), scanChildren_skip.
    + rewrite scanChildren_nil, Hdoc. apply IH.
      by apply (NoDup_descendants_doc n).
    + intros b Hb Hin. apply list_elem_of_fmap in Hin as (y & Hptr & Hy).
      rewrite nodesOf_eq, fmap_cons in Hnd. apply NoDup_cons in Hnd as [_ Hnd].
      unfold descendants in Hnd. rewrite Hdoc, fmap_app in Hnd.
      apply NoDup_app in Hnd as (_ & Hdisj & _).
      apply (Hdisj (ptr y)).
      * apply list_elem_of_fmap_2, list_elem_of_bind. eauto.
      * rewrite <- Hptr. by apply list_elem_of_fmap_2.
Qed.

Lemma locate_sound d p l :
  locate d p = Some l ->
  exists root, root ∈ d /\ locatedIn root [] (loc_node l) (loc_up l).
Proof.
  induction d as [|root d IH]; simpl; [done|].
  destruct (locateIn p [] root) as [l'|] eqn:Hl.
  - intros [= <-]. exists root. split; [by left|]. by apply locateIn_sound in Hl.
  - intros (r & Hr & H)%IH. exists r. split; [by right|done].
Qed.

Lemma locate_complete d root x upx :
  NoDup (ptr <$> (d ≫= nodesOf)) -> root ∈ d -> locatedIn root [] x upx ->
  locate d (ptr x) = Some (mkLoc x upx).
Proof.
  induction d as [|r d IH]; intros Hnd Hroot Hloc; [by apply elem_of_nil in Hroot|].
  rewrite bind_cons, fmap_app in Hnd. apply NoDup_app in Hnd as (Hr & Hdisj & Hd).
  cbn [locate]. apply elem_of_cons in Hroot as [->|Hroot].
  - by rewrite (locateIn_complete r [] x upx).
  - rewrite locateIn_None; [by apply IH|].
    intros Hin. apply (Hdisj _ Hin). apply list_elem_of_fmap_2, list_elem_of_bind.
    exists root. split; [|done]. by apply locatedIn_nodesOf in Hloc.
Qed.

Lemma locatedIn_child n up x upx before c after :
  locatedIn n up x upx -> childNodes x = rev before ++ c :: after ->
  locatedIn n up c (ChildOf x before after :: upx).
Proof.
  induction 1 as [n up|n up b c' a x upx Hch Hloc IH|n up doc x upx Hdoc Hloc IH];
    intros Hx.
  - apply (located_child n up before c after); [done|constructor].
  - apply (located_child n up b c' a); [done|]. by apply IH.
  - apply (located_document n up doc); [done|]. by apply IH.
Qed.

Lemma locatedIn_document n up x upx doc :
  locatedIn n up x upx -> contentDocument x = Some doc ->
  locatedIn n up doc (ContentOf x :: upx).
Proof.
  induction 1 as [n up|n up b c' a x upx Hch Hloc IH|n up doc' x upx Hdoc Hloc IH];
    intros Hx.
  - apply (located_document n up doc); [done|constructor].
  - apply (located_child n up b c' a); [done|]. by apply IH.
  - apply (located_document n up doc'); [done|]. by apply IH.
Qed.

Lemma locatedIn_inv n up x upx :
  locatedIn n up x upx ->
  (x = n /\ upx = up)
  \/ (exists parent before after up',
        upx = ChildOf parent before after :: up'
        /\ locatedIn n up parent up'
        /\ childNodes parent = rev before ++ x :: after)
  \/ (exists owner up',
        upx = ContentOf owner :: up'
        /\ locatedIn n up owner up'
        /\ contentDocument owner = Some x).
Proof.
  induction 1 as [n up|n up b c a x upx Hch Hloc IH|n up doc x upx Hdoc Hloc IH].
  - by left.
  - right. destruct IH as [[-> ->]|[(parent & b' & a' & up' & -> & Hp & Hpc)
                                   |(owner & up' & -> & Ho & Hoc)]].
    + left. exists n, b, a, up. repeat split; [constructor|done].
    + left. exists parent, b', a', up'. repeat split; [|done].
      by apply (located_child n up b c a).
    + right. exists owner, up'. repeat split; [|done].
      by apply (located_child n up b c a).
  - right. destruct IH as [[-> ->]|[(parent & b' & a' & up' & -> & Hp & Hpc)
                                   |(owner & up' & -> & Ho & Hoc)]].
    + right. exists n, up. repeat split; [constructor|done].
    + left. exists parent, b', a', up'. repeat split; [|done].
      by apply (located_document n up doc).
    + right. exists owner, up'. repeat split; [|done].
      by apply (located_document n up doc).
Qed.

(** Where a node of the DOM is, and what that says of its children and
    of its content document. *)
Lemma inDom_located d node :
  inDom d node ->
  exists root, root ∈ d /\ locatedIn root [] node (stepsOf d node).
Proof.
  intros [Hnd Hderef]. unfold deref in Hderef. unfold stepsOf.
  destruct (locate d (ptr node)) as [l|] eqn:Hl; [|done].
  injection Hderef as Hnode. apply locate_sound in Hl as (root & Hroot & Hloc).
  rewrite Hnode in Hloc. by exists root.
Qed.

Lemma inDom_child d parent before c after :
  inDom d parent -> childNodes parent = rev before ++ c :: after ->
  inDom d c /\ stepsOf d c = ChildOf parent before after :: stepsOf d parent.
Proof.
  intros Hin Hch. destruct (inDom_located d parent Hin) as (root & Hroot & Hloc).
  destruct Hin as [Hnd _].
  pose proof (locatedIn_child _ _ _ _ before c after Hloc Hch) as Hc.
  pose proof (locate_complete d root _ _ Hnd Hroot Hc) as Hlocate.
  unfold inDom, deref, stepsOf at 1. by rewrite Hlocate.
Qed.

Lemma inDom_document d owner doc :
  inDom d owner -> contentDocument owner = Some doc ->
  inDom d doc /\ stepsOf d doc = ContentOf owner :: stepsOf d owner.
Proof.
  intros Hin Hdoc. destruct (inDom_located d owner Hin) as (root & Hroot & Hloc).
  destruct Hin as [Hnd _].
  pose proof (locatedIn_document _ _ _ _ doc Hloc Hdoc) as Hc.
  pose proof (locate_complete d root _ _ Hnd Hroot Hc) as Hlocate.
  unfold inDom, deref, stepsOf at 1. by rewrite Hlocate.
Qed.

Lemma skipWhitespace_head chain :
  skipWhitespace chain = head (filter (fun x => visible x = true) chain).
Proof.
  induction chain as [|c chain IH]; [done|]. simpl.
  destruct (isWhitespace c) eqn:Hc.
  - by rewrite filter_cons_False by (unfold visible; by rewrite Hc).
  - by rewrite filter_cons_True by (unfold visible; by rewrite Hc).
Qed.

Lemma skipWhitespace_last before :
  skipWhitespace before = last (filter (fun x => visible x = true) (rev before)).
Proof.
  induction before as [|c before IH]; [done|].
  cbn [skipWhitespace rev]. rewrite filter_app.
  destruct (isWhitespace c) eqn:Hc.
  - rewrite filter_cons_False by (unfold visible; by rewrite Hc).
    rewrite filter_nil, app_nil_r. exact IH.
  - rewrite filter_cons_True by (unfold visible; by rewrite Hc).
    by rewrite filter_nil, last_snoc.
Qed.

(** An entry of the filtered chain, where it stands in the chain, and
    its neighbours in the filtered chain. *)
Lemma filter_walk (P : DomNode -> Prop) `{!forall x, Decision (P x)} :
  forall (raw : list DomNode) (i : nat) (c : DomNode),
  filter P raw !! i = Some c ->
  exists l1 l2,
    raw = l1 ++ c :: l2
    /\ filter P raw !! S i = head (filter P l2)
    /\ last (filter P l1) = match i with
                            | O => None
                            | S j => filter P raw !! j
                            end.
Proof.
  induction raw as [|x raw IH]; intros i c Hc; [done|].
  destruct (decide (P x)) as [Hx|Hx].
  - rewrite filter_cons_True in Hc |- * by done.
    destruct i as [|i].
    + injection Hc as <-. exists [], raw. repeat split.
      cbn [lookup list_lookup]. by destruct (filter P raw).
    + cbn [lookup list_lookup] in Hc. destruct (IH i c Hc) as (l1 & l2 & -> & Hn & Hp).
      exists (x :: l1), l2. split; [done|]. split; [exact Hn|].
      rewrite filter_cons_True by done. rewrite last_cons, Hp.
      destruct i as [|j]; [done|].
      cbn [lookup list_lookup].
      destruct (lookup_lt_is_Some_2 (filter P (l1 ++ c :: l2)) j) as [y Hy];
        [apply lookup_lt_Some in Hc; lia|].
      by rewrite Hy.
  - rewrite filter_cons_False in Hc |- * by done.
    destruct (IH i c Hc) as (l1 & l2 & -> & Hn & Hp).
    exists (x :: l1), l2. split; [done|]. split; [exact Hn|].
    by rewrite filter_cons_False by done.
Qed.

Lemma inDom_siblings d parent l1 c l2 :
  inDom d parent -> childNodes parent = l1 ++ c :: l2 ->
  nextSiblings d c = l2 /\ previousSiblings d c = rev l1
  /\ parentNode d c = Some parent /\ inDom d c.
Proof.
  intros Hin Hch.
  destruct (inDom_child d parent (rev l1) c l2 Hin) as [Hc Hsteps];
    [by rewrite rev_involutive|].
  unfold nextSiblings, previousSiblings, parentNode. by rewrite Hsteps.
Qed.

(** X23. The walk of the traversal view by pointers.  For a node of a
    DOM without shared addresses, [innerFirstChild] hands out the first
    entry of the traversal view of the node, [innerNextSibling] of an
    entry is the entry after it, and null after the last one; where
    the first entry is not whitespace, [innerPreviousSibling] of an
    entry is the entry before it, and null before the first one. *)
Theorem inner_siblings_follow_the_view (d : Dom) (parent : DomNode) (i : nat)
    (c : DomNode) (a : Agent) :
  inDom d parent ->
  innerChildren parent !! i = Some c ->
  resultOf (innerFirstChild parent) a = innerChildren parent !! 0%nat
  /\ innerNextSibling d c = innerChildren parent !! S i
  /\ ((forall first, innerChildren parent !! 0%nat = Some first ->
                     isWhitespace first = false) ->
      innerPreviousSibling d c
      = match i with
        | O => None
        | S j => innerChildren parent !! j
        end).
Proof.
  intros Hin Hc. split.
  { unfold innerFirstChild, resultOf. rewrite withInnerFirstChild_eq.
    by destruct (innerChildren parent). }
  unfold innerNextSibling, innerPreviousSibling.
  unfold innerChildren in *.
  destruct (frameDocument parent) as [doc|] eqn:Hframe.
  - assert (contentDocument parent = Some doc) as Hdoc.
    { unfold frameDocument in Hframe.
      destruct (contentDocument parent); [|done].
      by destruct (isFrameOwnerElement (info parent)). }
    destruct (inDom_document d parent doc Hin Hdoc) as [Hindoc _].
    destruct (childNodes doc) as [|c0 chain] eqn:Hch; [done|].
    destruct i as [|i].
    + injection Hc as <-.
      destruct (inDom_siblings d doc [] c0 chain Hindoc Hch) as (-> & -> & _).
      split; [|done]. rewrite skipWhitespace_head.
      cbn [lookup list_lookup]. by destruct (filter _ chain).
    + cbn [lookup list_lookup] in Hc.
      destruct (filter_walk _ chain i c Hc) as (l1 & l2 & Hchain & Hn & Hp).
      rewrite Hchain in Hch.
      destruct (inDom_siblings d doc (c0 :: l1) c l2 Hindoc Hch) as (-> & -> & _).
      split.
      * rewrite skipWhitespace_head, <- Hn. done.
      * intros Hfirst. specialize (Hfirst c0 eq_refl).
        rewrite skipWhitespace_last, rev_involutive.
        rewrite filter_cons_True by (unfold visible; by rewrite Hfirst).
        rewrite last_cons, Hp. destruct i as [|j]; [done|].
        cbn [lookup list_lookup].
        destruct (lookup_lt_is_Some_2 (filter (fun x => visible x = true) chain) j)
          as [y Hy]; [apply lookup_lt_Some in Hc; lia|].
        by rewrite Hy.
  - destruct (filter_walk _ (childNodes parent) i c Hc) as (l1 & l2 & Hch & Hn & Hp).
    destruct (inDom_siblings d parent l1 c l2 Hin Hch) as (-> & -> & _).
    split.
    + by rewrite skipWhitespace_head, Hn.
    + intros _. by rewrite skipWhitespace_last, rev_involutive, Hp.
Qed.

Lemma inner_siblings_follow_the_view_witness :
  inDom exDom exHtml
  /\ innerChildren exHtml !! 0%nat = Some exDiv
  /\ innerNextSibling exDom exDiv = Some exFrame.
Proof.
  assert (inDom exDom exHtml) as Hin.
  { split; [|done]. apply (bool_decide_unpack _). by vm_compute. }
  split; [done|]. split; [done|].
  by apply (inner_siblings_follow_the_view exDom exHtml 0 exDiv InspectorDOMAgent).
Defined.

(** X24. The inner parent of an entry of the traversal view.  For a
    node of a DOM without shared addresses that owns a frame with a
    content document of the document type, [innerParentNode] of every
    entry of its traversal view is the node; for a node that is
    neither a frame owner with a content document nor a document, it
    is the node as well; for a document, it is the owner element of
    the document, and null when there is none. *)
Theorem innerParentNode_of_inner_children (d : Dom) (parent : DomNode) (i : nat)
    (c : DomNode) :
  inDom d parent ->
  innerChildren parent !! i = Some c ->
  innerParentNode d c
  = match frameDocument parent with
    | Some doc => if hasType doc DOCUMENT_NODE then Some parent else Some doc
    | None =>
        if hasType parent DOCUMENT_NODE then ownerElement d parent else Some parent
    end.
Proof.
  intros Hin Hc. unfold innerParentNode, innerChildren in *.
  destruct (frameDocument parent) as [doc|] eqn:Hframe.
  - assert (contentDocument parent = Some doc) as Hdoc.
    { unfold frameDocument in Hframe.
      destruct (contentDocument parent); [|done].
      by destruct (isFrameOwnerElement (info parent)). }
    destruct (inDom_document d parent doc Hin Hdoc) as [Hindoc Hsteps].
    assert (exists l1 l2, childNodes doc = l1 ++ c :: l2) as (l1 & l2 & Hch).
    { destruct (childNodes doc) as [|c0 chain]; [done|].
      destruct i as [|i]; [injection Hc as <-; by exists [], chain|].
      cbn [lookup list_lookup] in Hc.
      apply list_elem_of_lookup_2, list_elem_of_filter in Hc as [_ Hc].
      apply list_elem_of_split in Hc as (l1 & l2 & ->). by exists (c0 :: l1), l2. }
    destruct (inDom_siblings d doc l1 c l2 Hindoc Hch) as (_ & _ & -> & _).
    destruct (hasType doc DOCUMENT_NODE); [|done].
    unfold ownerElement. by rewrite Hsteps.
  - apply list_elem_of_lookup_2, list_elem_of_filter in Hc as [_ Hc].
    apply list_elem_of_split in Hc as (l1 & l2 & Hch).
    by destruct (inDom_siblings d parent l1 c l2 Hin Hch) as (_ & _ & -> & _).
Qed.

Lemma innerParentNode_of_inner_children_witness :
  inDom exDom exFrame
  /\ innerChildren exFrame !! 0%nat = Some (exampleElement 12 "HTML" [])
  /\ innerParentNode exDom (exampleElement 12 "HTML" []) = Some exFrame.
Proof.
  assert (inDom exDom exFrame) as Hin.
  { split; [|done]. apply (bool_decide_unpack _). by vm_compute. }
  split; [done|]. split; [done|].
  by apply (innerParentNode_of_inner_children exDom exFrame 0
              (exampleElement 12 "HTML" [])).
Defined.

Lemma inDom_steps d node :
  inDom d node ->
  match stepsOf d node with
  | ChildOf parent _ _ :: up' => inDom d parent /\ stepsOf d parent = up'
  | ContentOf owner :: up' => inDom d owner /\ stepsOf d owner = up'
  | [] => True
  end.
Proof.
  intros Hin. destruct (inDom_located d node Hin) as (root & Hroot & Hloc).
  destruct Hin as [Hnd _].
  apply locatedIn_inv in Hloc
    as [[_ ->]|[(parent & b & a & up' & -> & Hp & _)|(owner & up' & -> & Ho & _)]];
    [done| |].
  - pose proof (locate_complete d root _ _ Hnd Hroot Hp) as Hlocate.
    unfold inDom, deref, stepsOf. by rewrite Hlocate.
  - pose proof (locate_complete d root _ _ Hnd Hroot Ho) as Hlocate.
    unfold inDom, deref, stepsOf. by rewrite Hlocate.
Qed.

(** X25. The parents that [pushNodePathToFrontend] climbs.  For a node
    of a DOM without shared addresses, the chain of inner parents is
    empty where [innerParentNode] is null, and otherwise starts with
    the inner parent and goes on with the chain of the inner parent,
    which is a node of the DOM as well. *)
Theorem innerParents_iterates (d : Dom) (node : DomNode) :
  inDom d node ->
  match innerParentNode d node with
  | Some parent => inDom d parent /\ innerParents d node = parent :: innerParents d parent
  | None => innerParents d node = []
  end.
Proof.
  intros Hin. pose proof (inDom_steps d node Hin) as Hsteps.
  unfold innerParentNode, innerParents, parentNode, ownerElement in *.
  destruct (stepsOf d node) as [|[parent b a|owner] up']; [done| |done].
  destruct Hsteps as [Hparent Hup]. cbn [innerParentsOf].
  destruct (hasType parent DOCUMENT_NODE); [|by rewrite Hup].
  pose proof (inDom_steps d parent Hparent) as Hsteps. rewrite Hup in *.
  destruct up' as [|[p' b' a'|owner] up'']; [done|done|].
  destruct Hsteps as [Howner Hup']. by rewrite Hup'.
Qed.

Lemma innerParents_iterates_witness :
  inDom exDom exSpan
  /\ innerParents exDom exSpan = exDiv :: innerParents exDom exDiv.
Proof.
  assert (inDom exDom exSpan) as Hin.
  { split; [|done]. apply (bool_decide_unpack _). by vm_compute. }
  split; [done|]. apply (innerParents_iterates exDom exSpan Hin).
Defined.

(** ** Insertion followed by removal *)

Lemma didInsertDOMNode_disclosed d node parent a :
  let s := stateAfter (unbind node DocumentMap) a in
  let parentId := idOf s DocumentMap (ptr parent) in
  isWhitespace node = false -> parentNode d node = Some parent ->
  parentId ≠ 0 -> parentId ∈ m_childrenRequested s ->
  stateAfter (didInsertDOMNode d node) a
  = let s' := stateAfter (buildObjectForNode node 0 DocumentMap) s in
    set_frontend_calls
      (frontend_calls s'
         ++ [Frontend.childNodeInserted parentId
               (resultOf (NodeToIdMap_get_opt DocumentMap (innerPreviousSibling d node)) s)
               (resultOf (buildObjectForNode node 0 DocumentMap) s)]) s'.
Proof.
  intros s parentId Hws Hparent Hne Hin.
  unfold didInsertDOMNode. rewrite Hws, Hparent.
  rewrite stateAfter_bind. fold s. rewrite stateAfter_bind.
  change (resultOf (NodeToIdMap_get_opt DocumentMap (Some parent)) _)
    with (idOf s DocumentMap (ptr parent)).
  change (stateAfter (NodeToIdMap_get_opt DocumentMap (Some parent)) ?x) with x.
  fold parentId.
  destruct (Z.eqb_spec parentId 0) as [|_]; [done|].
  rewrite stateAfter_bind.
  change (stateAfter (gets _) ?x) with x.
  change (resultOf (gets ?f) ?x) with (f x).
  cbv beta. rewrite bool_decide_eq_true_2 by done. cbn [negb].
  rewrite stateAfter_bind.
  assert (stateAfter (NodeToIdMap_get_opt DocumentMap (innerPreviousSibling d node)) s
          = s) as -> by (by destruct (innerPreviousSibling d node)).
  by rewrite stateAfter_bind.
Qed.

Lemma didRemoveDOMNode_disclosed d node parent b :
  let parentId := idOf b DocumentMap (ptr parent) in
  isWhitespace node = false -> parentNode d node = Some parent ->
  parentId ≠ 0 -> parentId ∈ m_childrenRequested b ->
  stateAfter (didRemoveDOMNode d node) b
  = stateAfter (unbind node DocumentMap)
      (set_frontend_calls
         (frontend_calls b
            ++ [Frontend.childNodeRemoved parentId (idOf b DocumentMap (ptr node))]) b).
Proof.
  intros parentId Hws Hparent Hne Hin.
  unfold didRemoveDOMNode. rewrite Hws, Hparent.
  rewrite stateAfter_bind.
  change (resultOf (NodeToIdMap_get_opt DocumentMap (Some parent)) b) with parentId.
  change (stateAfter (NodeToIdMap_get_opt DocumentMap (Some parent)) ?x) with x.
  destruct (Z.eqb_spec parentId 0) as [|_]; [done|].
  rewrite stateAfter_bind.
  change (stateAfter (gets _) ?x) with x.
  change (resultOf (gets ?f) ?x) with (f x).
  cbv beta. rewrite bool_decide_eq_true_2 by done. cbn [negb].
  rewrite !stateAfter_bind. done.
Qed.

(** X26. An insertion undone.  For a node that is not whitespace, whose
    tree is apart from its parent, and whose parent is bound with
    disclosed children: [didInsertDOMNode] followed by
    [didRemoveDOMNode] sends [childNodeInserted] and then
    [childNodeRemoved], both with the identifier of the parent; the
    identifier that the removal withdraws is the one that the
    description of the insertion announced, the value of the counter
    before; and the node has no identifier afterwards. *)
Theorem insertion_then_removal (d : Dom) (node parent : DomNode) (a : Agent) :
  isWhitespace node = false ->
  parentNode d node = Some parent ->
  apartFrom a DocumentMap node parent ->
  idOf a DocumentMap (ptr parent) ≠ 0 ->
  idOf a DocumentMap (ptr parent) ∈ m_childrenRequested a ->
  m_lastNodeId a ≠ 0 ->
  let parentId := idOf a DocumentMap (ptr parent) in
  let final := stateAfter (didInsertDOMNode d node ;; didRemoveDOMNode d node) a in
  exists prevId value,
    frontend_calls final
    = frontend_calls a
      ++ [Frontend.childNodeInserted parentId prevId value;
          Frontend.childNodeRemoved parentId (o_id value)]
    /\ o_id value = m_lastNodeId a
    /\ idOf final DocumentMap (ptr node) = 0.
Proof.
  intros Hws Hparent Hapart Hne Hin Hcounter parentId final.
  pose proof (unbindRel_unbind node DocumentMap a) as Hrel.
  set (s := stateAfter (unbind node DocumentMap) a) in *.
  destruct (apartFrom_untouched a node parent Hapart) as [HparentId Hrequested].
  fold s in HparentId, Hrequested. fold parentId in HparentId, Hrequested, Hne, Hin.
  assert (idOf s DocumentMap (ptr node) = 0) as Hunbound by apply unbind_unbinds.
  assert (m_lastNodeId s = m_lastNodeId a) as Hlast by apply (ur_lastNodeId _ _ _ Hrel).
  assert (frontend_calls s = frontend_calls a) as Hlog by apply (ur_frontend _ _ _ Hrel).
  destruct (buildObjectForNode_binds node 0 s Hunbound) as [Hvalue Hbound];
    [by rewrite Hlast|].
  rewrite Hlast in Hvalue, Hbound.
  set (value := resultOf (buildObjectForNode node 0 DocumentMap) s) in *.
  set (s' := stateAfter (buildObjectForNode node 0 DocumentMap) s) in *.
  set (prevId := resultOf (NodeToIdMap_get_opt DocumentMap (innerPreviousSibling d node)) s).
  set (b := set_frontend_calls
              (frontend_calls s' ++ [Frontend.childNodeInserted parentId prevId value]) s').
  assert (stateAfter (didInsertDOMNode d node) a = b) as Hinsert.
  { rewrite (didInsertDOMNode_disclosed d node parent a Hws Hparent).
    - fold s. by rewrite HparentId.
    - fold s. by rewrite HparentId.
    - fold s. rewrite HparentId. by apply Hrequested. }
  assert (forall v x, frontend_calls (set_frontend_calls v x) = v) as Hset
    by (intros v x; by destruct x).
  assert (forall M p, idOf b M p = idOf s' M p) as Hb by (intros; by destruct s').
  assert (m_childrenRequested b = m_childrenRequested s') as Hbr by (by destruct s').
  assert (frontend_calls b
          = frontend_calls a ++ [Frontend.childNodeInserted parentId prevId value])
    as Hbf.
  { subst b. rewrite Hset. subst s'. by rewrite buildObjectForNode_frontend, Hlog. }
  assert (idOf b DocumentMap (ptr parent) = parentId) as Hbp.
  { rewrite Hb. subst s'. rewrite buildObjectForNode_keeps_bound; by rewrite HparentId. }
  assert (idOf b DocumentMap (ptr node) = m_lastNodeId a) as Hbn.
  { by rewrite Hb. }
  assert (parentId ∈ m_childrenRequested b) as Hbin.
  { rewrite Hbr. subst s'. rewrite buildObjectForNode_requested. by apply Hrequested. }
  exists prevId, value.
  subst final. rewrite stateAfter_bind, Hinsert.
  rewrite (didRemoveDOMNode_disclosed d node parent b Hws Hparent);
    [|by rewrite Hbp..].
  split; [|split; [done|apply unbind_unbinds]].
  rewrite (ur_frontend _ _ _ (unbindRel_unbind node DocumentMap _)).
  rewrite Hbp, Hbn, Hvalue.
  rewrite Hset, Hbf, <- app_assoc. done.
Qed.

Lemma insertion_then_removal_witness :
  exists prevId value,
    frontend_calls
      (stateAfter (didInsertDOMNode exDom exSpan ;; didRemoveDOMNode exDom exSpan)
         exDisclosed)
    = frontend_calls exDisclosed
      ++ [Frontend.childNodeInserted 3 prevId value;
          Frontend.childNodeRemoved 3 (o_id value)]
    /\ o_id value = m_lastNodeId exDisclosed
    /\ idOf (stateAfter (didInsertDOMNode exDom exSpan ;; didRemoveDOMNode exDom exSpan)
               exDisclosed) DocumentMap (ptr exSpan) = 0.
Proof.
  assert (isWhitespace exSpan = false) as Hws by reflexivity.
  assert (parentNode exDom exSpan = Some exDiv) as Hparent by reflexivity.
  assert (apartFrom exDisclosed DocumentMap exSpan exDiv) as Hapart.
  { intros x Hx. revert x Hx. apply Forall_forall.
    apply (bool_decide_unpack _). by vm_compute. }
  assert (idOf exDisclosed DocumentMap (ptr exDiv) ≠ 0) as Hne by (by vm_compute).
  assert (idOf exDisclosed DocumentMap (ptr exDiv) ∈ m_childrenRequested exDisclosed)
    as Hin.
  { apply (bool_decide_unpack _). by vm_compute. }
  assert (m_lastNodeId exDisclosed ≠ 0) as Hcounter by (by vm_compute).
  apply (insertion_then_removal exDom exSpan exDiv exDisclosed
           Hws Hparent Hapart Hne Hin Hcounter).
Defined.

(** ** Pushing a node through its parent *)

Lemma bind_result p M s :
  is_Some (nodesMapAt s M) ->
  idOf (stateAfter (bind p M) s) M p = resultOf (bind p M) s.
Proof.
  intros Hlive. destruct (decide (idOf s M p = 0)) as [Hz|Hnz].
  - destruct (bind_fresh p M s Hz) as (-> & _ & ->). by rewrite decide_True.
  - unfold stateAfter, resultOf. by rewrite bind_bound.
Qed.

Lemma buildObjectForNode_boundAsTold node depth s :
  boundAsTold DocumentMap node
    (resultOf (buildObjectForNode node depth DocumentMap) s)
    (stateAfter (buildObjectForNode node depth DocumentMap) s).
Proof.
  unfold boundAsTold. rewrite buildObjectForNode_id. intros Hne.
  rewrite <- (bind_result (ptr node) DocumentMap s) in Hne |- * by (by eexists).
  rewrite buildObjectForNode_unfold, stateAfter_bind.
  set (s1 := stateAfter (bind (ptr node) DocumentMap) s) in *.
  destruct (match nodeType (info node) with TEXT_NODE => _ | _ => _ end)
    as [[nodeName localName] nodeValue].
  destruct (isContainerType node); [|done].
  rewrite !stateAfter_bind.
  change (stateAfter (ret _) ?x) with x.
  set (I := fun t => idOf t DocumentMap (ptr node) = idOf s1 DocumentMap (ptr node)).
  assert (forall doc, keeps I (startListening doc)) as Hl.
  { intros doc t Ht. unfold I. by rewrite startListening_idOf. }
  cut (I (stateAfter (buildArrayForContainerChildren node depth DocumentMap)
            (stateAfter (innerChildNodeCount node) s1))); [done|].
  apply (keeps_buildArrayForContainerChildren I buildObjectForNode); [done| |].
  - intros c depth' _ t Ht. unfold I.
    rewrite buildObjectForNode_keeps_bound; [done|]. by rewrite Ht.
  - by apply (keeps_innerChildNodeCount I).
Qed.

Lemma boundAsTold_stable c v node depth s :
  boundAsTold DocumentMap c v s ->
  boundAsTold DocumentMap c v (stateAfter (buildObjectForNode node depth DocumentMap) s).
Proof.
  unfold boundAsTold. intros H Hne.
  rewrite buildObjectForNode_keeps_bound; [by apply H|]. by rewrite H.
Qed.

Lemma forInnerSiblings_each {A} (body : DomNode -> M A)
    (R : DomNode -> A -> Agent -> Prop) :
  (forall c s, R c (resultOf (body c) s) (stateAfter (body c) s)) ->
  (forall c x c' s, R c x s -> R c x (stateAfter (body c') s)) ->
  forall chain a,
    Forall2 (fun c x => R c x (stateAfter (forInnerSiblings body chain) a))
      (filter (fun x => visible x = true) chain)
      (resultOf (forInnerSiblings body chain) a).
Proof.
  intros Hmake Hstable. induction chain as [|c chain IH]; intros a.
  - constructor.
  - cbn [forInnerSiblings]. destruct (isWhitespace c) eqn:Hc.
    + rewrite filter_cons_False by (unfold visible; by rewrite Hc). apply IH.
    + rewrite filter_cons_True by (unfold visible; by rewrite Hc).
      rewrite resultOf_bind, stateAfter_bind, resultOf_bind, stateAfter_bind.
      change (resultOf (ret ?x) _) with x. change (stateAfter (ret _) ?s) with s.
      constructor; [|apply IH].
      apply (keeps_forInnerSiblings (R c (resultOf (body c) a)) body chain);
        [|apply Hmake].
      intros c' _ _ s Hs. by apply Hstable.
Qed.

Lemma forInnerChildren_each {A} (body : DomNode -> M A)
    (R : DomNode -> A -> Agent -> Prop) :
  (forall c s, R c (resultOf (body c) s) (stateAfter (body c) s)) ->
  (forall c x c' s, R c x s -> R c x (stateAfter (body c') s)) ->
  forall node a,
    Forall2 (fun c x => R c x (stateAfter (forInnerChildren body node) a))
      (innerChildren node) (resultOf (forInnerChildren body node) a).
Proof.
  intros Hmake Hstable node a.
  unfold forInnerChildren, innerChildren, frameDocument, ifFrameDocument.
  destruct (contentDocument node) as [doc|];
    [|by apply forInnerSiblings_each].
  destruct (isFrameOwnerElement (info node)); [|by apply forInnerSiblings_each].
  rewrite resultOf_bind, stateAfter_bind.
  destruct (childNodes doc) as [|c chain]; [constructor|].
  rewrite resultOf_bind, stateAfter_bind, resultOf_bind, stateAfter_bind.
  change (resultOf (ret ?x) _) with x. change (stateAfter (ret _) ?s) with s.
  constructor; [|by apply forInnerSiblings_each].
  apply (keeps_forInnerSiblings (R c _) body chain); [|apply Hmake].
  intros c' _ _ s Hs. by apply Hstable.
Qed.

Lemma buildArrayForContainerChildren_boundAsTold container a :
  Forall2 (fun c v =>
             boundAsTold DocumentMap c v
               (stateAfter (buildArrayForContainerChildren container 1 DocumentMap) a))
    (innerChildren container)
    (resultOf (buildArrayForContainerChildren container 1 DocumentMap) a).
Proof.
  unfold buildArrayForContainerChildren, buildArrayForContainerChildren_with.
  change (1 =? 0) with false. cbv iota.
  apply (forInnerChildren_each _ (boundAsTold DocumentMap)).
  - intros c s. apply buildObjectForNode_boundAsTold.
  - intros c x c' s. apply boundAsTold_stable.
Qed.

Lemma buildArrayForContainerChildren_frontend container depth M a :
  frontend_calls (stateAfter (buildArrayForContainerChildren container depth M) a)
  = frontend_calls a.
Proof.
  apply (keeps_buildArrayForContainerChildren
           (fun s => frontend_calls s = frontend_calls a) buildObjectForNode);
    [| |done].
  - intros doc s Hs. by rewrite startListening_frontend.
  - intros c depth' _ s Hs. by rewrite buildObjectForNode_frontend.
Qed.

(** X27. [pushNodePathToFrontend] through a bound parent.  With the
    main document described, a node without identifier whose inner
    parent is a container that resolves from its identifier in the
    document map and whose children are not disclosed yet: the
    children of the parent are disclosed with one [setChildNodes], and
    nothing else is sent; the answer is the identifier of the node in
    the document map afterwards, which is the one its description in
    that call carries, unless that is the absent identifier. *)
Theorem pushNodePathToFrontend_through_parent (d : Dom) (node parent : DomNode)
    (p : Node) (a : Agent) :
  head (m_documents a) = Some p ->
  is_Some (m_documentNodeToIdMap a !! p) ->
  idOf a DocumentMap (ptr node) = 0 ->
  head (innerParents d node) = Some parent ->
  idOf a DocumentMap (ptr parent) ≠ 0 ->
  m_idToNode a !! idOf a DocumentMap (ptr parent) = Some (ptr parent) ->
  m_idToNodesMap a !! idOf a DocumentMap (ptr parent) = Some DocumentMap ->
  deref d (ptr parent) = Some parent ->
  isContainerType parent = true ->
  idOf a DocumentMap (ptr parent) ∉ m_childrenRequested a ->
  let parentId := idOf a DocumentMap (ptr parent) in
  let children := resultOf (buildArrayForContainerChildren parent 1 DocumentMap) a in
  let final := stateAfter (pushNodePathToFrontend d node) a in
  let answer := resultOf (pushNodePathToFrontend d node) a in
  frontend_calls final = frontend_calls a ++ [Frontend.setChildNodes parentId children]
  /\ parentId ∈ m_childrenRequested final
  /\ answer = idOf final DocumentMap (ptr node)
  /\ (forall i v, innerChildren parent !! i = Some node -> children !! i = Some v ->
        o_id v ≠ 0 -> answer = o_id v).
Proof.
  intros Hhead Hdescribed Hnode Hparents Hbound HidToNode HidToMap Hderef Hcontainer
    Hfresh parentId children final answer.
  fold parentId in Hbound, HidToNode, HidToMap, Hfresh.
  set (s1 := stateAfter (buildArrayForContainerChildren parent 1 DocumentMap) a).
  set (s2 := set_frontend_calls
               (frontend_calls s1 ++ [Frontend.setChildNodes parentId children])
               (set_m_childrenRequested ({[parentId]} ∪ m_childrenRequested s1) s1)).
  assert (pushChildNodesToFrontend d parentId a = (tt, s2)) as Hpush.
  { rewrite pushChildNodesToFrontend_eq. unfold nodeForId.
    destruct (Z.eqb_spec parentId 0) as [|_]; [done|].
    change (resultOf (gets ?f) ?x) with (f x). cbv beta.
    rewrite HidToNode. cbn [mbind option_bind]. rewrite Hderef, Hcontainer.
    rewrite bool_decide_eq_false_2 by done. cbn [negb andb].
    by rewrite HidToMap. }
  assert (pushNodePathToFrontend d node a = (idOf s2 DocumentMap (ptr node), s2))
    as Hrun.
  { rewrite pushNodePathToFrontend_eq. cbv zeta.
    unfold resultOf, stateAfter. rewrite pushDocumentToFrontend_eq, Hhead.
    rewrite bool_decide_eq_true_2 by done. cbn [fst snd negb].
    rewrite Hnode. change (negb (0 =? 0)) with false. cbv iota.
    destruct (innerParents d node) as [|parent' parents]; [done|].
    injection Hparents as ->.
    assert (pushNodePath_loop node (parent :: parents) [] a = (([parent], None), a))
      as Hloop.
    { cbn [pushNodePath_loop]. rewrite bindM_eq.
      change (resultOf (NodeToIdMap_get DocumentMap (ptr parent)) a) with parentId.
      change (stateAfter (NodeToIdMap_get DocumentMap (ptr parent)) a) with a.
      by destruct (Z.eqb_spec parentId 0) as [|_]. }
    rewrite bindM_eq. unfold resultOf, stateAfter. rewrite Hloop.
    cbn [fst snd rev app default forEach].
    rewrite !bindM_eq, !stateAfter_bind.
    change (resultOf (NodeToIdMap_get DocumentMap (ptr parent)) a) with parentId.
    change (stateAfter (NodeToIdMap_get DocumentMap (ptr parent)) a) with a.
    change (stateAfter (ret tt) ?x) with x.
    unfold stateAfter. rewrite Hpush. cbn [fst snd].
    done. }
  assert (forall M q, idOf s2 M q = idOf s1 M q) as Hids by (intros; by destruct s1).
  subst final answer. unfold resultOf, stateAfter. rewrite Hrun. cbn [fst snd].
  split; [|split; [|split; [done|]]].
  - assert (frontend_calls s2
            = frontend_calls s1 ++ [Frontend.setChildNodes parentId children]) as ->
      by (subst s2; by destruct s1).
    subst s1. by rewrite buildArrayForContainerChildren_frontend.
  - assert (m_childrenRequested s2 = {[parentId]} ∪ m_childrenRequested s1) as ->
      by (subst s2; by destruct s1).
    apply elem_of_union. left. by apply elem_of_singleton.
  - intros i v Hi Hv Hne. rewrite Hids.
    pose proof (buildArrayForContainerChildren_boundAsTold parent a) as Hall.
    fold s1 in Hall. fold children in Hall.
    destruct (Forall2_lookup_l _ _ _ i node Hall Hi) as (v' & Hv' & Htold).
    rewrite Hv in Hv'. injection Hv' as <-. by apply Htold.
Qed.

Lemma pushNodePathToFrontend_through_parent_witness :
  frontend_calls (stateAfter (pushNodePathToFrontend exDom exSpan) exPushed)
  = frontend_calls exPushed
    ++ [Frontend.setChildNodes 3
          (resultOf (buildArrayForContainerChildren exDiv 1 DocumentMap) exPushed)].
Proof.
  assert (head (m_documents exPushed) = Some 1%positive) as Hhead by reflexivity.
  assert (is_Some (m_documentNodeToIdMap exPushed !! 1%positive)) as Hdescribed.
  { apply (bool_decide_unpack _). by vm_compute. }
  assert (idOf exPushed DocumentMap (ptr exSpan) = 0) as Hnode by (by vm_compute).
  assert (head (innerParents exDom exSpan) = Some exDiv) as Hparents by reflexivity.
  assert (idOf exPushed DocumentMap (ptr exDiv) ≠ 0) as Hbound by (by vm_compute).
  assert (m_idToNode exPushed !! idOf exPushed DocumentMap (ptr exDiv)
          = Some (ptr exDiv)) as HidToNode by (by vm_compute).
  assert (m_idToNodesMap exPushed !! idOf exPushed DocumentMap (ptr exDiv)
          = Some DocumentMap) as HidToMap by (by vm_compute).
  assert (deref exDom (ptr exDiv) = Some exDiv) as Hderef by reflexivity.
  assert (isContainerType exDiv = true) as Hcontainer by reflexivity.
  assert (idOf exPushed DocumentMap (ptr exDiv) ∉ m_childrenRequested exPushed)
    as Hfresh.
  { apply (bool_decide_unpack _). by vm_compute. }
  apply (pushNodePathToFrontend_through_parent exDom exSpan exDiv 1 exPushed
           Hhead Hdescribed Hnode Hparents Hbound HidToNode HidToMap Hderef
           Hcontainer Hfresh).
Defined.

(** ** Attributes *)

Lemma attributePairs_flatten (attrMap : list (string * string)) :
  attributePairs (concat (map (fun nv => [fst nv; snd nv]) attrMap)) = attrMap
  /\ length (concat (map (fun nv => [fst nv; snd nv]) attrMap))
     = (2 * length attrMap)%nat.
Proof.
  induction attrMap as [|[name value] attrMap [IH1 IH2]]; [done|].
  cbn [map concat app fst snd attributePairs length]. rewrite IH1, IH2.
  split; [done|lia].
Qed.

(** X28. The attribute array and [didModifyDOMAttr].  The array
    [buildArrayForElementAttributes] builds holds the name and the value
    of every attribute, in the order of the attribute map, so that the
    attributes can be read back from it; it is empty without an
    attribute map.  [didModifyDOMAttr] does nothing for an element
    without identifier in the document map, and otherwise sends one
    [attributesUpdated] with the identifier and that array, and changes
    nothing else. *)
Theorem didModifyDOMAttr_spec (element : DomNode) (a : Agent) :
  (forall attrMap, attributes (info element) = Some attrMap ->
     attributePairs (buildArrayForElementAttributes element) = attrMap
     /\ length (buildArrayForElementAttributes element) = (2 * length attrMap)%nat)
  /\ (attributes (info element) = None -> buildArrayForElementAttributes element = [])
  /\ (idOf a DocumentMap (ptr element) = 0 -> didModifyDOMAttr element a = (tt, a))
  /\ (idOf a DocumentMap (ptr element) ≠ 0 ->
      didModifyDOMAttr element a
      = (tt, set_frontend_calls
               (frontend_calls a
                  ++ [Frontend.attributesUpdated (idOf a DocumentMap (ptr element))
                        (buildArrayForElementAttributes element)]) a)).
Proof.
  split; [|split; [|split]].
  - intros attrMap Hattr. unfold buildArrayForElementAttributes. rewrite Hattr.
    apply attributePairs_flatten.
  - intros Hattr. unfold buildArrayForElementAttributes. by rewrite Hattr.
  - intros Hid. unfold didModifyDOMAttr. rewrite bindM_eq.
    change (resultOf (NodeToIdMap_get DocumentMap (ptr element)) a)
      with (idOf a DocumentMap (ptr element)).
    by rewrite Hid.
  - intros Hid. unfold didModifyDOMAttr. rewrite bindM_eq.
    change (resultOf (NodeToIdMap_get DocumentMap (ptr element)) a)
      with (idOf a DocumentMap (ptr element)).
    change (stateAfter (NodeToIdMap_get DocumentMap (ptr element)) a) with a.
    destruct (Z.eqb_spec (idOf a DocumentMap (ptr element)) 0) as [|_]; [done|].
    apply frontend_eq.
Qed.
